(** * Batch audio-to-QA pipeline: a shallow embedding of the three scripts

    The repository holds three variants of one pipeline:
    - [ImprovedVersionFinal.py] (module [Improved]): tenacity-wrapped
      transcription and analysis, a sequential batch loop, one summary
      document per sub-folder.  The embedding follows the first script of
      that file (lines 1 to 307); the copy of an older script appended
      after it is not embedded;
    - [process-audio-transcribe.py] (module [Transcribe]): upload,
      transcribe, analyse, one result per file, no retry; its prompt
      template has a brace that [str.format] rejects, so the analysis
      raises before it calls the model;
    - [recentAsPerHuzaifa-upgraded.py] (module [Huzaifa]): a single remote
      call per file, shared [output_json] and [failed_files] lists, a retry
      pass and one document per top-level folder.

    Python code that can raise is embedded in a state-and-exception monad;
    the remote service, the file system and the clock are an explicit
    environment indexed by the number of interactions made so far.  Paths
    follow [posixpath]; strings are byte strings and case and white space
    are those of ASCII.  Reading an audio file and writing a report are
    file operations of the environment and may raise; a folder that
    [os.walk] has listed is taken to be readable by [os.listdir], and the
    [os.makedirs] that opens [save_output] to succeed. *)

From Stdlib Require Import String Ascii List ZArith Lia Bool Arith PeanoNat FinFun.
Import ListNotations.
Open Scope string_scope.

(* ================================================================== *)
(** ** Python runtime: strings, paths, values, exceptions *)
(* ================================================================== *)

Module Py.

(** An exception of class [Exception]: its class name and [str(e)].
    [BaseException]s outside [Exception] (KeyboardInterrupt, task
    cancellation) are not modelled: the scripts never cancel a task. *)
Record Exn : Type := mkExn { exn_class : string; exn_str : string }.

(** JSON-shaped Python values.  [VFloat c] is the float [c / 100]: the only
    floats the scripts build are [round(elapsed, 2)]. *)
#[warnings="-register-all"] Inductive Value : Type :=
| VNone
| VBool (b : bool)
| VInt (z : Z)
| VFloat (hundredths : Z)
| VStr (s : string)
| VList (l : list Value)
| VDict (d : list (string * Value)).

Definition Dict := list (string * Value).

(** [bool(v)] *)
Definition truthy (v : Value) : bool :=
  match v with
  | VNone => false
  | VBool b => b
  | VInt z => negb (z =? 0)%Z
  | VFloat c => negb (c =? 0)%Z
  | VStr s => negb (s =? "")
  | VList l => match l with [] => false | _ => true end
  | VDict d => match d with [] => false | _ => true end
  end.

(** [d.get(k)] on an insertion-ordered dict *)
Fixpoint dict_get (d : Dict) (k : string) : option Value :=
  match d with
  | [] => None
  | (k', v) :: rest => if k' =? k then Some v else dict_get rest k
  end.

(** [k in d] *)
Definition dict_has (d : Dict) (k : string) : bool :=
  match dict_get d k with Some _ => true | None => false end.

(** [d[k] = v]: overwrite in place, or append a new key *)
Fixpoint dict_set (d : Dict) (k : string) (v : Value) : Dict :=
  match d with
  | [] => [(k, v)]
  | (k', v') :: rest =>
      if k' =? k then (k', v) :: rest else (k', v') :: dict_set rest k v
  end.

Definition dict_keys (d : Dict) : list string := map fst d.

Definition KeyError (k : string) : Exn := mkExn "KeyError" ("'" ++ k ++ "'").
Definition TypeError (msg : string) : Exn := mkExn "TypeError" msg.
Definition ValueError (msg : string) : Exn := mkExn "ValueError" msg.
Definition RuntimeError (msg : string) : Exn := mkExn "RuntimeError" msg.
Definition AttributeError (msg : string) : Exn := mkExn "AttributeError" msg.
Definition UnboundLocalError (msg : string) : Exn :=
  mkExn "UnboundLocalError" msg.
Definition JSONDecodeError (msg : string) : Exn := mkExn "JSONDecodeError" msg.

Definition type_name (v : Value) : string :=
  match v with
  | VNone => "NoneType"
  | VBool _ => "bool"
  | VInt _ => "int"
  | VFloat _ => "float"
  | VStr _ => "str"
  | VList _ => "list"
  | VDict _ => "dict"
  end.

(** [v[k]] for a string key [k] *)
Definition subscript (v : Value) (k : string) : Exn + Value :=
  match v with
  | VDict d =>
      match dict_get d k with
      | Some x => inr x
      | None => inl (KeyError k)
      end
  | VList _ =>
      inl (TypeError "list indices must be integers or slices, not str")
  | VStr _ => inl (TypeError "string indices must be integers, not 'str'")
  | _ => inl (TypeError ("'" ++ type_name v ++ "' object is not subscriptable"))
  end.

(** [v[k] = x] for a string key [k] *)
Definition set_item (v : Value) (k : string) (x : Value) : Exn + Value :=
  match v with
  | VDict d => inr (VDict (dict_set d k x))
  | VList _ =>
      inl (TypeError "list indices must be integers or slices, not str")
  | _ =>
      inl (TypeError
             ("'" ++ type_name v ++ "' object does not support item assignment"))
  end.

(** *** Strings *)

Definition is_upper (c : ascii) : bool :=
  let n := nat_of_ascii c in ((65 <=? n) && (n <=? 90))%nat.

Definition lower_char (c : ascii) : ascii :=
  if is_upper c then ascii_of_nat (nat_of_ascii c + 32) else c.

(** [s.lower()] on ASCII letters *)
Fixpoint lower (s : string) : string :=
  match s with
  | EmptyString => EmptyString
  | String c r => String (lower_char c) (lower r)
  end.

(** [s.endswith(suffix)] *)
Definition endswith (s suffix : string) : bool :=
  (String.length suffix <=? String.length s)%nat &&
  (substring (String.length s - String.length suffix)
             (String.length suffix) s =? suffix).

(** [s.startswith(prefix)] *)
Definition startswith (s pre : string) : bool := prefix pre s.

(** ASCII white space as [str.strip()] sees it *)
Definition is_space (c : ascii) : bool :=
  let n := nat_of_ascii c in
  (((9 <=? n) && (n <=? 13)) || ((28 <=? n) && (n <=? 32)))%nat.

Fixpoint lstrip (s : string) : string :=
  match s with
  | EmptyString => EmptyString
  | String c r => if is_space c then lstrip r else s
  end.

Fixpoint rstrip (s : string) : string :=
  match s with
  | EmptyString => EmptyString
  | String c r =>
      match rstrip r with
      | EmptyString => if is_space c then EmptyString else String c EmptyString
      | r' => String c r'
      end
  end.

(** [s.strip()] *)
Definition strip (s : string) : string := rstrip (lstrip s).

(** [len(s.split())] counted as the number of starts of non-blank runs *)
Fixpoint count_words (in_word : bool) (s : string) : nat :=
  match s with
  | EmptyString => 0
  | String c r =>
      if is_space c then count_words false r
      else if in_word then count_words true r
      else S (count_words true r)
  end.

Definition word_count (s : string) : nat := count_words false s.

(** [s.split(sep)] for a one-character separator: never empty *)
Fixpoint split_on (sep : ascii) (s : string) : list string :=
  match s with
  | EmptyString => [EmptyString]
  | String c r =>
      if Ascii.eqb c sep then EmptyString :: split_on sep r
      else match split_on sep r with
           | [] => [String c EmptyString]
           | h :: t => String c h :: t
           end
  end.

(** [sep.join(parts)] *)
Fixpoint join_with (sep : string) (parts : list string) : string :=
  match parts with
  | [] => EmptyString
  | [p] => p
  | p :: rest => p ++ sep ++ join_with sep rest
  end.

(** *** posixpath *)

(** [os.path.basename(p)]: what follows the last slash *)
Definition basename (p : string) : string :=
  last (split_on "/" p) EmptyString.

(** [os.path.join(a, b)] *)
Definition path_join (a b : string) : string :=
  if startswith b "/" then b
  else if (a =? "") || endswith a "/" then a ++ b
  else a ++ "/" ++ b.

(** one step of the component loop of [os.path.normpath] *)
Definition normpath_step (initial_slashes : nat) (new_comps : list string)
  (comp : string) : list string :=
  if (comp =? "") || (comp =? ".") then new_comps
  else if negb (comp =? "..")
          || ((initial_slashes =? 0)%nat
              && match new_comps with [] => true | _ => false end)
          || match new_comps with
             | [] => false
             | _ => last new_comps "" =? ".."
             end
       then new_comps ++ [comp]
       else removelast new_comps.

(** the components kept by [os.path.normpath] *)
Definition normpath_comps (path : string) : list string :=
  let initial_slashes :=
    if startswith path "/" then
      if startswith path "//" && negb (startswith path "///") then 2 else 1
    else 0 in
  fold_left (normpath_step initial_slashes) (split_on "/" path) [].

(** [os.path.normpath(path)] *)
Definition normpath (path : string) : string :=
  if path =? "" then "."
  else
    let initial_slashes :=
      if startswith path "/" then
        if startswith path "//" && negb (startswith path "///") then 2 else 1
      else 0 in
    let body := join_with "/" (normpath_comps path) in
    let res := match initial_slashes with
               | 0 => body
               | 1 => "/" ++ body
               | _ => "//" ++ body
               end in
    if res =? "" then "." else res.

(** the audio filter of the directory scans:
    [f.lower().endswith((".mp3", ".wav"))] *)
Definition is_audio (f : string) : bool :=
  endswith (lower f) ".mp3" || endswith (lower f) ".wav".

(** *** Templates *)

(** [template.format(transcript=...)] for a template whose replacement
    fields are plain names.  Literal text is copied; a doubled brace stands
    for one brace; [{name}] stands for the keyword argument [name]; a
    closing brace on its own and an opening brace at the very end raise
    [ValueError], as does a field that nothing closes; a name other than
    [transcript] raises [KeyError].  [field] is the part of a field name
    read so far, [out] the text produced so far.  Positional fields,
    attribute and index lookups, conversions and format specifications are
    not modelled: the templates of the scripts have none. *)
Fixpoint format_from (template : string) (field : option string)
  (transcript out : string) : Exn + string :=
  match template with
  | EmptyString =>
      match field with
      | None => inr out
      | Some _ => inl (ValueError "expected '}' before end of string")
      end
  | String c rest =>
      match field with
      | Some name =>
          if (c =? "}")%char then
            if name =? "transcript"
            then format_from rest None transcript (out ++ transcript)
            else inl (KeyError name)
          else format_from rest (Some (name ++ String c EmptyString))
                           transcript out
      | None =>
          if (c =? "{")%char then
            match rest with
            | EmptyString =>
                inl (ValueError "Single '{' encountered in format string")
            | String c' rest' =>
                if (c' =? "{")%char
                then format_from rest' None transcript (out ++ "{")
                else format_from rest (Some EmptyString) transcript out
            end
          else if (c =? "}")%char then
            match rest with
            | EmptyString =>
                inl (ValueError "Single '}' encountered in format string")
            | String c' rest' =>
                if (c' =? "}")%char
                then format_from rest' None transcript (out ++ "}")
                else inl (ValueError "Single '}' encountered in format string")
            end
          else format_from rest None transcript (out ++ String c EmptyString)
      end
  end.

Definition format (template transcript : string) : Exn + string :=
  format_from template None transcript EmptyString.

(** [s] with every [#] turned into a double quote: the templates hold
    double quotes and no [#], and are written here with [#] for the
    quote *)
Fixpoint quoted (s : string) : string :=
  match s with
  | EmptyString => EmptyString
  | String c rest =>
      String (if (c =? "#")%char then ascii_of_nat 34 else c) (quoted rest)
  end.

(** *** Slices and ranges *)

(** [l[i:j]] for [0 <= i <= j] *)
Definition slice {A} (l : list A) (i j : nat) : list A :=
  firstn (j - i) (skipn i l).

(** [range(i, stop, step)] for [step >= 1]; [fuel] bounds the length *)
Fixpoint range_from (fuel i stop step : nat) : list nat :=
  match fuel with
  | 0 => []
  | S f => if (i <? stop)%nat then i :: range_from f (i + step) stop step else []
  end.

Definition range (start stop step : nat) : list nat :=
  range_from (stop - start) start stop step.

End Py.

(* ================================================================== *)
(** ** A state-and-exception monad *)
(* ================================================================== *)

Module Eff.
Import Py.

(** A computation over a store [S]: it ends by returning or by raising,
    and the store survives either way. *)
Definition M (S A : Type) : Type := S -> (Exn + A) * S.

Definition ret {S A} (a : A) : M S A := fun s => (inr a, s).

Definition raise {S A} (e : Exn) : M S A := fun s => (inl e, s).

Definition bind {S A B} (c : M S A) (k : A -> M S B) : M S B :=
  fun s =>
    match c s with
    | (inr a, s') => k a s'
    | (inl e, s') => (inl e, s')
    end.

(** [try: body  except Exception as e: handler e] *)
Definition try_except {S A} (body : M S A) (handler : Exn -> M S A) : M S A :=
  fun s =>
    match body s with
    | (inr a, s') => (inr a, s')
    | (inl e, s') => handler e s'
    end.

(** run [c] and hand back how it ended instead of raising *)
Definition attempt {S A} (c : M S A) : M S (Exn + A) :=
  fun s => let '(r, s') := c s in (inr r, s').

(** a pure step that may raise *)
Definition lift {S A} (r : Exn + A) : M S A := fun s => (r, s).

Definition modify {S} (f : S -> S) : M S unit := fun s => (inr tt, f s).

Definition gets {S A} (f : S -> A) : M S A := fun s => (inr (f s), s).

(** [for x in xs: body x] *)
Fixpoint for_each {S A} (xs : list A) (body : A -> M S unit) : M S unit :=
  match xs with
  | [] => ret tt
  | x :: rest => bind (body x) (fun _ => for_each rest body)
  end.

End Eff.

Notation "x <- c ;; k" := (Eff.bind c (fun x => k))
  (at level 61, c at next level, right associativity).
Notation "c ;;; k" := (Eff.bind c (fun _ => k))
  (at level 61, right associativity).

(* ================================================================== *)
(** ** ImprovedVersionFinal.py *)
(* ================================================================== *)

Module Improved.
Import Py Eff.

(** The dict returned by [load_config()]; the API key and the model names
    play no part in the control flow. *)
Record Config : Type := mkConfig { max_retries : nat; batch_size : nat }.

Definition load_config : Config := {| max_retries := 3; batch_size := 10 |}.

(** What the analysis code observes of [response.text]: whether it is
    empty or missing, and what [json.loads] makes of it. *)
Inductive AnalysisText : Type :=
| NoText
| Malformed (msg : string)
| Json (v : Value).

(** The world outside the script.  The first argument of each remote or
    file operation is the number of such operations made before it, so
    the same request may be answered differently each time. *)
Record Env : Type := mkEnv {
  (** [open(file_path, 'rb').read()] *)
  open_read : nat -> string -> Exn + string;
  (** [generate_content] of the transcription model on the audio bytes and
      the MIME type: raises, or yields [response.text] *)
  transcription_reply : nat -> string -> string -> Exn + option string;
  (** [generate_content] of the analysis model on the prompt built from the
      transcript *)
  analysis_reply : nat -> string -> Exn + AnalysisText;
  (** hundredths of a second taken by the operation *)
  latency : nat -> Z;
  (** [os.makedirs("output", exist_ok=True)], [open(path, "w",
      encoding="utf-8")] and [json.dump(doc, fout, ensure_ascii=False)]:
      raises ([OSError], or [UnicodeEncodeError] for text that utf-8 cannot
      encode), or writes the document *)
  json_dump : nat -> string -> Value -> Exn + unit;
  (** [os.walk(directory)]: (root, dirs, files) triples *)
  os_walk : string -> list (string * list string * list string);
  (** [os.listdir(subdir)] *)
  os_listdir : string -> list string
}.

(** One constructor per logging call of the script. *)
Inductive LogRecord : Type :=
| StartingTranscription (file_path : string)
| SuccessfullyTranscribed (file_path : string) (words : nat)
| ErrorDuringTranscription (file_path err : string)
| StartingAnalysis
| SuccessfullyAnalyzed
| ErrorDuringAnalysis (err : string)
| StartingPipeline (file_path : string)
| ErrorProcessing (file_path : string) (elapsed : Z)
| NoAudioFilesFound (directory : string)
| FoundAudioFiles (n : nat) (subdir : string)
| ProcessingBatch (k total : nat)
| ResultsSaved (subdir_name output_path : string)
| ProcessedFiles (n : nat) (subdir_name : string) (total_time : Z)
| TotalCompleted (total_time : Z)
| ProcessedAcross (n : nat).

(** [EvWrite] is a document written in full; [EvWriteFailed] a write that
    raised, which leaves no report, at most a truncated file. *)
Inductive Event : Type :=
| EvSleep (seconds : Z)
| EvLog (r : LogRecord)
| EvWrite (path : string) (doc : Value)
| EvWriteFailed (path : string).

(** Interactions made so far, the wall clock in hundredths of a second, and
    everything the run did, oldest first. *)
Record State : Type := mkState {
  tick : nat;
  now : Z;
  trace : list Event
}.

Definition emit (ev : Event) : M State unit :=
  modify (fun s => mkState (tick s) (now s) (trace s ++ [ev])).

Definition log (r : LogRecord) : M State unit := emit (EvLog r).

(** [await asyncio.sleep(seconds)] *)
Definition sleep (seconds : Z) : M State unit :=
  modify (fun s => mkState (tick s) (now s + 100 * seconds)
                           (trace s ++ [EvSleep seconds])).

(** [time.time()] *)
Definition time_time : M State Z := gets now.

Section WithEnv.

Variable cfg : Config.
Variable env : Env.

(** one file or remote operation *)
Definition interact {A} (f : nat -> Exn + A) : M State A :=
  fun s => (f (tick s),
            mkState (S (tick s)) (now s + latency env (tick s)) (trace s)).

(** *** The retry decorator *)

(** Modelled from the spec: the retry wrapper is tenacity's [retry]
    decorator, whose code is not part of the repository sources; only its
    arguments are, [wait_exponential(multiplier=1, min=4, max=10)] here.
    The wait after failed attempt [attempt_number] is
    [multiplier * 2^(attempt_number - 1)], capped by [max] and floored by
    [min]. *)
Definition wait_exponential (multiplier min max : Z) (attempt_number : nat)
  : Z :=
  Z.max (Z.max 0 min)
        (Z.min (multiplier * 2 ^ Z.of_nat (attempt_number - 1)) max).

Definition max_attempts : nat := 3.
Definition wait_multiplier : Z := 1.
Definition min_wait : Z := 4.
Definition max_wait : Z := 10.

(** the wait of the shipped decorators *)
Definition wait (attempt_number : nat) : Z :=
  wait_exponential wait_multiplier min_wait max_wait attempt_number.

(** Modelled from the spec: the attempt loop of the retry wrapper
    ([stop_after_attempt], [reraise=True]), absent from the sources.  The
    operation is attempted; a success is returned at once; a failure with no
    attempt left is raised again as it is; otherwise the wrapper sleeps for
    [wait attempt_number] seconds and attempts again. *)
Fixpoint retry_from {A} (attempts_left attempt_number : nat)
  (op : M State A) : M State A :=
  fun s =>
    match op s with
    | (inr a, s') => (inr a, s')
    | (inl e, s') =>
        match attempts_left with
        | 0 => (inl e, s')
        | S more =>
            (sleep (wait attempt_number) ;;;
             retry_from more (S attempt_number) op) s'
        end
    end.

(** [@retry(stop=stop_after_attempt(3), wait=wait_exponential(multiplier=1,
    min=4, max=10), reraise=True)] *)
Definition retry {A} (op : M State A) : M State A :=
  retry_from (max_attempts - 1) 1 op.

(** *** transcribe_audio *)

Definition mime_type (file_path : string) : string :=
  if endswith (lower file_path) ".wav" then "audio/wav" else "audio/mpeg".

(** the decorated function body *)
Definition transcribe_audio_body (file_path : string) : M State string :=
  log (StartingTranscription file_path) ;;;
  try_except
    (audio_data <- interact (fun n => open_read env n file_path) ;;
     text <- interact
               (fun n => transcription_reply env n audio_data
                           (mime_type file_path)) ;;
     (* (response.text or "").strip() *)
     let transcript :=
       strip (match text with Some t => t | None => "" end) in
     log (SuccessfullyTranscribed file_path (word_count transcript)) ;;;
     ret transcript)
    (fun e =>
       log (ErrorDuringTranscription file_path (exn_str e)) ;;;
       raise e).

Definition transcribe_audio (file_path : string) : M State string :=
  retry (transcribe_audio_body file_path).

(** *** analyze_transcript *)

(** The prompt is [QA_PROMPT_TEMPLATE.format(transcript=transcript)]; the
    braces of the template of this script (lines 49-71) are all doubled but
    those of [{transcript}], so the call returns, and the reply is indexed
    by the transcript. *)
Definition analyze_transcript_body (transcript : string) : M State Value :=
  log StartingAnalysis ;;;
  try_except
    (reply <- interact (fun n => analysis_reply env n transcript) ;;
     match reply with
     | NoText => raise (ValueError "No response text from analysis model")
     | Malformed msg => raise (JSONDecodeError msg)
     | Json result => log SuccessfullyAnalyzed ;;; ret result
     end)
    (fun e =>
       log (ErrorDuringAnalysis (exn_str e)) ;;;
       raise e).

Definition analyze_transcript (transcript : string) : M State Value :=
  retry (analyze_transcript_body transcript).

(** *** process_file *)

Definition success_result (file_path transcript : string)
  (call_summary qa_evaluation : Value) : Value :=
  VDict [ ("FileName", VStr (basename file_path));
          ("FilePath", VStr file_path);
          ("Success", VBool true);
          ("Transcription", VStr transcript);
          ("CallSummary", call_summary);
          ("QA_Evaluation", qa_evaluation) ].

Definition failure_result (file_path : string) (e : Exn) (elapsed : Z)
  : Value :=
  VDict [ ("FileName", VStr (basename file_path));
          ("FilePath", VStr file_path);
          ("Success", VBool false);
          ("Error", VStr (exn_str e));
          ("Timing", VDict [ ("TotalTime", VFloat elapsed) ]) ].

(** the [try] block of [process_file] *)
Definition pipeline (file_path : string) : M State Value :=
  transcript <- transcribe_audio file_path ;;
  sleep 2 ;;;
  qa_json <- analyze_transcript transcript ;;
  sleep 2 ;;;
  total_time <- time_time ;;
  call_summary <- lift (subscript qa_json "call_summary") ;;
  qa_evaluation <- lift (subscript qa_json "qa_evaluation") ;;
  ret (success_result file_path transcript call_summary qa_evaluation).

Definition process_file (file_path : string) : M State Value :=
  start <- time_time ;;
  log (StartingPipeline file_path) ;;;
  try_except
    (pipeline file_path)
    (fun e =>
       t <- time_time ;;
       let elapsed := (t - start)%Z in
       log (ErrorProcessing file_path elapsed) ;;;
       ret (failure_result file_path e elapsed)).

(** *** process_batch *)

Fixpoint process_batch_loop (files : list string) (results : list Value)
  : M State (list Value) :=
  match files with
  | [] => ret results
  | file :: rest =>
      result <- process_file file ;;
      sleep 2 ;;;
      process_batch_loop rest (results ++ [result])
  end.

Definition process_batch (files : list string) : M State (list Value) :=
  process_batch_loop files [].

(** *** main *)

(** [sum(1 for r in results if keep(r["Success"]))] *)
Fixpoint count_results (keep : Value -> bool) (results : list Value)
  : Exn + Z :=
  match results with
  | [] => inr 0%Z
  | r :: rest =>
      match subscript r "Success" with
      | inl e => inl e
      | inr flag =>
          match count_results keep rest with
          | inl e => inl e
          | inr n => inr (if keep flag then 1 + n else n)%Z
          end
      end
  end.

Definition summary_doc (total_files : nat) (ok failed : Z)
  (all_results : list Value) : Value :=
  VDict [ ("TotalFiles", VInt (Z.of_nat total_files));
          ("SuccessfulFiles", VInt ok);
          ("FailedFiles", VInt failed);
          ("Results", VList all_results) ].

Definition output_path (subdir : string) : string :=
  "output/" ++ basename subdir ++ ".json".

(** the folders [main] collects from [os.walk] *)
Definition subdirs_of (directory : string) : list string :=
  map (fun entry => fst (fst entry))
      (filter (fun entry => existsb is_audio (snd entry))
              (os_walk env directory)).

(** the audio files [main] gathers for one folder *)
Definition audio_files_of (subdir : string) : list string :=
  map (path_join subdir) (filter is_audio (os_listdir env subdir)).

(** the loop over [range(0, len(audio_files), batch_size)] *)
Fixpoint batch_loop (audio_files : list string) (starts : list nat)
  (all_results : list Value) : M State (list Value) :=
  match starts with
  | [] => ret all_results
  | i :: rest =>
      let batch := slice audio_files i (i + batch_size cfg) in
      log (ProcessingBatch
             (i / batch_size cfg + 1)
             ((length audio_files + batch_size cfg - 1) / batch_size cfg)) ;;;
      batch_results <- process_batch batch ;;
      let all_results := (all_results ++ batch_results)%list in
      sleep 10 ;;;
      batch_loop audio_files rest all_results
  end.

Definition run_batches (audio_files : list string) : M State (list Value) :=
  match batch_size cfg with
  | 0 => raise (ValueError "range() arg 3 must not be zero")
  | _ => batch_loop audio_files
           (range 0 (length audio_files) (batch_size cfg)) []
  end.

(** lines 293-295: the report is written, or the exception of the write
    goes to the caller *)
Definition write_json (path : string) (doc : Value) : M State unit :=
  written <- attempt (interact (fun n => json_dump env n path doc)) ;;
  match written with
  | inr _ => emit (EvWrite path doc)
  | inl e => emit (EvWriteFailed path) ;;; raise e
  end.

(** the body of [for subdir in subdirs] *)
Definition process_subdir (total_start : Z) (subdir : string)
  : M State unit :=
  let audio_files := audio_files_of subdir in
  match audio_files with
  | [] => ret tt
  | _ =>
      let total_files := length audio_files in
      log (FoundAudioFiles (length audio_files) subdir) ;;;
      all_results <- run_batches audio_files ;;
      match all_results with
      | [] => ret tt
      | _ =>
          t <- time_time ;;
          let total_time := (t - total_start)%Z in
          ok <- lift (count_results truthy all_results) ;;
          failed <- lift (count_results (fun v => negb (truthy v))
                            all_results) ;;
          let summary := summary_doc total_files ok failed all_results in
          let subdir_name := basename subdir in
          write_json (output_path subdir) summary ;;;
          log (ResultsSaved subdir_name (output_path subdir)) ;;;
          match total_files with
          | 0 => ret tt
          | _ => log (ProcessedFiles total_files subdir_name total_time)
          end
      end
  end.

Definition main (directory : string) : M State unit :=
  total_start <- time_time ;;
  let subdirs := subdirs_of directory in
  match subdirs with
  | [] => log (NoAudioFilesFound directory)
  | _ =>
      for_each subdirs (process_subdir total_start) ;;;
      t <- time_time ;;
      log (TotalCompleted (t - total_start)) ;;;
      log (ProcessedAcross (length subdirs))
  end.

End WithEnv.

End Improved.

(* ================================================================== *)
(** ** process-audio-transcribe.py *)
(* ================================================================== *)

Module Transcribe.
Import Py Eff.

(** the handle returned by [genai.upload_file] *)
Record File : Type := mkFile { name : string; display_name : string }.

(** what [json.loads(response.text)] of the analysis reply does *)
Inductive AnalysisText : Type :=
| TextMissing                (* [response.text] is [None] *)
| Malformed (msg : string)   (* not valid JSON, the empty text included *)
| Json (v : Value).

Record Env : Type := mkEnv {
  (** [genai.upload_file(path=...)]: raises, or yields a handle, or a
      falsy value *)
  upload_file : nat -> string -> Exn + option File;
  (** [generate_content] of the transcription model: [response.text] *)
  transcription_reply : nat -> File -> Exn + option string;
  (** [generate_content] of the analysis model on the prompt built from the
      transcript *)
  analysis_reply : nat -> string -> Exn + AnalysisText;
  (** [genai.delete_file(name)] *)
  delete_file : nat -> string -> Exn + unit;
  (** hundredths of a second taken by the operation *)
  latency : nat -> Z
}.

Inductive LogRecord : Type :=
| StartingTranscription (file_path : string)
| SuccessfullyTranscribed (file_path : string) (words : nat)
| ErrorDuringTranscription (file_path err : string)
| CleanedUp (file_name : string)
| CleanupFailed (file_name err : string)
| StartingAnalysis
| SuccessfullyAnalyzed
| ErrorDuringAnalysis (err : string)
| StartingPipeline (file_path : string)
| SuccessfullyProcessed (file_path : string) (elapsed : Z)
| ErrorProcessing (file_path : string) (elapsed : Z).

Record State : Type := mkState {
  tick : nat;
  now : Z;
  trace : list LogRecord
}.

Definition log (r : LogRecord) : M State unit :=
  modify (fun s => mkState (tick s) (now s) (trace s ++ [r])).

Definition time_time : M State Z := gets now.

(** lines 58-78, with [#] for the double quote.  The sixth criterion
    (line 68) ends in a single closing brace. *)
Definition QA_PROMPT_TEMPLATE : string := quoted "
You are a Quality Assurance Analyst evaluating intake calls for a law firm. Analyze the following call transcript and respond strictly in this JSON format:
{{
  #call_summary#: #A brief 3–4 sentence summary including the reason for the call, key discussion points, and any resolutions or next steps.#,
  #qa_evaluation#: [[
    {{ #criterion#: #Did the intake specialist greet with a warm, enthusiastic tone and slow pace?#, #score#: #Yes/No#, #justification#: #Explain why.# }},
    {{ #criterion#: #Did the intake specialist ask a personalization question like 'What made you call today?'#, #score#: #Yes/No#, #justification#: #Explain why.# }},
    {{ #criterion#: #Was empathy demonstrated consistently throughout the call?#, #score#: #Yes/No#, #justification#: #Explain why.# }},
    {{ #criterion#: #Did the intake specialist confidently control the call flow?#, #score#: #Yes/No#, #justification#: #Explain why.# }},
    {{ #criterion#: #Were unnecessary interruptions avoided?#, #score#: #Yes/No#, #justification#: #Explain why.# }},
    {{ #criterion#: #Was the caller’s name used during the conversation?#, #score#: #Yes/No#, #justification#: #Explain why.# },
    {{ #criterion#: #Was the caller’s phone number collected early in the call?#, #score#: #Yes/No#, #justification#: #Explain why.# }},
    {{ #criterion#: #Was the referral source asked at the end (e.g., 'Who referred you to us?')#, #score#: #Yes/No#, #justification#: #Explain why.# }},
    {{ #criterion#: #Did the agent advocate for the law firm (e.g., 'You’ve called the right place')?#, #score#: #Yes/No#, #justification#: #Explain why.# }},
    {{ #criterion#: #Did the agent close the call by thanking the caller (e.g., 'Thank you for calling, have a nice day')#, #score#: #Yes/No#, #justification#: #Explain why.# }}
  ]]
}}
Transcript:
 ---
{transcript}
".

Section WithEnv.

Variable env : Env.

Definition interact {A} (f : nat -> Exn + A) : M State A :=
  fun s => (f (tick s),
            mkState (S (tick s)) (now s + latency env (tick s)) (trace s)).

(** the [finally] clause of [transcribe_audio] for a truthy [audio] *)
Definition cleanup (audio : File) : M State unit :=
  try_except
    (interact (fun n => delete_file env n (name audio)) ;;;
     log (CleanedUp (name audio)))
    (fun e => log (CleanupFailed (name audio) (exn_str e))).

(** lines 91-98: the statements of the [try] block that follow a
    successful upload *)
Definition transcribe_uploaded (file_path : string) (audio : File)
  : M State string :=
  text <- interact (fun n => transcription_reply env n audio) ;;
  match text with
  | None =>
      raise (AttributeError "'NoneType' object has no attribute 'strip'")
  | Some t =>
      let transcript := strip t in
      log (SuccessfullyTranscribed file_path (word_count transcript)) ;;;
      ret transcript
  end.

(** [transcribe_audio]: [audio] stays [None] unless the upload returns, so
    the [finally] clause deletes the upload only in the last branch. *)
Definition transcribe_audio (file_path : string) : M State string :=
  log (StartingTranscription file_path) ;;;
  uploaded <- attempt (interact (fun n => upload_file env n file_path)) ;;
  match uploaded with
  | inl e =>
      log (ErrorDuringTranscription file_path (exn_str e)) ;;;
      raise e
  | inr None =>
      let e := RuntimeError ("Upload failed for " ++ file_path) in
      log (ErrorDuringTranscription file_path (exn_str e)) ;;;
      raise e
  | inr (Some audio) =>
      outcome <- attempt
                   (try_except
                      (transcribe_uploaded file_path audio)
                      (fun e =>
                         log (ErrorDuringTranscription file_path (exn_str e)) ;;;
                         raise e)) ;;
      cleanup audio ;;;
      lift outcome
  end.

Definition analyze_transcript (transcript : string) : M State Value :=
  log StartingAnalysis ;;;
  try_except
    (prompt <- lift (format QA_PROMPT_TEMPLATE transcript) ;;
     reply <- interact (fun n => analysis_reply env n prompt) ;;
     match reply with
     | TextMissing =>
         raise (TypeError
                  "the JSON object must be str, bytes or bytearray, not NoneType")
     | Malformed msg => raise (JSONDecodeError msg)
     | Json result => log SuccessfullyAnalyzed ;;; ret result
     end)
    (fun e =>
       log (ErrorDuringAnalysis (exn_str e)) ;;;
       raise e).

Definition success_result (file_path : string)
  (call_summary qa_evaluation : Value) : Value :=
  VDict [ ("FileName", VStr (basename file_path));
          ("FilePath", VStr file_path);
          ("Success", VBool true);
          ("CallSummary", call_summary);
          ("QA_Evaluation", qa_evaluation) ].

Definition failure_result (file_path : string) (e : Exn) : Value :=
  VDict [ ("FileName", VStr (basename file_path));
          ("FilePath", VStr file_path);
          ("Success", VBool false);
          ("Error", VStr (exn_str e)) ].

Definition process_file (file_path : string) : M State Value :=
  start <- time_time ;;
  log (StartingPipeline file_path) ;;;
  try_except
    (transcript <- transcribe_audio file_path ;;
     qa_json <- analyze_transcript transcript ;;
     call_summary <- lift (subscript qa_json "call_summary") ;;
     qa_evaluation <- lift (subscript qa_json "qa_evaluation") ;;
     let result := success_result file_path call_summary qa_evaluation in
     t <- time_time ;;
     log (SuccessfullyProcessed file_path (t - start)) ;;;
     ret result)
    (fun e =>
       t <- time_time ;;
       log (ErrorProcessing file_path (t - start)) ;;;
       ret (failure_result file_path e)).

End WithEnv.

End Transcribe.

(* ================================================================== *)
(** ** recentAsPerHuzaifa-upgraded.py *)
(* ================================================================== *)

Module Huzaifa.
Import Py Eff.

Record File : Type := mkFile { name : string; display_name : string }.

(** what the script observes of the model's response: the test of line 108
    and [json.loads(response.text)] *)
Inductive ResponseText : Type :=
| NoValidResponse            (* falsy response, or no or empty [text] *)
| Malformed (msg : string)   (* [json.loads] raises [JSONDecodeError] *)
| Json (v : Value).

Record Env : Type := mkEnv {
  upload_file : nat -> string -> Exn + option File;
  (** [model.generate_content([prompt, audio_file])] *)
  generate_content : nat -> File -> Exn + ResponseText;
  delete_file : nat -> string -> Exn + unit;
  (** [open(path, 'w', encoding='utf-8')] and [json.dump(data, f,
      ensure_ascii=False)]: raises ([OSError], or [UnicodeEncodeError] for
      text that utf-8 cannot encode), or writes the document *)
  json_dump : nat -> string -> Value -> Exn + unit;
  (** [os.walk(base_directory)] *)
  os_walk : string -> list (string * list string * list string)
}.

(** The two lists of [__main__], the list local to [retry_failed_files],
    and the documents written in full.  Logging and printing are left out, except
    for the attribute access of the line 137. *)
Record State : Type := mkState {
  tick : nat;
  output_json : list Value;
  failed_files : list string;
  final_failed_files : list string;
  written : list (string * Value)
}.

(** which list the [failed_files] parameter of [process_single_audio] is *)
Inductive FailedList : Type := TheFailedFiles | TheFinalFailedFiles.

(** [failed_files.append(audio_path)] *)
Definition append_failed (which : FailedList) (audio_path : string)
  : M State unit :=
  modify (fun s =>
            match which with
            | TheFailedFiles =>
                mkState (tick s) (output_json s)
                        (failed_files s ++ [audio_path])
                        (final_failed_files s) (written s)
            | TheFinalFailedFiles =>
                mkState (tick s) (output_json s) (failed_files s)
                        (final_failed_files s ++ [audio_path]) (written s)
            end).

(** [output_json.append(item)] *)
Definition append_output (item : Value) : M State unit :=
  modify (fun s => mkState (tick s) (output_json s ++ [item])
                           (failed_files s) (final_failed_files s)
                           (written s)).

(** how a run of the [try] block ends when it does not raise *)
Inductive Completion : Type := FellThrough | Returned.

Section WithEnv.

Variable env : Env.

Definition interact {A} (f : nat -> Exn + A) : M State A :=
  fun s => (f (tick s),
            mkState (S (tick s)) (output_json s) (failed_files s)
                    (final_failed_files s) (written s)).

(** lines 204-206: the document is written, or the exception of the write
    goes to the caller, leaving at most a truncated file *)
Definition write_json (path : string) (doc : Value) : M State unit :=
  interact (fun n => json_dump env n path doc) ;;;
  modify (fun s => mkState (tick s) (output_json s) (failed_files s)
                           (final_failed_files s)
                           (written s ++ [(path, doc)])).

(** lines 103-130: the [try] block once [audio_file] is bound and truthy *)
Definition process_uploaded (audio_path : string) (audio_file : File)
  (which : FailedList) : M State Completion :=
  response <- interact (fun n => generate_content env n audio_file) ;;
  match response with
  | NoValidResponse =>
      raise (ValueError ("No valid response for " ++ display_name audio_file))
  | Malformed _ =>
      (* except json.JSONDecodeError: ...; return *)
      append_failed which audio_path ;;;
      ret Returned
  | Json response_data =>
      d1 <- lift (set_item response_data "FileName"
                    (VStr (display_name audio_file))) ;;
      d2 <- lift (set_item d1 "FilePath" (VStr audio_path)) ;;
      d3 <- lift (set_item d2 "Success" (VBool true)) ;;
      d4 <- lift (set_item d3 "Message" (VStr "Processed successfully.")) ;;
      append_output d4 ;;;
      interact (fun n => delete_file env n (name audio_file)) ;;;
      ret FellThrough
  end.

(** [process_single_audio(audio_path, output_json, failed_files)].  The
    statement after the [try] (line 137) reads [audio_file.display_name]:
    the variable is unbound when the upload raised, and [None] when the
    upload returned a falsy value. *)
Definition process_single_audio (audio_path : string) (which : FailedList)
  : M State unit :=
  uploaded <- attempt (interact (fun n => upload_file env n audio_path)) ;;
  match uploaded with
  | inl _ =>
      append_failed which audio_path ;;;
      raise (UnboundLocalError
               "cannot access local variable 'audio_file' where it is not associated with a value")
  | inr None =>
      (* line 101 raises ValueError, caught at line 132 *)
      append_failed which audio_path ;;;
      raise (AttributeError
               "'NoneType' object has no attribute 'display_name'")
  | inr (Some audio_file) =>
      outcome <- attempt (process_uploaded audio_path audio_file which) ;;
      match outcome with
      | inr Returned => ret tt
      | inr FellThrough => ret tt
      | inl _ => append_failed which audio_path
      end
  end.

(** [fetch_audio_files]: the suffix test is case-sensitive here *)
Definition fetch_audio_files (base_directory : string) : list string :=
  flat_map
    (fun entry =>
       let root := fst (fst entry) in
       map (path_join root)
           (filter (fun filename =>
                      endswith filename ".mp3" || endswith filename ".wav")
                   (snd entry)))
    (os_walk env base_directory).

(** [await asyncio.gather] over coroutines that never suspend: they
    run to completion one after the other in submission order, and the
    first exception in that order is then raised to the caller. *)
Fixpoint gather (tasks : list (M State unit)) : M State unit :=
  match tasks with
  | [] => ret tt
  | task :: rest =>
      first <- attempt task ;;
      others <- attempt (gather rest) ;;
      match first with
      | inl e => raise e
      | inr _ => lift others
      end
  end.

Definition retry_record (audio_path : string) (e : Exn) : Value :=
  VDict [ ("FileName", VStr audio_path);
          ("Success", VBool false);
          ("Message", VStr ("Error processing file on retry: " ++ exn_str e)) ].

(** [retry_failed_files(failed_files, output_json)] *)
Definition retry_failed_files : M State unit :=
  modify (fun s => mkState (tick s) (output_json s) (failed_files s) []
                           (written s)) ;;;
  to_retry <- gets failed_files ;;
  for_each to_retry
    (fun audio_path =>
       try_except
         (process_single_audio audio_path TheFinalFailedFiles)
         (fun e => append_output (retry_record audio_path e))) ;;;
  (* failed_files.clear(); failed_files.extend(final_failed_files) *)
  modify (fun s => mkState (tick s) (output_json s) (final_failed_files s)
                           (final_failed_files s) (written s)).

(** [process_audio_files(audio_paths, output_json, failed_files,
    batch_size)] *)
Definition process_audio_files (audio_paths : list string)
  (batch_size : nat) : M State unit :=
  match batch_size with
  | 0 => raise (mkExn "ZeroDivisionError"
                      "integer division or modulo by zero")
  | _ =>
      for_each (range 0 (length audio_paths) batch_size)
        (fun i =>
           let batch := slice audio_paths i (i + batch_size) in
           gather (map (fun audio =>
                          process_single_audio audio TheFailedFiles)
                       batch)) ;;;
      failed <- gets failed_files ;;
      match failed with
      | [] => ret tt
      | _ => retry_failed_files
      end
  end.

(** [folder_data[folder_name].append(item)], creating the entry if new *)
Fixpoint add_item (folder_data : list (string * list Value))
  (folder_name : string) (item : Value) : list (string * list Value) :=
  match folder_data with
  | [] => [(folder_name, [item])]
  | (k, items) :: rest =>
      if k =? folder_name then (k, (items ++ [item])%list) :: rest
      else (k, items) :: add_item rest folder_name item
  end.

(** the body of the loop of [organize_output_by_folders]; every item of
    [output_json] is a dict, and its [FilePath], when present, a string *)
Definition organize_step (folder_data : list (string * list Value))
  (item : Value) : list (string * list Value) :=
  match item with
  | VDict d =>
      if dict_has d "FilePath" then
        match dict_get d "FilePath" with
        | Some (VStr file_path) =>
            let path_parts := split_on "/" (normpath file_path) in
            if (2 <=? length path_parts)%nat then
              if (3 <=? length path_parts)%nat
              then add_item folder_data (nth 1 path_parts "") item
              else folder_data
            else folder_data
        | _ => folder_data
        end
      else folder_data
  | _ => folder_data
  end.

Definition organize_output_by_folders (output_json : list Value)
  : list (string * list Value) :=
  fold_left organize_step output_json [].

Definition report_path (folder_name : string) : string :=
  path_join "output" (folder_name ++ ".json").

(** [save_output(output_json)] *)
Definition save_output : M State unit :=
  items <- gets output_json ;;
  for_each (organize_output_by_folders items)
    (fun entry => write_json (report_path (fst entry)) (VList (snd entry))).

(** the [__main__] block *)
Definition script : M State unit :=
  let audio_file_paths := fetch_audio_files "test" in
  match audio_file_paths with
  | [] => ret tt
  | _ =>
      process_audio_files audio_file_paths 10 ;;;
      failed <- gets failed_files ;;
      match failed with
      | [] => ret tt
      | _ => retry_failed_files
      end ;;;
      save_output
  end.

End WithEnv.

(** the store [__main__] starts from: both lists empty *)
Definition initial : State := mkState 0 [] [] [] [].

End Huzaifa.

(* ================================================================== *)
(** ** Vocabulary of the statements *)
(* ================================================================== *)

Module Spec.
Import Py Eff.

(** the store once [asyncio.sleep(w)] has returned *)
Definition after_sleep (w : Z) (s : Improved.State) : Improved.State :=
  Improved.mkState (Improved.tick s) (Improved.now s + 100 * w)
                   (Improved.trace s ++ [Improved.EvSleep w]).

(** the store once the entry line of [process_file] is logged *)
Definition entered (file_path : string) (s : Improved.State)
  : Improved.State :=
  Improved.mkState (Improved.tick s) (Improved.now s)
    (Improved.trace s ++ [Improved.EvLog (Improved.StartingPipeline file_path)]).

(** the documents written so far, oldest first *)
Fixpoint writes (tr : list Improved.Event) : list (string * Value) :=
  match tr with
  | [] => []
  | Improved.EvWrite p d :: rest => (p, d) :: writes rest
  | _ :: rest => writes rest
  end.

(** [ev] is the entry line [r] of one of the two decorated functions *)
Definition is_log (r : Improved.LogRecord) (ev : Improved.Event) : bool :=
  match ev, r with
  | Improved.EvLog (Improved.StartingTranscription p),
    Improved.StartingTranscription q => p =? q
  | Improved.EvLog Improved.StartingAnalysis, Improved.StartingAnalysis => true
  | _, _ => false
  end.

(** how often a given entry line was logged *)
Definition count_log (r : Improved.LogRecord) (tr : list Improved.Event)
  : nat :=
  length (filter (is_log r) tr).

(** How attempt number [k + 1] of [op] ends under the retry wrapper started
    in [s], every earlier attempt having failed: the first attempt runs in
    [s], a later one in the store its predecessor left, after the pause. *)
Fixpoint attempt_outcome {A} (op : M Improved.State A) (s : Improved.State)
  (k : nat) : (Exn + A) * Improved.State :=
  match k with
  | 0 => op s
  | S j => op (after_sleep (Improved.wait (S j)) (snd (attempt_outcome op s j)))
  end.

Definition failed {S A} (r : (Exn + A) * S) : Prop :=
  exists e s', r = (inl e, s').

(** entry lines logged between two stores: one per invocation *)
Definition invocations (entry : Improved.LogRecord)
  (s s' : Improved.State) : nat :=
  count_log entry (Improved.trace s')
  - count_log entry (Improved.trace s).

(** every invocation of [op] logs its entry line exactly once *)
Definition logs_entry_once {A} (entry : Improved.LogRecord)
  (op : M Improved.State A) : Prop :=
  forall s,
    count_log entry (Improved.trace (snd (op s)))
    = S (count_log entry (Improved.trace s)).

(** [x] brought into the window [lo, hi] *)
Definition clamp (lo hi x : Z) : Z := Z.max lo (Z.min x hi).

(** [r] is a result [Improved.process_file] can return for [file_path] *)
Definition item_result (file_path : string) (r : Value) : Prop :=
  (exists transcript call_summary qa_evaluation,
      r = Improved.success_result file_path transcript call_summary
                                  qa_evaluation)
  \/ (exists e elapsed, r = Improved.failure_result file_path e elapsed).

(** [r] is what [Improved.process_file] makes of [file_path] when started
    in some store [s]: the result its [try] block returned, or the failure
    result for the exception [e] that block raised, with [str(e)] as
    [Error] and the time the block took as [Timing] *)
Definition item_outcome (env : Improved.Env) (file_path : string)
  (r : Value) : Prop :=
  exists s,
    (exists s' transcript call_summary qa_evaluation,
        Improved.pipeline env file_path (entered file_path s) = (inr r, s') /\
        r = Improved.success_result file_path transcript call_summary
                                    qa_evaluation)
    \/ (exists e s',
           Improved.pipeline env file_path (entered file_path s)
           = (inl e, s') /\
           r = Improved.failure_result file_path e
                 (Improved.now s' - Improved.now s)).

(** the [Success] entry of [r] is the boolean [flag] *)
Definition tagged (flag : bool) (r : Value) : bool :=
  match subscript r "Success" with
  | inr (VBool b) => Bool.eqb b flag
  | _ => false
  end.

(** [(path, doc)] is the report of [subdir] over the files [files] *)
Definition report_of (env : Improved.Env) (subdir : string)
  (files : list string) (w : string * Value) : Prop :=
  fst w = Improved.output_path subdir /\
  exists ok failed results,
    snd w = Improved.summary_doc (length files) ok failed results /\
    Forall2 (item_outcome env) files results /\
    ok = Z.of_nat (length (filter (tagged true) results)) /\
    failed = Z.of_nat (length (filter (tagged false) results)) /\
    (ok + failed = Z.of_nat (length files))%Z.

(** the folders for which [Improved.main] gets as far as a report *)
Definition reported (env : Improved.Env) (directory : string)
  : list string :=
  filter (fun subdir =>
            match Improved.audio_files_of env subdir with
            | [] => false
            | _ => true
            end)
         (Improved.subdirs_of env directory).

(** the list [process_single_audio] records failures in *)
Definition failed_list (which : Huzaifa.FailedList) (s : Huzaifa.State)
  : list string :=
  match which with
  | Huzaifa.TheFailedFiles => Huzaifa.failed_files s
  | Huzaifa.TheFinalFailedFiles => Huzaifa.final_failed_files s
  end.

(** the record [process_single_audio] appends for a JSON object [d] *)
Definition success_item (audio_file : Huzaifa.File) (audio_path : string)
  (d : Dict) : Value :=
  VDict (dict_set
           (dict_set
              (dict_set
                 (dict_set d "FileName"
                           (VStr (Huzaifa.display_name audio_file)))
                 "FilePath" (VStr audio_path))
              "Success" (VBool true))
           "Message" (VStr "Processed successfully.")).

(** one record per path, in the order of the paths *)
Definition records_for (paths : list string) (items : list Value) : Prop :=
  Forall2 (fun p item =>
             subscript item "FilePath" = inr (VStr p) /\
             subscript item "Success" = inr (VBool true))
          paths items.

(** a computation of ImprovedVersionFinal.py that writes no document,
    however it ends *)
Definition quiet {A} (c : M Improved.State A) : Prop :=
  forall s r s',
    c s = (r, s') ->
    writes (Improved.trace s') = writes (Improved.trace s).

(** the [FilePath] entries of a list of results *)
Definition paths_of (results : list Value) : list (Exn + Value) :=
  map (fun r => subscript r "FilePath") results.

(** every report write of ImprovedVersionFinal.py goes through *)
Definition reports_can_be_written (env : Improved.Env) : Prop :=
  forall n path doc, Improved.json_dump env n path doc = inr tt.

(** every write of recentAsPerHuzaifa-upgraded.py goes through *)
Definition output_can_be_written (env : Huzaifa.Env) : Prop :=
  forall n path doc, Huzaifa.json_dump env n path doc = inr tt.

(** a remote service that serves every request of
    recentAsPerHuzaifa-upgraded.py: every upload yields a handle, every reply
    is a JSON object, every deletion works *)
Definition always_serves (env : Huzaifa.Env) : Prop :=
  (forall n p, exists f, Huzaifa.upload_file env n p = inr (Some f)) /\
  (forall n f, exists d,
      Huzaifa.generate_content env n f = inr (Huzaifa.Json (VDict d))) /\
  (forall n nm, Huzaifa.delete_file env n nm = inr tt).

End Spec.

(* ================================================================== *)
(** ** Concrete worlds *)
(* ================================================================== *)

Module Scenarios.
Import Py Eff.

Definition analysis_json : Value :=
  VDict [ ("call_summary", VStr "Caller asked about an open claim.");
          ("qa_evaluation",
           VList [ VDict [ ("criterion", VStr "Friendly opening?");
                           ("score", VStr "Yes");
                           ("justification", VStr "Greeted by name.") ] ]) ].

(** [os.listdir] read off the walk of a tree *)
Definition listdir_of (tree : list (string * list string * list string))
  (subdir : string) : list string :=
  match find (fun entry => fst (fst entry) =? subdir) tree with
  | Some entry => (snd (fst entry) ++ snd entry)%list
  | None => []
  end.

(** a world of ImprovedVersionFinal.py: replies by interaction number, and
    a directory tree *)
Definition world (transcription : nat -> Exn + option string)
  (analysis : nat -> Exn + Improved.AnalysisText)
  (tree : list (string * list string * list string)) : Improved.Env :=
  {| Improved.open_read := fun _ _ => inr "RIFF";
     Improved.transcription_reply := fun n _ _ => transcription n;
     Improved.analysis_reply := fun n _ => analysis n;
     Improved.latency := fun _ => 150%Z;
     Improved.json_dump := fun _ _ _ => inr tt;
     Improved.os_walk := fun _ => tree;
     Improved.os_listdir := listdir_of tree |}.

Definition one_folder : list (string * list string * list string) :=
  [ ("AudioFiles", ["a"], ["README.txt"]);
    ("AudioFiles/a", [], ["x.wav"; "notes.txt"; "y.MP3"]) ].


(** every call is answered *)
Definition healthy : Improved.Env :=
  world (fun _ => inr (Some " Hello, this is the front desk. "))
        (fun _ => inr (Improved.Json analysis_json))
        one_folder.



(** the transcription service is down *)
Definition outage : Improved.Env :=
  world (fun _ => inl (mkExn "ConnectionError" "service unavailable"))
        (fun _ => inr (Improved.Json analysis_json))
        one_folder.

(** the transcription service times out with an exception that carries no
    message *)
Definition silent_outage : Improved.Env :=
  world (fun _ => inl (mkExn "TimeoutError" ""))
        (fun _ => inr (Improved.Json analysis_json))
        [ ("AudioFiles", ["a"], []); ("AudioFiles/a", [], ["x.wav"]) ].

(** the first transcription call (interaction 1) fails, later ones succeed *)
Definition flaky : Improved.Env :=
  world (fun n => if (n <=? 1)%nat
                  then inl (mkExn "ConnectionError" "reset by peer")
                  else inr (Some "Hello."))
        (fun _ => inr (Improved.Json analysis_json))
        one_folder.

(** the transcription reply has no text and the analysis returns an empty
    summary and an empty evaluation *)
Definition empty_replies : Improved.Env :=
  world (fun _ => inr None)
        (fun _ => inr (Improved.Json
                         (VDict [ ("call_summary", VStr "");
                                  ("qa_evaluation", VList []) ])))
        one_folder.


Definition fresh : Improved.State := Improved.mkState 0 0 [].

(** a world of process-audio-transcribe.py in which every call is
    answered *)
Definition plain : Transcribe.Env :=
  {| Transcribe.upload_file :=
       fun _ p => inr (Some (Transcribe.mkFile ("files/1") (basename p)));
     Transcribe.transcription_reply := fun _ _ => inr (Some "Hello.");
     Transcribe.analysis_reply := fun _ _ => inr (Transcribe.Json analysis_json);
     Transcribe.delete_file := fun _ _ => inr tt;
     Transcribe.latency := fun _ => 150%Z |}.

Definition fresh_plain : Transcribe.State := Transcribe.mkState 0 0 [].

(** worlds of recentAsPerHuzaifa-upgraded.py: uploads and deletions always
    work, the model's reply is chosen by interaction number *)
Definition shared (reply : nat -> Exn + Huzaifa.ResponseText)
  (tree : list (string * list string * list string)) : Huzaifa.Env :=
  {| Huzaifa.upload_file :=
       fun _ p => inr (Some (Huzaifa.mkFile ("files/" ++ basename p)
                                            (basename p)));
     Huzaifa.generate_content := fun n _ => reply n;
     Huzaifa.delete_file := fun _ _ => inr tt;
     Huzaifa.json_dump := fun _ _ _ => inr tt;
     Huzaifa.os_walk := fun _ => tree |}.

Definition summary_json : Value := VDict [ ("summary", VStr "Intake call.") ].

(** every reply is a JSON object *)
Definition served : Huzaifa.Env :=
  shared (fun _ => inr (Huzaifa.Json summary_json))
         [ ("test", ["f1"], []); ("test/f1", [], ["a.wav"; "b.wav"]) ].


(** the first reply (interaction 1) is not valid JSON, later ones are *)
Definition one_bad_reply : Huzaifa.Env :=
  shared (fun n => if (n =? 1)%nat
                   then inr (Huzaifa.Malformed "Expecting value")
                   else inr (Huzaifa.Json summary_json))
         [ ("test", ["f1"], []); ("test/f1", [], ["a.wav"; "b.wav"]) ].

(** no reply is valid JSON *)
Definition only_bad_replies : Huzaifa.Env :=
  shared (fun _ => inr (Huzaifa.Malformed "Expecting value"))
         [ ("test", ["f1"], []); ("test/f1", [], ["a.wav"]) ].

End Scenarios.

(* ================================================================== *)
(** ** process-audio-transcribe.py: [main] *)
(* ================================================================== *)

Module TranscribeMain.
Import Py Eff.

(** What [main] does around the pipeline: its two log lines and the
    document it writes. *)
Inductive RunEvent : Type :=
| FoundAudioFiles (n : nat) (directory : string)
| Wrote (path : string) (doc : Value)
| WriteFailed (path : string)
| AllResultsSaved (path : string).

(** the store of the pipeline, and what [main] itself did, oldest first *)
Record State : Type := mkState {
  pipeline : Transcribe.State;
  events : list RunEvent
}.

Definition record (ev : RunEvent) : M State unit :=
  modify (fun r => mkState (pipeline r) (events r ++ [ev])).

(** a step of the pipeline, run on the pipeline's part of the store *)
Definition in_pipeline {A} (c : M Transcribe.State A) : M State A :=
  fun r => let '(x, s') := c (pipeline r) in (x, mkState s' (events r)).

(** [await asyncio.gather] over coroutines that never suspend ([process_file]
    awaits only coroutines that make blocking calls): they run to completion
    one after the other in submission order; the results come back in that
    order, or the first exception in that order is raised. *)
Fixpoint gather {A} (tasks : list (M State A)) : M State (list A) :=
  match tasks with
  | [] => ret []
  | task :: rest =>
      first <- attempt task ;;
      others <- attempt (gather rest) ;;
      match first, others with
      | inl e, _ => raise e
      | inr _, inl e => raise e
      | inr x, inr xs => ret (x :: xs)
      end
  end.

Section WithEnv.

Variable env : Transcribe.Env.

(** [os.listdir(directory)]: raises, or yields the entry names *)
Variable os_listdir : string -> Exn + list string.

(** [os.makedirs], [open(output_path, "w", encoding="utf-8")] and
    [json.dump(results, fout, ensure_ascii=False)]: raises ([OSError], or
    [UnicodeEncodeError] for text that utf-8 cannot encode), or writes the
    document *)
Variable json_dump : nat -> string -> Value -> Exn + unit.

Definition output_path : string := "output/all_calls.json".

(** [main(directory)] *)
Definition main (directory : string) : M State unit :=
  listing <- lift (os_listdir directory) ;;
  let audio_files := map (path_join directory) (filter is_audio listing) in
  record (FoundAudioFiles (length audio_files) directory) ;;;
  let tasks :=
    map (fun p => in_pipeline (Transcribe.process_file env p)) audio_files in
  results <- gather tasks ;;
  written <- attempt
               (in_pipeline
                  (Transcribe.interact env
                     (fun n => json_dump n output_path (VList results)))) ;;
  match written with
  | inr _ =>
      record (Wrote output_path (VList results)) ;;;
      record (AllResultsSaved output_path)
  | inl e => record (WriteFailed output_path) ;;; raise e
  end.

End WithEnv.

End TranscribeMain.

(* ================================================================== *)
(** ** Further vocabulary *)
(* ================================================================== *)

Module Further.
Import Py Eff Spec.

(** every run of [c] relates the store it starts in to the store it leaves *)
Definition respects {S A} (R : S -> S -> Prop) (c : M S A) : Prop :=
  forall s r s', c s = (r, s') -> R s s'.

(** the clock of ImprovedVersionFinal.py does not run backwards *)
Definition clock_advances (s s' : Improved.State) : Prop :=
  (Improved.now s <= Improved.now s')%Z.

(** no file or remote operation takes a negative time *)
Definition nonneg_latency (env : Improved.Env) : Prop :=
  forall n, (0 <= Improved.latency env n)%Z.

(** [c] makes at most [n] file or remote operations *)
Definition at_most {A} (n : nat) (c : M Improved.State A) : Prop :=
  forall s r s',
    c s = (r, s') ->
    Improved.tick s <= Improved.tick s' <= Improved.tick s + n.

(** [f] holds no slash: the names [os.listdir] yields *)
Fixpoint no_slash (f : string) : bool :=
  match f with
  | EmptyString => true
  | String c r => negb (Ascii.eqb c "/") && no_slash r
  end.

(** the batches the loop of [Improved.main] cuts a folder's files into *)
Definition batches_of (batch_size : nat) (files : list string)
  : list (list string) :=
  map (fun i => slice files i (i + batch_size))
      (range 0 (length files) batch_size).

(** the batch loop of [Improved.main] told by batches rather than by start
    indices: each batch in turn, the first of them the [k + 1]-th of
    [total], is announced in the log, processed, and followed by the
    ten-second pause *)
Fixpoint announce_and_process (env : Improved.Env) (total k : nat)
  (batches : list (list string)) (all_results : list Value)
  : M Improved.State (list Value) :=
  match batches with
  | [] => ret all_results
  | batch :: rest =>
      Improved.log (Improved.ProcessingBatch (k + 1) total) ;;;
      batch_results <- Improved.process_batch env batch ;;
      Improved.sleep 10 ;;;
      announce_and_process env total (S k) rest
        (all_results ++ batch_results)%list
  end.

(** no folder of the walk holds an audio file *)
Definition no_audio (env : Improved.Env) (directory : string) : Prop :=
  forall entry,
    In entry (Improved.os_walk env directory) ->
    existsb is_audio (snd entry) = false.

(** the folder [organize_output_by_folders] files [item] under, if any: the
    second component of its normalised [FilePath] when there are at least
    three *)
Definition folder_of (item : Value) : option string :=
  match item with
  | VDict d =>
      match dict_get d "FilePath" with
      | Some (VStr file_path) =>
          let path_parts := split_on "/" (normpath file_path) in
          if (3 <=? length path_parts)%nat
          then Some (nth 1 path_parts "")
          else None
      | _ => None
      end
  | _ => None
  end.

Definition in_folder (folder_name : string) (item : Value) : bool :=
  match folder_of item with
  | Some k => k =? folder_name
  | None => false
  end.

(** the items [folder_data] holds under [folder_name]; none without such a
    key *)
Fixpoint stored (folder_data : list (string * list Value))
  (folder_name : string) : list Value :=
  match folder_data with
  | [] => []
  | (k, items) :: rest =>
      if k =? folder_name then items else stored rest folder_name
  end.

(** [item] is one of the two kinds of record the third script appends to
    [output_json] *)
Definition recorded (item : Value) : Prop :=
  (exists audio_file audio_path d, item = success_item audio_file audio_path d)
  \/ (exists audio_path e, item = Huzaifa.retry_record audio_path e).

(** between two stores of the third script, [output_json] only gained
    records at its end and nothing was written *)
Definition only_appends (s s' : Huzaifa.State) : Prop :=
  (exists items,
      Huzaifa.output_json s' = (Huzaifa.output_json s ++ items)%list /\
      Forall recorded items) /\
  Huzaifa.written s' = Huzaifa.written s.

(** the upload service rejects every request *)
Definition uploads_fail (env : Huzaifa.Env) : Prop :=
  forall n p, exists e, Huzaifa.upload_file env n p = inl e.

(** every upload yields a handle *)
Definition uploads_succeed (env : Huzaifa.Env) : Prop :=
  forall n p, exists f, Huzaifa.upload_file env n p = inr (Some f).

(** the model never replies with a JSON object *)
Definition no_usable_reply (env : Huzaifa.Env) : Prop :=
  forall n f d,
    Huzaifa.generate_content env n f <> inr (Huzaifa.Json (VDict d)).

(** what line 137 of recentAsPerHuzaifa-upgraded.py raises when the upload
    raised before [audio_file] was bound *)
Definition unbound : Exn :=
  UnboundLocalError
    "cannot access local variable 'audio_file' where it is not associated with a value".

(** what the same line raises when the upload returned [None] *)
Definition no_display_name : Exn :=
  AttributeError "'NoneType' object has no attribute 'display_name'".

(** What one turn of the retry pass leaves for [audio_path], as the records
    appended to [output_json] and the paths appended to the list of files
    that failed again: a success record for the path, the path failing
    again only if the deletion of the upload raised; or no record, the
    attempt having failed inside the [try] block; or the record of the
    retry handler, for one of the two exceptions of line 137. *)
Definition retry_outcome (audio_path : string)
  (out : list Value * list string) : Prop :=
  (exists audio_file d,
      fst out = [success_item audio_file audio_path d] /\
      (snd out = [] \/ snd out = [audio_path]))
  \/ (fst out = [] /\ snd out = [audio_path])
  \/ (exists e,
         (e = unbound \/ e = no_display_name) /\
         fst out = [Huzaifa.retry_record audio_path e] /\
         snd out = [audio_path]).

End Further.

(* ================================================================== *)
(** ** Further concrete worlds *)
(* ================================================================== *)

Module MoreScenarios.
Import Py Eff Scenarios.

(** the analysis returns a JSON object without [call_summary] *)
Definition summary_missing : Improved.Env :=
  world (fun _ => inr (Some "Hello."))
        (fun _ => inr (Improved.Json (VDict [ ("qa_evaluation", VList []) ])))
        one_folder.

(** a tree without audio files *)
Definition silent_tree : Improved.Env :=
  world (fun _ => inr (Some "Hello."))
        (fun _ => inr (Improved.Json analysis_json))
        [ ("AudioFiles", ["docs"], ["README.txt"]);
          ("AudioFiles/docs", [], ["notes.txt"]) ].

Definition fresh_run : TranscribeMain.State :=
  TranscribeMain.mkState fresh_plain [].

Definition two_calls (directory : string) : Exn + list string :=
  inr ["x.wav"; "notes.txt"; "y.mp3"].

(** a file system on which every document can be written *)
Definition writable (n : nat) (path : string) (doc : Value) : Exn + unit :=
  inr tt.

(** a world of process-audio-transcribe.py whose uploads yield nothing *)
Definition no_handle : Transcribe.Env :=
  {| Transcribe.upload_file := fun _ _ => inr None;
     Transcribe.transcription_reply := fun _ _ => inr (Some "Hello.");
     Transcribe.analysis_reply := fun _ _ => inr (Transcribe.Json analysis_json);
     Transcribe.delete_file := fun _ _ => inr tt;
     Transcribe.latency := fun _ => 150%Z |}.

(** a world of recentAsPerHuzaifa-upgraded.py whose uploads all fail *)
Definition upload_outage : Huzaifa.Env :=
  {| Huzaifa.upload_file :=
       fun _ _ => inl (mkExn "ConnectionError" "upload refused");
     Huzaifa.generate_content := fun _ _ => inr (Huzaifa.Json summary_json);
     Huzaifa.delete_file := fun _ _ => inr tt;
     Huzaifa.json_dump := fun _ _ _ => inr tt;
     Huzaifa.os_walk :=
       fun _ => [ ("test", ["f1"], []); ("test/f1", [], ["a.wav"; "b.wav"]) ] |}.

End MoreScenarios.

(* ================================================================== *)
(** ** Facts about lists, strings and dicts *)
(* ================================================================== *)

Module ListFacts.
Import Py.

Lemma chunks_cover {A} (l : list A) bs :
  1 <= bs ->
  forall fuel i,
    length l - i <= fuel ->
    concat (map (fun j => slice l j (j + bs)) (range_from fuel i (length l) bs))
    = skipn i l.
Proof.
  intros Hbs. induction fuel as [|fuel IH]; intros i Hfuel; simpl.
  - symmetry. apply skipn_all2. lia.
  - destruct (i <? length l)%nat eqn:E.
    + apply Nat.ltb_lt in E. simpl. rewrite IH by lia.
      unfold slice. replace (i + bs - i) with bs by lia.
      replace (i + bs) with (bs + i) by lia. rewrite <- skipn_skipn.
      apply firstn_skipn.
    + apply Nat.ltb_ge in E. simpl. symmetry. apply skipn_all2. lia.
Qed.

(** the slices taken by the batch loop, put end to end, are the list *)
Lemma batches_cover {A} (l : list A) bs :
  1 <= bs ->
  concat (map (fun j => slice l j (j + bs)) (range 0 (length l) bs)) = l.
Proof.
  intros Hbs. unfold range. rewrite chunks_cover by lia. reflexivity.
Qed.

Lemma Forall2_witness_r {A B} (R : A -> B -> Prop) l1 l2 :
  Forall2 R l1 l2 -> Forall (fun y => exists x, In x l1 /\ R x y) l2.
Proof.
  induction 1 as [|x y l1 l2 Hxy _ IH]; constructor.
  - exists x. split; [left; reflexivity|exact Hxy].
  - eapply Forall_impl; [|exact IH].
    intros b (a & Ha & Hab). exists a. split; [right; exact Ha|exact Hab].
Qed.

Lemma Forall2_witness_l {A B} (R : A -> B -> Prop) l1 l2 x :
  Forall2 R l1 l2 -> In x l1 -> exists y, In y l2 /\ R x y.
Proof.
  induction 1 as [|a b l1 l2 Hab _ IH]; intros Hin; [destruct Hin|].
  destruct Hin as [->|Hin].
  - exists b. split; [left; reflexivity|exact Hab].
  - destruct (IH Hin) as (y & Hy & Hxy). exists y. split; [right; exact Hy|exact Hxy].
Qed.

End ListFacts.


(** dict updates, and cancellation for string concatenation *)
Module DictFacts.
Import Py.

Lemma dict_get_set_same d k v : dict_get (dict_set d k v) k = Some v.
Proof.
  induction d as [|[k' v'] d IH]; simpl.
  - rewrite String.eqb_refl. reflexivity.
  - destruct (k' =? k) eqn:E; simpl; rewrite E; [reflexivity|exact IH].
Qed.

Lemma dict_get_set_other d k v k' :
  k <> k' -> dict_get (dict_set d k v) k' = dict_get d k'.
Proof.
  intros Hne. induction d as [|[k0 v0] d IH]; simpl.
  - destruct (k =? k') eqn:E; [apply String.eqb_eq in E; contradiction|reflexivity].
  - destruct (k0 =? k) eqn:E; simpl.
    + apply String.eqb_eq in E. subst k0.
      destruct (k =? k') eqn:E'; [apply String.eqb_eq in E'; contradiction|reflexivity].
    + destruct (k0 =? k'); [reflexivity|exact IH].
Qed.




End DictFacts.



(* ================================================================== *)
(** ** The retry wrapper *)
(* ================================================================== *)

Module RetryFacts.
Import Py Eff Improved Spec.

Lemma retry_from_success {A} (op : M State A) n k s a s' :
  op s = (inr a, s') -> retry_from n k op s = (inr a, s').
Proof. intros H. destruct n; simpl; rewrite H; reflexivity. Qed.

Lemma retry_from_exhausted {A} (op : M State A) k s e s' :
  op s = (inl e, s') -> retry_from 0 k op s = (inl e, s').
Proof. intros H. simpl. rewrite H. reflexivity. Qed.

Lemma retry_from_again {A} (op : M State A) n k s e s' :
  op s = (inl e, s') ->
  retry_from (S n) k op s = retry_from n (S k) op (after_sleep (wait k) s').
Proof. intros H. simpl. rewrite H. reflexivity. Qed.

Lemma count_log_app entry tr1 tr2 :
  count_log entry (tr1 ++ tr2) = count_log entry tr1 + count_log entry tr2.
Proof. unfold count_log. rewrite filter_app, length_app. reflexivity. Qed.

Lemma count_log_after_sleep entry w s :
  count_log entry (trace (after_sleep w s)) = count_log entry (trace s).
Proof.
  unfold after_sleep. simpl. rewrite count_log_app.
  unfold count_log at 2. simpl. lia.
Qed.

(** three failed attempts: the wrapper ends as the third attempt did *)
Lemma retry_exhausts {A} (op : M State A) (entry : LogRecord) (s : State) :
  logs_entry_once entry op ->
  (forall k, k < max_attempts -> failed (attempt_outcome op s k)) ->
  retry op s = attempt_outcome op s (max_attempts - 1) /\
  invocations entry s (snd (retry op s)) = max_attempts.
Proof.
  intros Hstep Hall.
  destruct (Hall 0 ltac:(unfold max_attempts; lia)) as (e0 & s0 & H0).
  destruct (Hall 1 ltac:(unfold max_attempts; lia)) as (e1 & s1 & H1).
  destruct (Hall 2 ltac:(unfold max_attempts; lia)) as (e2 & s2 & H2).
  cbn [attempt_outcome] in H0, H1, H2. rewrite H0 in H1. cbn [snd] in H1.
  rewrite H0 in H2. cbn [snd] in H2. rewrite H1 in H2. cbn [snd] in H2.
  assert (R : retry op s = (inl e2, s2)).
  { unfold retry, max_attempts. cbn [Nat.sub].
    rewrite (retry_from_again op 1 1 s e0 s0 H0).
    rewrite (retry_from_again op 0 2 _ e1 s1 H1).
    apply retry_from_exhausted. exact H2. }
  split.
  - rewrite R. unfold max_attempts. cbn [Nat.sub attempt_outcome].
    rewrite H0. cbn [snd]. rewrite H1. cbn [snd]. symmetry. exact H2.
  - rewrite R. cbn [snd]. unfold invocations.
    pose proof (Hstep s) as C0. rewrite H0 in C0. cbn [snd] in C0.
    pose proof (Hstep (after_sleep (wait 1) s0)) as C1.
    rewrite H1 in C1. cbn [snd] in C1.
    pose proof (Hstep (after_sleep (wait 2) s1)) as C2.
    rewrite H2 in C2. cbn [snd] in C2.
    rewrite count_log_after_sleep in C1, C2.
    unfold max_attempts. lia.
Qed.

(** a first success on attempt [k + 1]: exactly [k + 1] invocations *)
Lemma retry_succeeds {A} (op : M State A) (entry : LogRecord) (s : State)
  k a s' :
  logs_entry_once entry op ->
  k < max_attempts ->
  (forall j, j < k -> failed (attempt_outcome op s j)) ->
  attempt_outcome op s k = (inr a, s') ->
  retry op s = (inr a, s') /\ invocations entry s s' = S k.
Proof.
  intros Hstep Hk Hfail Hok. unfold max_attempts in Hk.
  destruct k as [|[|[|k]]]; try lia.
  - cbn [attempt_outcome] in Hok. split.
    + apply retry_from_success. exact Hok.
    + unfold invocations. pose proof (Hstep s) as C0.
      rewrite Hok in C0. cbn [snd] in C0. lia.
  - destruct (Hfail 0 ltac:(lia)) as (e0 & s0 & H0).
    cbn [attempt_outcome] in H0, Hok. rewrite H0 in Hok. cbn [snd] in Hok.
    split.
    + unfold retry, max_attempts. cbn [Nat.sub].
      rewrite (retry_from_again op 1 1 s e0 s0 H0).
      apply retry_from_success. exact Hok.
    + unfold invocations.
      pose proof (Hstep s) as C0. rewrite H0 in C0. cbn [snd] in C0.
      pose proof (Hstep (after_sleep (wait 1) s0)) as C1.
      rewrite Hok in C1. cbn [snd] in C1.
      rewrite count_log_after_sleep in C1. lia.
  - destruct (Hfail 0 ltac:(lia)) as (e0 & s0 & H0).
    destruct (Hfail 1 ltac:(lia)) as (e1 & s1 & H1).
    cbn [attempt_outcome] in H0, H1, Hok. rewrite H0 in H1. cbn [snd] in H1.
    rewrite H0 in Hok. cbn [snd] in Hok. rewrite H1 in Hok. cbn [snd] in Hok.
    split.
    + unfold retry, max_attempts. cbn [Nat.sub].
      rewrite (retry_from_again op 1 1 s e0 s0 H0).
      rewrite (retry_from_again op 0 2 _ e1 s1 H1).
      apply retry_from_success. exact Hok.
    + unfold invocations.
      pose proof (Hstep s) as C0. rewrite H0 in C0. cbn [snd] in C0.
      pose proof (Hstep (after_sleep (wait 1) s0)) as C1.
      rewrite H1 in C1. cbn [snd] in C1.
      pose proof (Hstep (after_sleep (wait 2) s1)) as C2.
      rewrite Hok in C2. cbn [snd] in C2.
      rewrite count_log_after_sleep in C1, C2. lia.
Qed.

Lemma transcribe_audio_body_logs_entry_once env file_path :
  logs_entry_once (StartingTranscription file_path)
                  (transcribe_audio_body env file_path).
Proof.
  intros s. unfold transcribe_audio_body, bind, try_except, log, emit, modify, interact, ret, raise.
  cbn [trace tick now].
  destruct (open_read env (tick s) file_path) as [e|data]; cbn [snd trace].
  - rewrite !count_log_app. unfold count_log. simpl. rewrite String.eqb_refl. simpl. lia.
  - destruct (transcription_reply env (S (tick s)) data (mime_type file_path)) as [e|text];
      cbn [snd trace]; rewrite !count_log_app; unfold count_log; simpl;
      rewrite String.eqb_refl; simpl; lia.
Qed.

Lemma analyze_transcript_body_logs_entry_once env transcript :
  logs_entry_once StartingAnalysis (analyze_transcript_body env transcript).
Proof.
  intros s. unfold analyze_transcript_body, bind, try_except, log, emit, modify, interact, ret, raise.
  cbn [trace tick now].
  destruct (analysis_reply env (tick s) transcript) as [e|[|msg|v]]; cbn [snd trace];
    rewrite !count_log_app; unfold count_log; simpl; lia.
Qed.

Lemma wait_formula n :
  1 <= n ->
  wait n = clamp min_wait max_wait
             (Z.min max_wait (wait_multiplier * 2 ^ (Z.of_nat n - 1))).
Proof.
  intros Hn. unfold wait, wait_exponential, clamp, min_wait, max_wait, wait_multiplier.
  replace (Z.of_nat (n - 1)) with (Z.of_nat n - 1)%Z by lia.
  lia.
Qed.

Lemma retry_pauses {A} (op : M State A) (s : State) (n : nat) e s1 :
  1 <= n < max_attempts ->
  (forall j, j < n - 1 -> failed (attempt_outcome op s j)) ->
  attempt_outcome op s (n - 1) = (inl e, s1) ->
  wait n = clamp min_wait max_wait
             (Z.min max_wait (wait_multiplier * 2 ^ (Z.of_nat n - 1))) /\
  (wait_multiplier = 1 /\ min_wait = 4 /\ max_wait = 10)%Z /\
  retry op s
  = retry_from (max_attempts - 1 - n) (S n) op (after_sleep (wait n) s1).
Proof.
  intros Hn Hfail Hlast. unfold max_attempts in *.
  split; [| split; [repeat split|]].
  - apply wait_formula. lia.
  - destruct n as [|[|[|n]]]; try lia.
    + cbn [Nat.sub attempt_outcome] in Hlast.
      unfold retry, max_attempts. cbn [Nat.sub].
      exact (retry_from_again op 1 1 s e s1 Hlast).
    + destruct (Hfail 0 ltac:(lia)) as (e0 & s0 & H0).
      cbn [Nat.sub attempt_outcome] in Hlast, H0. rewrite H0 in Hlast. cbn [snd] in Hlast.
      unfold retry, max_attempts. cbn [Nat.sub].
      rewrite (retry_from_again op 1 1 s e0 s0 H0).
      exact (retry_from_again op 0 2 _ e s1 Hlast).
Qed.

End RetryFacts.

(* ================================================================== *)
(** ** One item: [process_file] of ImprovedVersionFinal.py *)
(* ================================================================== *)

Module ItemFacts.
Import Py Eff Improved Spec.
Import RetryFacts.

(** [process_file] is its [try] block with every exception turned into a
    failure result *)
Lemma process_file_run env file_path s :
  process_file env file_path s =
  match pipeline env file_path (entered file_path s) with
  | (inr result, s') => (inr result, s')
  | (inl e, s') =>
      (inr (failure_result file_path e (now s' - now s)),
       mkState (tick s') (now s') 
               (trace s' ++ [EvLog (ErrorProcessing file_path (now s' - now s))]))
  end.
Proof.
  unfold process_file, bind, try_except, time_time, gets, log, emit, modify, ret.
  cbn [now]. fold (entered file_path s).
  destruct (pipeline env file_path (entered file_path s)) as [[e|d] s']; reflexivity.
Qed.

Lemma retry_from_returns_inv {A} (op : M State A) n :
  forall k s a s',
    retry_from n k op s = (inr a, s') -> exists s0, op s0 = (inr a, s').
Proof.
  induction n as [|n IH]; intros k s a s' H; simpl in H.
  - destruct (op s) as [[e|a0] s1] eqn:E; try discriminate.
    exists s. rewrite E. exact H.
  - destruct (op s) as [[e|a0] s1] eqn:E.
    + unfold bind, sleep, modify in H. eapply IH. exact H.
    + exists s. rewrite E. exact H.
Qed.

Lemma transcribe_audio_body_returns_inv env file_path s transcript s' :
  transcribe_audio_body env file_path s = (inr transcript, s') ->
  exists audio_data text,
    open_read env (tick s) file_path = inr audio_data /\
    transcription_reply env (S (tick s)) audio_data (mime_type file_path)
    = inr text /\
    transcript = strip (match text with Some t => t | None => "" end).
Proof.
  unfold transcribe_audio_body, bind, try_except, log, emit, modify, interact, ret, raise.
  cbn [tick now trace].
  destruct (open_read env (tick s) file_path) as [e|data] eqn:E1; try discriminate.
  destruct (transcription_reply env (S (tick s)) data (mime_type file_path))
    as [e|text] eqn:E2; try discriminate.
  intros H. injection H as H _. exists data, text. auto.
Qed.

Lemma analyze_transcript_body_returns_inv env transcript s qa_json s' :
  analyze_transcript_body env transcript s = (inr qa_json, s') ->
  analysis_reply env (tick s) transcript = inr (Json qa_json).
Proof.
  unfold analyze_transcript_body, bind, try_except, log, emit, modify, interact, ret, raise.
  cbn [tick now trace].
  destruct (analysis_reply env (tick s) transcript) as [e|[|msg|v]] eqn:E; try discriminate.
  intros H. injection H as H _. subst. reflexivity.
Qed.

Lemma pipeline_returns_inv env file_path s result s' :
  pipeline env file_path s = (inr result, s') ->
  exists transcript qa_json call_summary qa_evaluation s1 s2,
    transcribe_audio env file_path s = (inr transcript, s1) /\
    analyze_transcript env transcript (after_sleep 2 s1) = (inr qa_json, s2) /\
    subscript qa_json "call_summary" = inr call_summary /\
    subscript qa_json "qa_evaluation" = inr qa_evaluation /\
    result = success_result file_path transcript call_summary qa_evaluation /\
    s' = after_sleep 2 s2.
Proof.
  unfold pipeline, bind.
  destruct (transcribe_audio env file_path s) as [[e|transcript] s1] eqn:E1;
    try discriminate.
  unfold sleep at 1, modify. fold (after_sleep 2 s1).
  destruct (analyze_transcript env transcript (after_sleep 2 s1))
    as [[e|qa] s2] eqn:E2; try discriminate.
  unfold sleep, modify, time_time, gets, lift, ret. fold (after_sleep 2 s2).
  destruct (subscript qa "call_summary") as [e|cs] eqn:E3; try discriminate.
  destruct (subscript qa "qa_evaluation") as [e|ev] eqn:E4; try discriminate.
  intros H. injection H as H1 H2.
  exists transcript, qa, cs, ev, s1, s2. repeat split; auto.
Qed.

Lemma item_outcome_result env file_path r :
  item_outcome env file_path r -> item_result file_path r.
Proof.
  intros (s & [(s' & t & cs & ev & _ & ->)|(e & s' & _ & ->)]);
    [left|right]; eauto.
Qed.

Lemma process_file_outcome env file_path s :
  exists result s',
    process_file env file_path s = (inr result, s') /\
    item_outcome env file_path result.
Proof.
  rewrite process_file_run.
  destruct (pipeline env file_path (entered file_path s)) as [[e|d] s'] eqn:E.
  - eexists _, _. split; [reflexivity|]. exists s. right. eauto.
  - exists d, s'. split; [reflexivity|]. exists s. left.
    pose proof E as E0. apply pipeline_returns_inv in E0.
    destruct E0 as (t & qa & cs & ev & s1 & s2 & _ & _ & _ & _ & -> & _).
    eauto 8.
Qed.

Lemma process_file_returns env file_path s :
  exists result s',
    process_file env file_path s = (inr result, s') /\
    item_result file_path result.
Proof.
  destruct (process_file_outcome env file_path s) as (r & s' & E & H).
  exists r, s'. split; [exact E|exact (item_outcome_result _ _ _ H)].
Qed.

Lemma success_result_inv env file_path s result s' :
  process_file env file_path s = (inr result, s') ->
  subscript result "Success" = inr (VBool true) ->
  exists n audio_data text m reply call_summary qa_evaluation,
    transcription_reply env n audio_data (mime_type file_path) = inr text /\
    analysis_reply env m (strip (match text with Some t => t | None => "" end))
    = inr (Json reply) /\
    subscript reply "call_summary" = inr call_summary /\
    subscript reply "qa_evaluation" = inr qa_evaluation /\
    result = success_result file_path
               (strip (match text with Some t => t | None => "" end))
               call_summary qa_evaluation.
Proof.
  rewrite process_file_run.
  destruct (pipeline env file_path (entered file_path s)) as [[e|d] s1] eqn:E.
  - intros H. injection H as <- _. discriminate.
  - intros H _. injection H as <- _.
    apply pipeline_returns_inv in E.
    destruct E as (t & qa & cs & ev & s2 & s3 & Ht & Ha & Hcs & Hev & -> & _).
    apply retry_from_returns_inv in Ht. destruct Ht as (s0 & Ht).
    apply transcribe_audio_body_returns_inv in Ht.
    destruct Ht as (data & text & _ & Hreply & ->).
    apply retry_from_returns_inv in Ha. destruct Ha as (s4 & Ha).
    apply analyze_transcript_body_returns_inv in Ha.
    exists (S (tick s0)), data, text, (tick s4), qa, cs, ev. repeat split; auto.
Qed.

Lemma transcribe_audio_first_reply env file_path s audio_data text :
  open_read env (tick s) file_path = inr audio_data ->
  transcription_reply env (S (tick s)) audio_data (mime_type file_path)
  = inr text ->
  exists s',
    transcribe_audio env file_path s
    = (inr (strip (match text with Some t => t | None => "" end)), s').
Proof.
  intros Hread Hreply. eexists. unfold transcribe_audio, retry.
  apply retry_from_success.
  unfold transcribe_audio_body, bind, try_except, log, emit, modify, interact, ret.
  cbn [tick now trace]. rewrite Hread, Hreply. reflexivity.
Qed.

Lemma transcription_exhausted env file_path s :
  (forall k,
      k < max_attempts ->
      failed (attempt_outcome (transcribe_audio_body env file_path)
                (entered file_path s) k)) ->
  exists e s1,
    attempt_outcome (transcribe_audio_body env file_path)
      (entered file_path s) (max_attempts - 1) = (inl e, s1) /\
    fst (process_file env file_path s)
    = inr (failure_result file_path e (now s1 - now s)).
Proof.
  intros Hall.
  destruct (retry_exhausts _ _ (entered file_path s)
              (transcribe_audio_body_logs_entry_once env file_path) Hall)
    as (R & _).
  destruct (Hall (max_attempts - 1) ltac:(unfold max_attempts; lia))
    as (e & s1 & Hlast).
  exists e, s1. split; [exact Hlast|].
  rewrite process_file_run. unfold pipeline, bind, transcribe_audio.
  rewrite R, Hlast. reflexivity.
Qed.

End ItemFacts.

(* ================================================================== *)
(** ** Batches: [process_batch] and the batch loop *)
(* ================================================================== *)

Module BatchFacts.
Import Py Eff Improved Spec.
Import ItemFacts ListFacts.

Lemma writes_app tr1 tr2 : writes (tr1 ++ tr2) = (writes tr1 ++ writes tr2)%list.
Proof.
  induction tr1 as [|[w|r|p d|p] tr1 IH]; simpl; try assumption.
  - reflexivity.
  - rewrite IH. reflexivity.
Qed.

Lemma quiet_ret {A} (a : A) : quiet (ret a).
Proof. intros s r s' H. injection H as _ <-. reflexivity. Qed.

Lemma quiet_raise {A} e : quiet (@raise State A e).
Proof. intros s r s' H. injection H as _ <-. reflexivity. Qed.

Lemma quiet_lift {A} (x : Exn + A) : quiet (lift x).
Proof. intros s r s' H. injection H as _ <-. reflexivity. Qed.

Lemma quiet_time_time : quiet time_time.
Proof. intros s r s' H. injection H as _ <-. reflexivity. Qed.

Lemma quiet_log r : quiet (log r).
Proof.
  intros s x s' H. injection H as _ <-. simpl.
  rewrite writes_app. simpl. apply app_nil_r.
Qed.

Lemma quiet_sleep w : quiet (sleep w).
Proof.
  intros s x s' H. injection H as _ <-. simpl.
  rewrite writes_app. simpl. apply app_nil_r.
Qed.

Lemma quiet_interact env {A} (f : nat -> Exn + A) : quiet (interact env f).
Proof. intros s x s' H. injection H as _ <-. reflexivity. Qed.

Lemma quiet_bind {A B} (c : M State A) (k : A -> M State B) :
  quiet c -> (forall a, quiet (k a)) -> quiet (bind c k).
Proof.
  intros Hc Hk s r s' H. unfold bind in H.
  destruct (c s) as [[e|a] s1] eqn:E.
  - injection H as _ <-. eapply Hc. exact E.
  - rewrite (Hk a _ _ _ H). eapply Hc. exact E.
Qed.

Lemma quiet_try_except {A} (body : M State A) handler :
  quiet body -> (forall e, quiet (handler e)) -> quiet (try_except body handler).
Proof.
  intros Hb Hh s r s' H. unfold try_except in H.
  destruct (body s) as [[e|a] s1] eqn:E.
  - rewrite (Hh e _ _ _ H). eapply Hb. exact E.
  - injection H as _ <-. eapply Hb. exact E.
Qed.

Lemma quiet_retry_from {A} (op : M State A) n :
  quiet op -> forall k, quiet (retry_from n k op).
Proof.
  intros Hop. induction n as [|n IH]; intros k s r s' H; simpl in H.
  - destruct (op s) as [[e|a] s1] eqn:E; injection H as _ <-; eapply Hop; exact E.
  - destruct (op s) as [[e|a] s1] eqn:E.
    + unfold bind, sleep, modify in H. apply IH in H. rewrite H. simpl.
      rewrite writes_app. simpl. rewrite app_nil_r. eapply Hop. exact E.
    + injection H as _ <-. eapply Hop. exact E.
Qed.

Create HintDb quiet.
#[local] Hint Resolve quiet_ret quiet_raise quiet_lift quiet_time_time quiet_log
  quiet_sleep quiet_interact : quiet.

Ltac quiet_steps :=
  repeat match goal with
  | |- quiet (bind _ _) => apply quiet_bind; [|intros ?]
  | |- quiet (try_except _ _) => apply quiet_try_except; [|intros ?]
  | |- quiet (retry_from _ _ _) => apply quiet_retry_from
  | |- quiet (match ?x with _ => _ end) => destruct x
  | |- quiet _ => solve [auto with quiet]
  end.

Lemma quiet_process_file env file_path : quiet (process_file env file_path).
Proof.
  unfold process_file, pipeline, transcribe_audio, analyze_transcript, retry,
    transcribe_audio_body, analyze_transcript_body.
  quiet_steps.
Qed.

Lemma process_batch_loop_spec env files :
  forall results s,
  exists rs s',
    process_batch_loop env files results s = (inr (results ++ rs)%list, s') /\
    Forall2 (item_outcome env) files rs /\
    writes (trace s') = writes (trace s).
Proof.
  induction files as [|file rest IH]; intros results s; simpl.
  - exists [], s. rewrite app_nil_r. repeat split. constructor.
  - unfold bind.
    destruct (process_file_outcome env file s) as (r & s1 & E & Hr).
    rewrite E.
    pose proof (quiet_process_file env file _ _ _ E) as Q1.
    unfold sleep at 1, modify. fold (after_sleep 2 s1).
    destruct (IH (results ++ [r])%list (after_sleep 2 s1)) as (rs & s' & E' & Hrs & Q2).
    exists (r :: rs), s'. rewrite E'. rewrite <- app_assoc. simpl.
    repeat split.
    + constructor; assumption.
    + rewrite Q2. simpl. rewrite writes_app. simpl. rewrite app_nil_r. exact Q1.
Qed.

Lemma batch_loop_spec cfg env files starts :
  forall all_results s,
  exists rs s',
    batch_loop cfg env files starts all_results s
    = (inr (all_results ++ rs)%list, s') /\
    Forall2 (item_outcome env)
      (concat (map (fun i => slice files i (i + batch_size cfg)) starts)) rs /\
    writes (trace s') = writes (trace s).
Proof.
  induction starts as [|i rest IH]; intros acc s; simpl.
  - exists [], s. rewrite app_nil_r. repeat split. constructor.
  - unfold bind, log, emit, modify, process_batch.
    match goal with
    | |- context [process_batch_loop env ?b [] ?s0] =>
        destruct (process_batch_loop_spec env b [] s0) as (rs1 & s1 & E1 & H1 & Q1)
    end.
    rewrite E1. cbn [app]. cbv zeta.
    unfold sleep at 1, modify. fold (after_sleep 10 s1).
    destruct (IH (acc ++ rs1)%list (after_sleep 10 s1)) as (rs2 & s2 & E2 & H2 & Q2).
    exists (rs1 ++ rs2)%list, s2. rewrite E2. rewrite <- app_assoc.
    repeat split.
    + apply Forall2_app; assumption.
    + rewrite Q2. simpl. rewrite writes_app. simpl. rewrite app_nil_r.
      rewrite Q1. simpl. rewrite writes_app. simpl. apply app_nil_r.
Qed.

Lemma run_batches_spec cfg env files s :
  1 <= batch_size cfg ->
  exists results s',
    run_batches cfg env files s = (inr results, s') /\
    Forall2 (item_outcome env) files results /\
    writes (trace s') = writes (trace s).
Proof.
  intros Hbs. unfold run_batches.
  destruct (batch_size cfg) as [|b] eqn:Eb; [lia|].
  rewrite <- Eb.
  destruct (batch_loop_spec cfg env files (range 0 (length files) (batch_size cfg)) [] s)
    as (rs & s' & E & H & Q).
  exists rs, s'. rewrite E. simpl. repeat split; try assumption.
  rewrite batches_cover in H by lia. exact H.
Qed.

End BatchFacts.

(* ================================================================== *)
(** ** Reports: the folder loop of [main] *)
(* ================================================================== *)

Module ReportFacts.
Import Py Eff Improved Spec.
Import ItemFacts BatchFacts.

Lemma item_result_flag file_path r :
  item_result file_path r ->
  exists b, subscript r "Success" = inr (VBool b).
Proof.
  intros [(t & cs & ev & ->)|(e & el & ->)]; eexists; reflexivity.
Qed.

Lemma item_result_path file_path r :
  item_result file_path r ->
  subscript r "FilePath" = inr (VStr file_path).
Proof.
  intros [(t & cs & ev & ->)|(e & el & ->)]; reflexivity.
Qed.

Lemma count_results_spec files results :
  Forall2 item_result files results ->
  count_results truthy results
  = inr (Z.of_nat (length (filter (tagged true) results))) /\
  count_results (fun v => negb (truthy v)) results
  = inr (Z.of_nat (length (filter (tagged false) results))) /\
  (Z.of_nat (length (filter (tagged true) results))
   + Z.of_nat (length (filter (tagged false) results))
   = Z.of_nat (length files))%Z.
Proof.
  induction 1 as [|file r files results Hr _ (IH1 & IH2 & IH3)].
  - simpl. auto.
  - destruct (item_result_flag _ _ Hr) as (b & Hb).
    assert (T1 : tagged true r = b)
      by (unfold tagged; rewrite Hb; destruct b; reflexivity).
    assert (T2 : tagged false r = negb b)
      by (unfold tagged; rewrite Hb; destruct b; reflexivity).
    cbn [count_results filter]. rewrite Hb, IH1, IH2, T1, T2.
    destruct b; cbn [truthy negb length]; repeat split;
      try (f_equal; lia); lia.
Qed.

Lemma process_subdir_skips cfg env total_start subdir s :
  audio_files_of env subdir = [] ->
  process_subdir cfg env total_start subdir s = (inr tt, s).
Proof. intros H. unfold process_subdir. rewrite H. reflexivity. Qed.

(** a folder with audio files: its report is built, and written unless
    the write raises *)
Lemma process_subdir_run cfg env total_start subdir s r s' :
  1 <= batch_size cfg ->
  audio_files_of env subdir <> [] ->
  process_subdir cfg env total_start subdir s = (r, s') ->
  exists w,
    report_of env subdir (audio_files_of env subdir) w /\
    ((r = inr tt /\ writes (trace s') = (writes (trace s) ++ [w])%list)
     \/ (exists e, r = inl e /\ writes (trace s') = writes (trace s))) /\
    (reports_can_be_written env -> r = inr tt).
Proof.
  intros Hbs Hne H. unfold process_subdir in H.
  destruct (audio_files_of env subdir) as [|f files] eqn:Ef; [contradiction|].
  rewrite <- Ef in *. clear Hne.
  unfold bind at 1 in H. unfold log at 1, emit, modify in H.
  unfold bind at 1 in H.
  match type of H with
  | context [run_batches cfg env ?fs ?s0] =>
      destruct (run_batches_spec cfg env fs s0 Hbs)
        as (results & s1 & E & HF & Q)
  end.
  rewrite E in H.
  pose proof (Forall2_impl _ (item_outcome_result env) HF) as HF'.
  destruct (count_results_spec _ _ HF') as (C1 & C2 & C3).
  destruct results as [|r0 results].
  { rewrite Ef in HF. inversion HF. }
  cbv beta iota in H.
  remember (r0 :: results) as all_results eqn:Eall.
  unfold bind at 1 in H. unfold time_time, gets in H.
  unfold bind at 1 in H. unfold lift at 1 in H. rewrite C1 in H.
  unfold bind at 1 in H. unfold lift at 1 in H. rewrite C2 in H.
  assert (Hlen : length (audio_files_of env subdir) <> 0)
    by (rewrite Ef; discriminate).
  cbn [trace] in Q. rewrite writes_app in Q. cbn [writes] in Q.
  rewrite app_nil_r in Q.
  match type of H with
  | context [write_json env ?p ?d] =>
      exists (p, d); assert (Hw : forall n, json_dump env n p d = inr tt
                                  \/ exists e, json_dump env n p d = inl e)
        by (intros n; destruct (json_dump env n p d) as [e|[]]; eauto)
  end.
  split.
  { split; [reflexivity|]. cbn [snd].
    eexists _, _, all_results. split; [reflexivity|].
    repeat split; assumption. }
  unfold bind at 1 in H. unfold write_json, bind, attempt, interact in H.
  destruct (Hw (tick s1)) as [Hok|(e & Hbad)].
  - rewrite Hok in H. unfold emit, log, emit, modify in H.
    destruct (length (audio_files_of env subdir)) as [|n] eqn:El;
      [contradiction|].
    injection H as <- <-. split; [|reflexivity].
    left. split; [reflexivity|].
    cbn [trace]. rewrite !writes_app. cbn [writes]. rewrite !app_nil_r.
    rewrite Q. reflexivity.
  - rewrite Hbad in H. unfold emit, raise, modify in H. injection H as <- <-.
    split.
    + right. exists e. split; [reflexivity|].
      cbn [trace]. rewrite writes_app. cbn [writes]. rewrite app_nil_r.
      exact Q.
    + intros Hcan. rewrite Hcan in Hbad. discriminate.
Qed.

(** the folder loop: reports are written folder by folder until a write
    raises *)
Lemma for_each_subdir_run cfg env total_start :
  1 <= batch_size cfg ->
  forall subdirs s r s',
    for_each subdirs (process_subdir cfg env total_start) s = (r, s') ->
    exists done rest new,
      writes (trace s') = (writes (trace s) ++ new)%list /\
      filter (fun subdir =>
                match audio_files_of env subdir with
                | [] => false
                | _ => true
                end)
             subdirs
      = (done ++ rest)%list /\
      Forall2 (fun subdir => report_of env subdir (audio_files_of env subdir))
              done new /\
      (r = inr tt -> rest = []) /\
      (reports_can_be_written env -> r = inr tt).
Proof.
  intros Hbs. induction subdirs as [|subdir more IH]; intros s r s' H.
  - injection H as <- <-. exists [], [], [].
    rewrite app_nil_r. repeat split. constructor.
  - cbn [for_each filter] in *. unfold bind in H.
    destruct (audio_files_of env subdir) as [|f fs] eqn:Ef.
    + rewrite process_subdir_skips in H by exact Ef. exact (IH _ _ _ H).
    + destruct (process_subdir cfg env total_start subdir s) as [x s1] eqn:E.
      destruct (process_subdir_run cfg env total_start subdir s x s1 Hbs)
        as (w & Hw & Hcases & Hcan); [rewrite Ef; discriminate|exact E|].
      rewrite Ef in Hw.
      destruct Hcases as [(-> & Q)|(e & -> & Q)].
      * destruct (IH _ _ _ H) as (done & rest & new & Q2 & Hf & R & Hr & Hc).
        exists (subdir :: done), rest, (w :: new). repeat split.
        -- rewrite Q2, Q. rewrite <- app_assoc. reflexivity.
        -- cbn [app]. rewrite Hf. reflexivity.
        -- constructor; [rewrite Ef; exact Hw|exact R].
        -- exact Hr.
        -- exact Hc.
      * injection H as <- <-. exists []. eexists. exists [].
        split; [rewrite app_nil_r; exact Q|].
        split; [reflexivity|].
        split; [constructor|].
        split; [discriminate|].
        intros Hcan'. specialize (Hcan Hcan'). discriminate.
Qed.

(** [main] writes the reports of the reported folders in order, until a
    write raises; no other step of it raises *)
Lemma main_run cfg env directory s r s' :
  1 <= batch_size cfg ->
  main cfg env directory s = (r, s') ->
  exists done rest new,
    writes (trace s') = (writes (trace s) ++ new)%list /\
    reported env directory = (done ++ rest)%list /\
    Forall2 (fun subdir => report_of env subdir (audio_files_of env subdir))
            done new /\
    (r = inr tt -> rest = []) /\
    (reports_can_be_written env -> r = inr tt).
Proof.
  intros Hbs H. unfold main, reported in *.
  unfold bind at 1 in H. unfold time_time at 1, gets in H.
  destruct (subdirs_of env directory) as [|d ds] eqn:Ed.
  - injection H as <- <-. exists [], [], []. repeat split.
    + cbn [trace]. rewrite writes_app. reflexivity.
    + constructor.
  - rewrite <- Ed in *. unfold bind at 1 in H.
    destruct (for_each (subdirs_of env directory)
                (process_subdir cfg env (now s)) s) as [x s1] eqn:E.
    destruct (for_each_subdir_run cfg env (now s) Hbs _ _ _ _ E)
      as (done & rest & new & Q & Hf & R & Hr & Hc).
    exists done, rest, new.
    destruct x as [e|[]].
    + injection H as <- <-. repeat split; try assumption.
    + unfold bind, time_time, gets, log, emit, modify in H.
      injection H as <- <-. repeat split; try assumption; try reflexivity.
      cbn [trace]. rewrite !writes_app. cbn [writes]. rewrite !app_nil_r.
      exact Q.
Qed.

(** when the writes go through, [main] returns, and writes one report per
    reported folder, in order *)
Lemma main_spec cfg env directory s :
  1 <= batch_size cfg ->
  reports_can_be_written env ->
  exists s' new,
    main cfg env directory s = (inr tt, s') /\
    writes (trace s') = (writes (trace s) ++ new)%list /\
    Forall2 (fun subdir => report_of env subdir (audio_files_of env subdir))
            (reported env directory) new.
Proof.
  intros Hbs Hcan.
  destruct (main cfg env directory s) as [r s'] eqn:E.
  destruct (main_run cfg env directory s r s' Hbs E)
    as (done & rest & new & Q & Hf & R & Hr & Hc).
  specialize (Hc Hcan). subst r. specialize (Hr eq_refl). subst rest.
  rewrite app_nil_r in Hf. rewrite Hf.
  exists s', new. repeat split; assumption.
Qed.

End ReportFacts.

(* ================================================================== *)
(** ** recentAsPerHuzaifa-upgraded.py *)
(* ================================================================== *)

Module SharedListFacts.
Import Py Eff Huzaifa Spec DictFacts ListFacts.

Lemma success_item_path f p d :
  subscript (success_item f p d) "FilePath" = inr (VStr p).
Proof.
  unfold success_item, subscript.
  rewrite dict_get_set_other by discriminate.
  rewrite dict_get_set_other by discriminate.
  rewrite dict_get_set_same. reflexivity.
Qed.

Lemma success_item_flag f p d :
  subscript (success_item f p d) "Success" = inr (VBool true).
Proof.
  unfold success_item, subscript.
  rewrite dict_get_set_other by discriminate.
  rewrite dict_get_set_same. reflexivity.
Qed.

(** once the upload has returned a handle, [process_single_audio] does not
    raise *)
Lemma process_single_audio_uploaded env audio_path which s audio_file :
  upload_file env (tick s) audio_path = inr (Some audio_file) ->
  exists s',
    process_single_audio env audio_path which s = (inr tt, s') /\
    ((exists item,
         output_json s' = (output_json s ++ [item])%list /\
         subscript item "Success" = inr (VBool true) /\
         subscript item "FilePath" = inr (VStr audio_path))
     \/ (output_json s' = output_json s /\
         failed_list which s' = (failed_list which s ++ [audio_path])%list)).
Proof.
  intros Hup.
  unfold process_single_audio, bind, attempt, interact. rewrite Hup.
  unfold process_uploaded, bind, interact. cbn [tick output_json failed_files final_failed_files written].
  destruct (generate_content env (S (tick s)) audio_file) as [e|[|msg|v]].
  - eexists. split; [reflexivity|]. right. destruct which; split; reflexivity.
  - eexists. split; [reflexivity|]. right. destruct which; split; reflexivity.
  - eexists. split; [reflexivity|]. right. destruct which; split; reflexivity.
  - destruct v as [| | | | |l|d];
      try (eexists; split; [reflexivity|]; right; destruct which; split; reflexivity).
    cbn [set_item lift]. unfold append_output, modify.
    cbn [tick output_json failed_files final_failed_files written].
    fold (success_item audio_file audio_path d).
    destruct (delete_file env (S (S (tick s))) (name audio_file)) as [e|[]].
    + eexists. split; [reflexivity|]. left. eexists. split.
      * destruct which; reflexivity.
      * split; [apply success_item_flag|apply success_item_path].
    + eexists. split; [reflexivity|]. left. eexists. split; [reflexivity|].
      split; [apply success_item_flag|apply success_item_path].
Qed.

Lemma process_single_audio_served env audio_path which s :
  always_serves env ->
  exists item,
    process_single_audio env audio_path which s
    = (inr tt, mkState (3 + tick s) (output_json s ++ [item]) (failed_files s)
                       (final_failed_files s) (written s)) /\
    subscript item "Success" = inr (VBool true) /\
    subscript item "FilePath" = inr (VStr audio_path).
Proof.
  intros (Hup & Hgen & Hdel).
  destruct (Hup (tick s) audio_path) as (f & Ef).
  destruct (Hgen (S (tick s)) f) as (d & Ed).
  exists (success_item f audio_path d). split.
  - unfold process_single_audio, bind, attempt, interact. rewrite Ef.
    unfold process_uploaded, bind, interact.
    cbn [tick output_json failed_files final_failed_files written].
    rewrite Ed. cbn [set_item lift]. unfold append_output, modify.
    cbn [tick output_json failed_files final_failed_files written].
    rewrite Hdel. reflexivity.
  - split; [apply success_item_flag|apply success_item_path].
Qed.

Lemma gather_served env :
  always_serves env ->
  forall batch s,
  exists items s',
    gather (map (fun audio => process_single_audio env audio TheFailedFiles) batch) s
    = (inr tt, s') /\
    output_json s' = (output_json s ++ items)%list /\
    failed_files s' = failed_files s /\
    records_for batch items.
Proof.
  intros Hs. induction batch as [|p batch IH]; intros s.
  - exists [], s. simpl. rewrite app_nil_r. repeat split. constructor.
  - cbn [map gather]. unfold bind, attempt.
    destruct (process_single_audio_served env p TheFailedFiles s Hs)
      as (item & E & Hf & Hp).
    rewrite E.
    match goal with
    | |- context [gather _ ?s1] => destruct (IH s1) as (items & s' & E' & Ho & Hfl & Hr)
    end.
    rewrite E'. cbn [lift].
    exists (item :: items), s'. split; [reflexivity|].
    rewrite Ho, Hfl. cbn [output_json failed_files]. rewrite <- app_assoc.
    repeat split. constructor; [split; assumption|exact Hr].
Qed.

Lemma batches_served env audio_paths bs :
  always_serves env ->
  forall starts s,
  exists items s',
    for_each starts
      (fun i =>
         gather (map (fun audio => process_single_audio env audio TheFailedFiles)
                     (slice audio_paths i (i + bs)))) s
    = (inr tt, s') /\
    output_json s' = (output_json s ++ items)%list /\
    failed_files s' = failed_files s /\
    records_for (concat (map (fun i => slice audio_paths i (i + bs)) starts)) items.
Proof.
  intros Hs. induction starts as [|i starts IH]; intros s.
  - exists [], s. simpl. rewrite app_nil_r. repeat split. constructor.
  - cbn [for_each map concat]. unfold bind.
    destruct (gather_served env Hs (slice audio_paths i (i + bs)) s)
      as (items1 & s1 & E1 & O1 & F1 & R1).
    rewrite E1. destruct (IH s1) as (items2 & s2 & E2 & O2 & F2 & R2).
    exists (items1 ++ items2)%list, s2. split; [exact E2|].
    rewrite O2, O1, F2, F1, <- app_assoc. repeat split.
    apply Forall2_app; assumption.
Qed.


Lemma process_audio_files_served env audio_paths bs s :
  always_serves env ->
  1 <= bs ->
  failed_files s = [] ->
  exists items s',
    process_audio_files env audio_paths bs s = (inr tt, s') /\
    output_json s' = (output_json s ++ items)%list /\
    failed_files s' = [] /\
    records_for audio_paths items.
Proof.
  intros Hs Hbs Hf. unfold process_audio_files.
  destruct bs as [|b]; [lia|].
  destruct (batches_served env audio_paths (S b) Hs
              (range 0 (length audio_paths) (S b)) s)
    as (items & s' & E & Ho & Hfl & Hr).
  unfold bind. rewrite E. unfold gets. rewrite Hfl, Hf.
  exists items, s'. repeat split; try assumption.
  - congruence.
  - rewrite batches_cover in Hr by lia. exact Hr.
Qed.

Lemma add_item_keys folder_data k item x :
  In x (map fst (add_item folder_data k item)) ->
  x = k \/ In x (map fst folder_data).
Proof.
  induction folder_data as [|[k0 items] rest IH]; simpl.
  - intros [<-|[]]. left. reflexivity.
  - destruct (k0 =? k) eqn:E; simpl.
    + intros H. right. exact H.
    + intros [<-|H]; [right; left; reflexivity|].
      destruct (IH H) as [->|H']; [left; reflexivity|right; right; exact H'].
Qed.

Lemma add_item_NoDup folder_data k item :
  NoDup (map fst folder_data) -> NoDup (map fst (add_item folder_data k item)).
Proof.
  induction folder_data as [|[k0 items] rest IH]; simpl; intros H.
  - constructor; [intros []|constructor].
  - destruct (k0 =? k) eqn:E; simpl.
    + exact H.
    + inversion H as [|? ? Hnot Hrest]; subst. constructor.
      * intros Hin. apply add_item_keys in Hin. destruct Hin as [->|Hin].
        -- rewrite String.eqb_refl in E. discriminate.
        -- contradiction.
      * apply IH. exact Hrest.
Qed.

Lemma organize_step_NoDup folder_data item :
  NoDup (map fst folder_data) ->
  NoDup (map fst (organize_step folder_data item)).
Proof.
  intros H. unfold organize_step.
  destruct item as [| | | | | |d]; try exact H.
  destruct (dict_has d "FilePath"); [|exact H].
  destruct (dict_get d "FilePath") as [[| | | |p| |]|]; try exact H.
  destruct (2 <=? _)%nat; [|exact H].
  destruct (3 <=? _)%nat; [|exact H].
  apply add_item_NoDup. exact H.
Qed.

Lemma organize_NoDup items :
  NoDup (map fst (organize_output_by_folders items)).
Proof.
  unfold organize_output_by_folders.
  assert (G : forall acc, NoDup (map fst acc) ->
                          NoDup (map fst (fold_left organize_step items acc))).
  { induction items as [|item items IH]; intros acc H; simpl; [exact H|].
    apply IH. apply organize_step_NoDup. exact H. }
  apply G. constructor.
Qed.



(** the writes of [save_output], in order, until one raises *)
Lemma write_each_run env (docs : list (string * list Value)) :
  forall s r s',
    for_each docs
      (fun entry =>
         write_json env (report_path (fst entry)) (VList (snd entry))) s
    = (r, s') ->
    exists done rest,
      docs = (done ++ rest)%list /\
      written s'
      = (written s
         ++ map (fun entry => (report_path (fst entry), VList (snd entry)))
                done)%list /\
      output_json s' = output_json s /\
      (r = inr tt -> rest = []) /\
      (output_can_be_written env -> r = inr tt).
Proof.
  induction docs as [|entry docs IH]; intros s r s' H.
  - injection H as <- <-. exists [], []. cbn [map].
    repeat split. symmetry. apply app_nil_r.
  - cbn [for_each] in H. unfold bind at 1 in H.
    unfold write_json, bind, interact, modify in H.
    cbn [tick output_json failed_files final_failed_files written] in H.
    destruct (json_dump env (tick s) (report_path (fst entry))
                (VList (snd entry))) as [e|[]] eqn:Ed.
    + injection H as <- <-. exists [], (entry :: docs). cbn [map].
      repeat split.
      * symmetry. apply app_nil_r.
      * discriminate.
      * intros Hcan. rewrite Hcan in Ed. discriminate.
    + destruct (IH _ _ _ H) as (done & rest & -> & W & O & Hr & Hc).
      exists (entry :: done), rest.
      cbn [tick output_json failed_files final_failed_files written] in *.
      repeat split; try assumption.
      rewrite W. cbn [map]. rewrite <- app_assoc. reflexivity.
Qed.


End SharedListFacts.

(* ================================================================== *)
(** ** process-audio-transcribe.py *)
(* ================================================================== *)

Module SingleFileFacts.
Import Py Eff Transcribe.

(** the template cannot be formatted: [str.format] stops at the single
    closing brace of line 68, whatever the transcript *)
Lemma template_is_unbalanced transcript :
  format QA_PROMPT_TEMPLATE transcript
  = inl (ValueError "Single '}' encountered in format string").
Proof. vm_compute. reflexivity. Qed.

(** so [analyze_transcript] raises before it calls the model *)
Lemma analyze_transcript_raises env transcript s :
  analyze_transcript env transcript s
  = (inl (ValueError "Single '}' encountered in format string"),
     mkState (tick s) (now s)
       (trace s
        ++ [StartingAnalysis;
            ErrorDuringAnalysis "Single '}' encountered in format string"])).
Proof.
  unfold analyze_transcript, bind, try_except, log, modify, lift, raise.
  rewrite template_is_unbalanced. cbn [tick now trace exn_str ValueError].
  rewrite <- app_assoc. reflexivity.
Qed.

(** and [process_file] ends in its handler: with the exception of the
    transcription, or with that of the template *)
Lemma process_file_result env file_path s :
  exists e s' tr,
    process_file env file_path s = (inr (failure_result file_path e), s') /\
    trace s' = (tr ++ [ErrorProcessing file_path (now s' - now s)])%list /\
    ((exists s0 s1, transcribe_audio env file_path s0 = (inl e, s1))
     \/ e = ValueError "Single '}' encountered in format string").
Proof.
  unfold process_file, bind at 1, time_time at 1, gets.
  unfold bind at 1, log at 1, modify. unfold try_except. unfold bind at 1.
  match goal with
  | |- context [transcribe_audio env file_path ?s0] =>
      destruct (transcribe_audio env file_path s0) as [[e|t] s1] eqn:E
  end.
  - unfold bind, time_time, gets, log, modify, ret. cbn [now tick trace].
    eexists e, _, _. split; [reflexivity|]. cbn [now trace].
    split; [reflexivity|]. left. eauto.
  - unfold bind at 1. rewrite analyze_transcript_raises.
    unfold bind, time_time, gets, log, modify, ret. cbn [now tick trace].
    eexists _, _, _. split; [reflexivity|]. cbn [now trace].
    split; [reflexivity|]. right. reflexivity.
Qed.

End SingleFileFacts.

(* ================================================================== *)
(** ** The claims *)
(* ================================================================== *)

Module Claims.
Import Py Eff Spec Scenarios.
Import ListFacts DictFacts RetryFacts ItemFacts BatchFacts ReportFacts
  SharedListFacts SingleFileFacts.

(** C1 (as amended).  [process_file] of ImprovedVersionFinal.py returns a
    result for every path and never raises: whatever the [try] block
    (transcription, analysis and result assembly, retries included) raises
    becomes a [Success = False] result carrying the text of the exception;
    in particular, when all three transcription attempts fail, the result
    carries the exception of the third.
    [process_single_audio] of recentAsPerHuzaifa-upgraded.py returns no
    result value; once the upload has returned a file handle it ends
    without raising, and either appends a [Success = True] record to
    [output_json] or leaves [output_json] alone and appends the path to its
    list of failed files. *)
Theorem failures_stay_inside_the_item :
  (forall (env : Improved.Env) file_path s,
      exists result s',
        Improved.process_file env file_path s = (inr result, s') /\
        match Improved.pipeline env file_path (entered file_path s) with
        | (inr r, _) =>
            result = r /\ subscript result "Success" = inr (VBool true)
        | (inl e, s1) =>
            result = Improved.failure_result file_path e
                       (Improved.now s1 - Improved.now s)
        end)
  /\
  (forall (env : Improved.Env) file_path s,
      (forall k,
          k < Improved.max_attempts ->
          failed (attempt_outcome (Improved.transcribe_audio_body env file_path)
                    (entered file_path s) k)) ->
      exists e s1,
        attempt_outcome (Improved.transcribe_audio_body env file_path)
          (entered file_path s) (Improved.max_attempts - 1) = (inl e, s1) /\
        fst (Improved.process_file env file_path s)
        = inr (Improved.failure_result file_path e
                 (Improved.now s1 - Improved.now s)))
  /\
  (forall (env : Huzaifa.Env) audio_path which s audio_file,
      Huzaifa.upload_file env (Huzaifa.tick s) audio_path
      = inr (Some audio_file) ->
      exists s',
        Huzaifa.process_single_audio env audio_path which s = (inr tt, s') /\
        ((exists item,
             Huzaifa.output_json s' = (Huzaifa.output_json s ++ [item])%list /\
             subscript item "Success" = inr (VBool true) /\
             subscript item "FilePath" = inr (VStr audio_path))
         \/ (Huzaifa.output_json s' = Huzaifa.output_json s /\
             failed_list which s'
             = (failed_list which s ++ [audio_path])%list))).
Proof.
  split; [|split].
  - intros env file_path s. rewrite process_file_run.
    destruct (Improved.pipeline env file_path (entered file_path s))
      as [[e|r] s1] eqn:E.
    + eexists _, _. split; reflexivity.
    + exists r, s1. split; [reflexivity|]. split; [reflexivity|].
      apply pipeline_returns_inv in E.
      destruct E as (t & qa & cs & ev & s2 & s3 & _ & _ & _ & _ & -> & _).
      reflexivity.
  - intros env file_path s Hall.
    exact (transcription_exhausted env file_path s Hall).
  - intros env audio_path which s audio_file Hup.
    exact (process_single_audio_uploaded env audio_path which s audio_file Hup).
Qed.

Lemma failures_stay_inside_the_item_witness :
  (exists e s1,
      attempt_outcome
        (Improved.transcribe_audio_body outage "AudioFiles/a/x.wav")
        (entered "AudioFiles/a/x.wav" fresh) (Improved.max_attempts - 1)
      = (inl e, s1) /\
      fst (Improved.process_file outage "AudioFiles/a/x.wav" fresh)
      = inr (Improved.failure_result "AudioFiles/a/x.wav" e
               (Improved.now s1 - Improved.now fresh)))
  /\
  (exists s',
      Huzaifa.process_single_audio only_bad_replies "test/f1/a.wav"
        Huzaifa.TheFailedFiles Huzaifa.initial = (inr tt, s') /\
      ((exists item,
           Huzaifa.output_json s'
           = (Huzaifa.output_json Huzaifa.initial ++ [item])%list /\
           subscript item "Success" = inr (VBool true) /\
           subscript item "FilePath" = inr (VStr "test/f1/a.wav"))
       \/ (Huzaifa.output_json s' = Huzaifa.output_json Huzaifa.initial /\
           failed_list Huzaifa.TheFailedFiles s'
           = (failed_list Huzaifa.TheFailedFiles Huzaifa.initial
              ++ ["test/f1/a.wav"])%list))).
Proof.
  split.
  - apply (proj1 (proj2 failures_stay_inside_the_item) outage
             "AudioFiles/a/x.wav" fresh).
    intros k Hk. unfold Improved.max_attempts in Hk.
    destruct k as [|[|[|k]]]; [| | |lia]; eexists _, _; vm_compute; reflexivity.
  - exact (proj2 (proj2 failures_stay_inside_the_item) only_bad_replies
             "test/f1/a.wav" Huzaifa.TheFailedFiles Huzaifa.initial
             (Huzaifa.mkFile "files/a.wav" "a.wav") eq_refl).
Defined.

(** C1, counterexample.  A reply that is not valid JSON: the upload works,
    [process_single_audio] returns [None], nothing is appended to
    [output_json], and the only record of the failure is the path in
    [failed_files]. *)
Lemma json_failure_leaves_no_record :
  Huzaifa.process_single_audio only_bad_replies "test/f1/a.wav"
    Huzaifa.TheFailedFiles Huzaifa.initial
  = (inr tt, Huzaifa.mkState 2 [] ["test/f1/a.wav"] [] []).
Proof. vm_compute. reflexivity. Qed.

(** C2 (as amended).  The scheduler of ImprovedVersionFinal.py
    ([process_batch], and the batch loop of [main] for any batch size of at
    least one) returns exactly one result per input file, in input order,
    within and across batches.  [process_audio_files] of
    recentAsPerHuzaifa-upgraded.py does so when every file is processed
    successfully on the first pass. *)
Theorem results_follow_input_order :
  (forall (env : Improved.Env) files s,
      exists results s',
        Improved.process_batch env files s = (inr results, s') /\
        length results = length files /\
        paths_of results = map (fun f => inr (VStr f)) files)
  /\
  (forall cfg (env : Improved.Env) files s,
      1 <= Improved.batch_size cfg ->
      exists results s',
        Improved.run_batches cfg env files s = (inr results, s') /\
        length results = length files /\
        paths_of results = map (fun f => inr (VStr f)) files)
  /\
  (forall (env : Huzaifa.Env) audio_paths batch_size s,
      always_serves env ->
      1 <= batch_size ->
      Huzaifa.failed_files s = [] ->
      exists items s',
        Huzaifa.process_audio_files env audio_paths batch_size s
        = (inr tt, s') /\
        Huzaifa.output_json s' = (Huzaifa.output_json s ++ items)%list /\
        length items = length audio_paths /\
        paths_of items = map (fun f => inr (VStr f)) audio_paths).
Proof.
  assert (P : forall files results,
             Forall2 item_result files results ->
             length results = length files /\
             paths_of results = map (fun f => inr (VStr f)) files).
  { induction 1 as [|f r files results Hr _ (IH1 & IH2)]; [split; reflexivity|].
    split; [simpl; congruence|].
    unfold paths_of in *. cbn [map]. rewrite IH2.
    rewrite (item_result_path _ _ Hr). reflexivity. }
  split; [|split].
  - intros env files s.
    destruct (process_batch_loop_spec env files [] s) as (rs & s' & E & HF & _).
    exists rs, s'. split; [exact E|]. apply P.
    exact (Forall2_impl _ (item_outcome_result env) HF).
  - intros cfg env files s Hbs.
    destruct (run_batches_spec cfg env files s Hbs) as (rs & s' & E & HF & _).
    exists rs, s'. split; [exact E|]. apply P.
    exact (Forall2_impl _ (item_outcome_result env) HF).
  - intros env audio_paths bs s Hs Hbs Hf.
    destruct (process_audio_files_served env audio_paths bs s Hs Hbs Hf)
      as (items & s' & E & Ho & _ & Hr).
    exists items, s'. split; [exact E|]. split; [exact Ho|].
    clear E Ho. induction Hr as [|p item ps items (Hp & _) _ (IH1 & IH2)];
      [split; reflexivity|].
    split; [simpl; congruence|].
    unfold paths_of in *. cbn [map]. rewrite IH2, Hp. reflexivity.
Qed.

Lemma served_always_serves : always_serves served.
Proof.
  repeat split.
  - intros n p. eexists. reflexivity.
  - intros n f. eexists. reflexivity.
Defined.

Lemma results_follow_input_order_witness :
  (exists results s',
      Improved.run_batches Improved.load_config healthy
        ["AudioFiles/a/x.wav"; "AudioFiles/a/y.MP3"] fresh
      = (inr results, s') /\
      length results = 2 /\
      paths_of results
      = [inr (VStr "AudioFiles/a/x.wav"); inr (VStr "AudioFiles/a/y.MP3")])
  /\
  (exists items s',
      Huzaifa.process_audio_files served ["test/f1/a.wav"; "test/f1/b.wav"]
        10 Huzaifa.initial = (inr tt, s') /\
      Huzaifa.output_json s' = items /\
      length items = 2 /\
      paths_of items
      = [inr (VStr "test/f1/a.wav"); inr (VStr "test/f1/b.wav")]).
Proof.
  split.
  - apply (proj1 (proj2 results_follow_input_order) Improved.load_config healthy
             ["AudioFiles/a/x.wav"; "AudioFiles/a/y.MP3"] fresh).
    simpl. lia.
  - apply (proj2 (proj2 results_follow_input_order) served
             ["test/f1/a.wav"; "test/f1/b.wav"] 10 Huzaifa.initial).
    + exact served_always_serves.
    + lia.
    + reflexivity.
Defined.

(** C2, counterexample.  Two files, the first reply is not valid JSON: the
    first file is retried after the second one has been recorded, so
    [output_json] lists them in the opposite order of the input. *)
Lemma retried_file_moves_to_the_end :
  exists s',
    Huzaifa.process_audio_files one_bad_reply
      ["test/f1/a.wav"; "test/f1/b.wav"] 10 Huzaifa.initial = (inr tt, s') /\
    paths_of (Huzaifa.output_json s')
    = [inr (VStr "test/f1/b.wav"); inr (VStr "test/f1/a.wav")].
Proof. eexists. split; vm_compute; reflexivity. Qed.


(** with a batch size of zero [main] stops at the first folder that has
    audio files, before any report *)
Lemma main_without_batches cfg env directory :
  Improved.batch_size cfg = 0 -> quiet (Improved.main cfg env directory).
Proof.
  intros Hz.
  assert (Hsub : forall t0 subdir, quiet (Improved.process_subdir cfg env t0 subdir)).
  { intros t0 subdir s r s' H. unfold Improved.process_subdir in H.
    destruct (Improved.audio_files_of env subdir) as [|f fs].
    - injection H as _ <-. reflexivity.
    - unfold bind, Improved.log, Improved.emit, modify, Improved.run_batches in H.
      rewrite Hz in H. unfold raise in H. injection H as _ <-.
      cbn [Improved.trace]. rewrite writes_app. apply app_nil_r. }
  assert (Hloop : forall t0 subdirs,
             quiet (for_each subdirs (Improved.process_subdir cfg env t0))).
  { intros t0. induction subdirs as [|d ds IH]; cbn [for_each].
    - apply quiet_ret.
    - apply quiet_bind; [apply Hsub|intros _; exact IH]. }
  unfold Improved.main. apply quiet_bind; [apply quiet_time_time|intros t0].
  destruct (Improved.subdirs_of env directory) as [|d ds].
  - apply quiet_log.
  - apply quiet_bind; [apply Hloop|intros _].
    apply quiet_bind; [apply quiet_time_time|intros t].
    apply quiet_bind; [apply quiet_log|intros _]. apply quiet_log.
Qed.

(** C3.  Every report [main] of ImprovedVersionFinal.py writes has
    [SuccessfulFiles + FailedFiles = TotalFiles], the two counters being
    the numbers of results with and without the [Success] flag, and
    [TotalFiles] the number of audio files listed in the folder the report
    is named after. *)
Theorem report_counts_add_up cfg (env : Improved.Env) directory s :
  exists new,
    writes (Improved.trace (snd (Improved.main cfg env directory s)))
    = (writes (Improved.trace s) ++ new)%list /\
    Forall (fun w =>
              exists subdir total ok failed results,
                In subdir (Improved.subdirs_of env directory) /\
                fst w = Improved.output_path subdir /\
                subscript (snd w) "TotalFiles" = inr (VInt total) /\
                subscript (snd w) "SuccessfulFiles" = inr (VInt ok) /\
                subscript (snd w) "FailedFiles" = inr (VInt failed) /\
                subscript (snd w) "Results" = inr (VList results) /\
                total = Z.of_nat (length (Improved.audio_files_of env subdir)) /\
                ok = Z.of_nat (length (filter (tagged true) results)) /\
                failed = Z.of_nat (length (filter (tagged false) results)) /\
                (ok + failed = total)%Z)
           new.
Proof.
  destruct (Improved.batch_size cfg) as [|b] eqn:Eb.
  - exists []. split; [|constructor]. rewrite app_nil_r.
    destruct (Improved.main cfg env directory s) as [r s'] eqn:E.
    exact (main_without_batches cfg env directory Eb s r s' E).
  - destruct (Improved.main cfg env directory s) as [r s'] eqn:E.
    destruct (main_run cfg env directory s r s' ltac:(lia) E)
      as (done & rest & new & Q & Hf & R & _ & _).
    exists new. cbn [snd]. split; [exact Q|].
    apply Forall2_witness_r in R. eapply Forall_impl; [|exact R].
    intros [path doc] (subdir & Hin & Hpath & ok & failed & results & Hdoc & _ & Hok & Hfailed & Hsum).
    cbn [fst snd] in *. subst doc.
    exists subdir, (Z.of_nat (length (Improved.audio_files_of env subdir))),
      ok, failed, results.
    assert (Hrep : In subdir (reported env directory))
      by (rewrite Hf; apply in_or_app; left; exact Hin).
    unfold reported in Hrep. apply filter_In in Hrep.
    destruct Hrep as (Hrep & _).
    repeat split; assumption.
Qed.

(** C4.  Under the retry wrapper of [transcribe_audio] and
    [analyze_transcript], an operation that logs its entry line once per
    invocation (both decorated bodies do) and fails on every attempt is
    invoked exactly [max_attempts] = 3 times, and the wrapper ends as the
    third attempt ended, raising its exception unchanged; an operation that
    first succeeds on attempt [k + 1 <= max_attempts] is invoked exactly
    [k + 1] times and its value is returned. *)
Theorem retry_attempts {A} (op : M Improved.State A)
  (entry : Improved.LogRecord) (s : Improved.State) :
  logs_entry_once entry op ->
  ((forall k, k < Improved.max_attempts -> failed (attempt_outcome op s k)) ->
     Improved.retry op s = attempt_outcome op s (Improved.max_attempts - 1) /\
     invocations entry s (snd (Improved.retry op s)) = Improved.max_attempts)
  /\
  (forall k a s',
     k < Improved.max_attempts ->
     (forall j, j < k -> failed (attempt_outcome op s j)) ->
     attempt_outcome op s k = (inr a, s') ->
     Improved.retry op s = (inr a, s') /\ invocations entry s s' = S k).
Proof.
  intros Hlog. split.
  - intros Hall. apply retry_exhausts; assumption.
  - intros k a s' Hk Hfail Hok. apply retry_succeeds; assumption.
Qed.

Lemma retry_attempts_witness :
  (Improved.retry (Improved.transcribe_audio_body outage "AudioFiles/a/x.wav")
     fresh
   = attempt_outcome
       (Improved.transcribe_audio_body outage "AudioFiles/a/x.wav") fresh 2 /\
   invocations (Improved.StartingTranscription "AudioFiles/a/x.wav") fresh
     (snd (Improved.retry
             (Improved.transcribe_audio_body outage "AudioFiles/a/x.wav")
             fresh)) = 3)
  /\
  (exists s',
      Improved.retry (Improved.transcribe_audio_body flaky "AudioFiles/a/x.wav")
        fresh = (inr "Hello.", s') /\
      invocations (Improved.StartingTranscription "AudioFiles/a/x.wav") fresh s'
      = 2).
Proof.
  split.
  - apply (proj1 (retry_attempts
                    (Improved.transcribe_audio_body outage "AudioFiles/a/x.wav")
                    (Improved.StartingTranscription "AudioFiles/a/x.wav") fresh
                    (transcribe_audio_body_logs_entry_once outage
                       "AudioFiles/a/x.wav"))).
    intros k Hk. unfold Improved.max_attempts in Hk.
    destruct k as [|[|[|k]]]; [| | |lia]; eexists _, _; vm_compute; reflexivity.
  - eexists.
    apply (proj2 (retry_attempts
                    (Improved.transcribe_audio_body flaky "AudioFiles/a/x.wav")
                    (Improved.StartingTranscription "AudioFiles/a/x.wav") fresh
                    (transcribe_audio_body_logs_entry_once flaky
                       "AudioFiles/a/x.wav")) 1).
    + unfold Improved.max_attempts. lia.
    + intros j Hj. destruct j as [|j]; [|lia]. eexists _, _. vm_compute. reflexivity.
    + vm_compute. reflexivity.
Defined.


(** C5 (as amended).  A [Success = True] result of [process_file] carries
    what the replies held and nothing is checked for emptiness:
    [Transcription] is the stripped text of a transcription reply, the empty
    string when the reply had no text, and [CallSummary] and
    [QA_Evaluation] are the values stored under [call_summary] and
    [qa_evaluation] in the JSON value of an analysis reply.  A
    transcription reply without text is not a failure of the stage:
    [transcribe_audio] returns the empty transcript. *)
Theorem success_carries_replies :
  (forall (env : Improved.Env) file_path s result s',
      Improved.process_file env file_path s = (inr result, s') ->
      subscript result "Success" = inr (VBool true) ->
      exists n audio_data text m reply call_summary qa_evaluation,
        Improved.transcription_reply env n audio_data
          (Improved.mime_type file_path) = inr text /\
        Improved.analysis_reply env m
          (strip (match text with Some t => t | None => "" end))
        = inr (Improved.Json reply) /\
        subscript reply "call_summary" = inr call_summary /\
        subscript reply "qa_evaluation" = inr qa_evaluation /\
        result = Improved.success_result file_path
                   (strip (match text with Some t => t | None => "" end))
                   call_summary qa_evaluation)
  /\
  (forall (env : Improved.Env) file_path s audio_data,
      Improved.open_read env (Improved.tick s) file_path = inr audio_data ->
      Improved.transcription_reply env (S (Improved.tick s)) audio_data
        (Improved.mime_type file_path) = inr None ->
      exists s', Improved.transcribe_audio env file_path s = (inr "", s')).
Proof.
  split.
  - intros env file_path s result s' H Hs.
    exact (success_result_inv env file_path s result s' H Hs).
  - intros env file_path s audio_data Hread Hreply.
    exact (transcribe_audio_first_reply env file_path s audio_data None
             Hread Hreply).
Qed.

Lemma success_carries_replies_witness :
  (exists n audio_data text m reply call_summary qa_evaluation,
      Improved.transcription_reply healthy n audio_data
        (Improved.mime_type "AudioFiles/a/x.wav") = inr text /\
      Improved.analysis_reply healthy m
        (strip (match text with Some t => t | None => "" end))
      = inr (Improved.Json reply) /\
      subscript reply "call_summary" = inr call_summary /\
      subscript reply "qa_evaluation" = inr qa_evaluation /\
      Improved.success_result "AudioFiles/a/x.wav"
        "Hello, this is the front desk."
        (VStr "Caller asked about an open claim.")
        (VList [ VDict [ ("criterion", VStr "Friendly opening?");
                         ("score", VStr "Yes");
                         ("justification", VStr "Greeted by name.") ] ])
      = Improved.success_result "AudioFiles/a/x.wav"
          (strip (match text with Some t => t | None => "" end))
          call_summary qa_evaluation)
  /\
  (exists s',
      Improved.transcribe_audio empty_replies "AudioFiles/a/x.wav" fresh
      = (inr "", s')).
Proof.
  split.
  - apply (proj1 success_carries_replies healthy "AudioFiles/a/x.wav" fresh
             _ (snd (Improved.process_file healthy "AudioFiles/a/x.wav" fresh))).
    + vm_compute. reflexivity.
    + vm_compute. reflexivity.
  - apply (proj2 success_carries_replies empty_replies "AudioFiles/a/x.wav"
             fresh "RIFF"); reflexivity.
Defined.

(** C5, counterexample.  The transcription reply has no text and the
    analysis returns an empty summary and an empty evaluation list: the
    result is tagged [Success = True] with an empty transcript, an empty
    summary and an empty evaluation. *)
Lemma empty_transcript_succeeds :
  fst (Improved.process_file empty_replies "AudioFiles/a/x.wav" fresh)
  = inr (Improved.success_result "AudioFiles/a/x.wav" "" (VStr "") (VList [])).
Proof. vm_compute. reflexivity. Qed.

(** C6 (as amended).  For any batch size of at least one, and as long as
    the report writes go through, [main] of ImprovedVersionFinal.py runs to
    its end and, for every folder found by the walk whose listing holds an
    audio file, writes a report whose [Results] hold one entry per listed
    audio file, in order: the result the [try] block of [process_file]
    returned for it, or a [Success = False] result whose [Error] is the
    text of the exception that block raised.  This holds whatever fails in
    the items. *)
Theorem every_folder_is_reported cfg (env : Improved.Env) directory s :
  1 <= Improved.batch_size cfg ->
  reports_can_be_written env ->
  exists s' new,
    Improved.main cfg env directory s = (inr tt, s') /\
    writes (Improved.trace s')
    = (writes (Improved.trace s) ++ new)%list /\
    forall subdir,
      In subdir (Improved.subdirs_of env directory) ->
      Improved.audio_files_of env subdir <> [] ->
      exists doc results,
        In (Improved.output_path subdir, doc) new /\
        subscript doc "Results" = inr (VList results) /\
        Forall2 (item_outcome env) (Improved.audio_files_of env subdir)
                results.
Proof.
  intros Hbs Hcan.
  destruct (main_spec cfg env directory s Hbs Hcan) as (s' & new & E & Q & R).
  exists s', new. split; [exact E|]. split; [exact Q|].
  intros subdir Hin Hne.
  assert (Hrep : In subdir (reported env directory)).
  { unfold reported. apply filter_In. split; [exact Hin|].
    destruct (Improved.audio_files_of env subdir); [contradiction|reflexivity]. }
  destruct (Forall2_witness_l _ _ _ _ R Hrep)
    as ([path doc] & Hw & Hpath & ok & failed & results & Hdoc & HF & _).
  cbn [fst snd] in *. subst path doc.
  exists (Improved.summary_doc (length (Improved.audio_files_of env subdir))
            ok failed results), results.
  split; [exact Hw|]. split; [reflexivity|exact HF].
Qed.

Lemma every_folder_is_reported_witness :
  exists s' new,
    Improved.main Improved.load_config outage "AudioFiles" fresh
    = (inr tt, s') /\
    writes (Improved.trace s')
    = (writes (Improved.trace fresh) ++ new)%list /\
    forall subdir,
      In subdir (Improved.subdirs_of outage "AudioFiles") ->
      Improved.audio_files_of outage subdir <> [] ->
      exists doc results,
        In (Improved.output_path subdir, doc) new /\
        subscript doc "Results" = inr (VList results) /\
        Forall2 (item_outcome outage) (Improved.audio_files_of outage subdir)
                results.
Proof.
  apply (every_folder_is_reported Improved.load_config outage "AudioFiles" fresh).
  - simpl. lia.
  - intros n path doc. reflexivity.
Defined.

(** C6, counterexample.  In recentAsPerHuzaifa-upgraded.py a folder whose
    only file never yields valid JSON gets no report at all; and in
    ImprovedVersionFinal.py a file that fails with an exception whose text
    is empty is reported with an empty [Error]. *)
Lemma failures_can_leave_no_trace :
  (Huzaifa.fetch_audio_files only_bad_replies "test" = ["test/f1/a.wav"] /\
   exists s',
     Huzaifa.script only_bad_replies Huzaifa.initial = (inr tt, s') /\
     Huzaifa.written s' = [])
  /\
  (exists elapsed,
      writes
        (Improved.trace
           (snd (Improved.main Improved.load_config silent_outage "AudioFiles"
                   fresh)))
      = [ ("output/a.json",
           Improved.summary_doc 1 0 1
             [ Improved.failure_result "AudioFiles/a/x.wav"
                 (mkExn "TimeoutError" "") elapsed ]) ] /\
      subscript (Improved.failure_result "AudioFiles/a/x.wav"
                   (mkExn "TimeoutError" "") elapsed) "Error"
      = inr (VStr "")).
Proof.
  split.
  - split; [vm_compute; reflexivity|].
    eexists. split; vm_compute; reflexivity.
  - eexists. split; vm_compute; reflexivity.
Qed.

(** C7 (as amended).  A [Success = True] result of [process_file] of
    ImprovedVersionFinal.py records no elapsed time, which is measured and
    dropped; the elapsed time is recorded in its [Success = False] result,
    as [Timing.TotalTime].  [process_file] of process-audio-transcribe.py
    records no elapsed time in its result and only logs it; every result
    it returns has [Success = False], since its analysis stage cannot
    build the prompt. *)
Theorem elapsed_time_only_on_failure :
  (forall (env : Improved.Env) file_path s,
      exists d s',
        Improved.process_file env file_path s = (inr (VDict d), s') /\
        ((dict_get d "Success" = Some (VBool true) /\
          dict_get d "Timing" = None)
         \/ (dict_get d "Success" = Some (VBool false) /\
             dict_get d "Timing"
             = Some (VDict [ ("TotalTime",
                              VFloat (Improved.now s' - Improved.now s)) ]))))
  /\
  (forall (env : Transcribe.Env) file_path s,
      exists d s',
        Transcribe.process_file env file_path s = (inr (VDict d), s') /\
        dict_get d "Timing" = None /\
        dict_get d "Success" = Some (VBool false) /\
        exists tr,
          Transcribe.trace s'
          = (tr ++ [Transcribe.ErrorProcessing file_path
                      (Transcribe.now s' - Transcribe.now s)])%list).
Proof.
  split.
  - intros env file_path s. rewrite process_file_run.
    destruct (Improved.pipeline env file_path (entered file_path s))
      as [[e|r] s1] eqn:E.
    + eexists _, _. split; [reflexivity|]. right. split; reflexivity.
    + apply pipeline_returns_inv in E.
      destruct E as (t & qa & cs & ev & s2 & s3 & _ & _ & _ & _ & -> & _).
      eexists _, _. split; [reflexivity|]. left. split; reflexivity.
  - intros env file_path s.
    destruct (process_file_result env file_path s) as (e & s' & tr & E & Htr & _).
    eexists _, s'. split; [exact E|]. split; [reflexivity|].
    split; [reflexivity|]. exists tr. exact Htr.
Qed.

(** C7, counterexample.  Both stages succeed and the result has no entry
    in which an elapsed time could be recorded. *)
Lemma success_has_no_timing :
  exists d,
    fst (Improved.process_file healthy "AudioFiles/a/x.wav" fresh)
    = inr (VDict d) /\
    dict_get d "Success" = Some (VBool true) /\
    dict_keys d
    = ["FileName"; "FilePath"; "Success"; "Transcription"; "CallSummary";
       "QA_Evaluation"].
Proof. eexists. repeat split; vm_compute; reflexivity. Qed.


(** C8.  After failed attempt [n] of a wrapped operation, [n] below
    [max_attempts], the wrapper sleeps [wait n] seconds before the next
    attempt, where [wait n] is [min(max_wait, multiplier * 2^(n-1))]
    brought into the window from [min_wait] to [max_wait], with multiplier 1,
    [min_wait] 4 and [max_wait] 10: four seconds after each of the first
    two attempts. *)
Theorem backoff_wait {A} (op : M Improved.State A) (s : Improved.State)
  (n : nat) e s1 :
  1 <= n < Improved.max_attempts ->
  (forall j, j < n - 1 -> failed (attempt_outcome op s j)) ->
  attempt_outcome op s (n - 1) = (inl e, s1) ->
  Improved.wait n
  = clamp Improved.min_wait Improved.max_wait
      (Z.min Improved.max_wait
             (Improved.wait_multiplier * 2 ^ (Z.of_nat n - 1))) /\
  (Improved.wait_multiplier = 1 /\ Improved.min_wait = 4
   /\ Improved.max_wait = 10)%Z /\
  Improved.wait n = 4%Z /\
  Improved.retry op s
  = Improved.retry_from (Improved.max_attempts - 1 - n) (S n) op
      (after_sleep (Improved.wait n) s1).
Proof.
  intros Hn Hfail Hlast.
  destruct (retry_pauses op s n e s1 Hn Hfail Hlast) as (H1 & H2 & H3).
  split; [exact H1|]. split; [exact H2|]. split; [|exact H3].
  unfold Improved.max_attempts in Hn.
  destruct n as [|[|[|n]]]; try lia; reflexivity.
Qed.

Lemma backoff_wait_witness :
  exists e s1,
    attempt_outcome
      (Improved.transcribe_audio_body outage "AudioFiles/a/x.wav") fresh 1
    = (inl e, s1) /\
    Improved.wait 2 = 4%Z /\
    Improved.retry (Improved.transcribe_audio_body outage "AudioFiles/a/x.wav")
      fresh
    = Improved.retry_from 0 3
        (Improved.transcribe_audio_body outage "AudioFiles/a/x.wav")
        (after_sleep 4 s1).
Proof.
  eexists _, _. split; [vm_compute; reflexivity|].
  assert (Hn : 1 <= 2 < Improved.max_attempts)
    by (unfold Improved.max_attempts; lia).
  assert (Hprev : forall j,
             j < 2 - 1 ->
             failed (attempt_outcome
                       (Improved.transcribe_audio_body outage
                          "AudioFiles/a/x.wav") fresh j)).
  { intros j Hj. destruct j as [|j]; [|simpl in Hj; lia].
    eexists _, _. vm_compute. reflexivity. }
  destruct (backoff_wait
              (Improved.transcribe_audio_body outage "AudioFiles/a/x.wav")
              fresh 2 _ _ Hn Hprev ltac:(vm_compute; reflexivity))
    as (_ & _ & Hw & Hr).
  split; [exact Hw|exact Hr].
Defined.




(** C10.  Every result of [process_file] has [FileName], the basename of
    the path, [FilePath], the path itself, and a boolean [Success] that
    fixes which of the other entries it has: [Transcription],
    [CallSummary] and [QA_Evaluation] and no [Error] when it is true,
    [Error] and none of the three when it is false.  In
    process-audio-transcribe.py it is false in every result. *)
Theorem result_keys :
  (forall (env : Improved.Env) file_path s,
      exists d s' b,
        Improved.process_file env file_path s = (inr (VDict d), s') /\
        dict_get d "FileName" = Some (VStr (basename file_path)) /\
        dict_get d "FilePath" = Some (VStr file_path) /\
        dict_get d "Success" = Some (VBool b) /\
        map (dict_has d) ["Transcription"; "CallSummary"; "QA_Evaluation"; "Error"]
        = [b; b; b; negb b])
  /\
  (forall (env : Transcribe.Env) file_path s,
      exists d s',
        Transcribe.process_file env file_path s = (inr (VDict d), s') /\
        dict_get d "FileName" = Some (VStr (basename file_path)) /\
        dict_get d "FilePath" = Some (VStr file_path) /\
        dict_get d "Success" = Some (VBool false) /\
        map (dict_has d) ["Transcription"; "CallSummary"; "QA_Evaluation"; "Error"]
        = [false; false; false; true]).
Proof.
  split.
  - intros env file_path s.
    destruct (process_file_returns env file_path s)
      as (r & s' & E & [(t & cs & ev & ->)|(e & el & ->)]).
    + eexists _, s', true. split; [exact E|]. repeat split.
    + eexists _, s', false. split; [exact E|]. repeat split.
  - intros env file_path s.
    destruct (process_file_result env file_path s) as (e & s' & tr & E & _).
    eexists _, s'. split; [exact E|]. repeat split.
Qed.

End Claims.

(* ================================================================== *)
(** ** Paths: joining a folder and an entry name *)
(* ================================================================== *)

Module PathFacts.
Import Py Further.

Lemma split_on_nonempty sep s : split_on sep s <> [].
Proof.
  destruct s as [|c r]; simpl; [discriminate|].
  destruct (Ascii.eqb c sep); [discriminate|].
  destruct (split_on sep r); discriminate.
Qed.

Lemma split_on_no_slash f : no_slash f = true -> split_on "/" f = [f].
Proof.
  induction f as [|c r IH]; simpl; [reflexivity|].
  intros H. apply andb_prop in H. destruct H as (Hc & Hr).
  apply negb_true_iff in Hc. rewrite Hc, (IH Hr). reflexivity.
Qed.

(** appending a slash-free name extends the last component *)
Lemma split_on_app a f :
  no_slash f = true ->
  split_on "/" (a ++ f)
  = (removelast (split_on "/" a)
     ++ [(last (split_on "/" a) "" ++ f)%string])%list.
Proof.
  intros Hf. induction a as [|c a IH].
  - simpl. apply split_on_no_slash. exact Hf.
  - cbn [append split_on]. rewrite IH.
    pose proof (split_on_nonempty "/" a) as Hne.
    destruct (split_on "/" a) as [|h t]; [contradiction|].
    destruct (Ascii.eqb c "/").
    + reflexivity.
    + destruct t as [|t1 t']; reflexivity.
Qed.

Lemma basename_app a f :
  no_slash f = true -> basename (a ++ f) = basename a ++ f.
Proof.
  intros Hf. unfold basename. rewrite split_on_app by exact Hf.
  apply last_last.
Qed.

Lemma endswith_slash a :
  endswith a "/" = true -> exists a0, a = a0 ++ "/".
Proof.
  unfold endswith. intros H. apply andb_prop in H. destruct H as (_ & H).
  apply String.eqb_eq in H. cbn [String.length] in H.
  induction a as [|c a IH]; [discriminate|].
  cbn [String.length] in H.
  replace (S (String.length a) - 1) with (String.length a) in H by lia.
  destruct a as [|c' a'].
  - cbn in H. injection H as ->. exists "". reflexivity.
  - cbn [String.length substring] in H.
    destruct IH as (a0 & Ha0).
    + cbn [String.length].
      replace (S (String.length a') - 1) with (String.length a') by lia.
      exact H.
    + exists (String c a0). cbn [append]. rewrite <- Ha0. reflexivity.
Qed.

Lemma split_on_slash a : split_on "/" (a ++ "/") = (split_on "/" a ++ [""])%list.
Proof.
  induction a as [|c a IH]; [reflexivity|].
  cbn [append split_on]. rewrite IH.
  pose proof (split_on_nonempty "/" a) as Hne.
  destruct (split_on "/" a) as [|h t]; [contradiction|].
  destruct (Ascii.eqb c "/"); reflexivity.
Qed.

Lemma basename_slash a0 : basename (a0 ++ "/") = "".
Proof. unfold basename. rewrite split_on_slash. apply last_last. Qed.

Lemma no_slash_not_absolute f : no_slash f = true -> startswith f "/" = false.
Proof.
  destruct f as [|c r]; [reflexivity|]. cbn [no_slash]. intros H.
  apply andb_prop in H. destruct H as (Hc & _). apply negb_true_iff in Hc.
  unfold startswith. cbn [prefix].
  destruct (ascii_dec "/" c) as [<-|_]; [|reflexivity].
  rewrite Ascii.eqb_refl in Hc. discriminate.
Qed.

(** [os.path.basename(os.path.join(a, f))] is [f] for an entry name [f] *)
Lemma basename_path_join a f : no_slash f = true -> basename (path_join a f) = f.
Proof.
  intros Hf. unfold path_join. rewrite (no_slash_not_absolute f Hf).
  destruct (a =? "") eqn:Ea.
  - apply String.eqb_eq in Ea. subst a. simpl.
    unfold basename. rewrite split_on_no_slash by exact Hf. reflexivity.
  - destruct (endswith a "/") eqn:Es; cbn [orb].
    + destruct (endswith_slash a Es) as (a0 & ->).
      rewrite basename_app by exact Hf. rewrite basename_slash. reflexivity.
    + replace (a ++ "/" ++ f) with ((a ++ "/") ++ f).
      * rewrite basename_app by exact Hf. rewrite basename_slash. reflexivity.
      * clear. induction a as [|c a IH]; simpl; [reflexivity|rewrite IH; reflexivity].
Qed.

End PathFacts.

(* ================================================================== *)
(** ** Relations kept by every run *)
(* ================================================================== *)

Module RespectFacts.
Import Py Eff Further.

Section Preorder.

Context {S : Type} (R : S -> S -> Prop).
Hypothesis R_refl : forall s, R s s.
Hypothesis R_trans : forall a b c, R a b -> R b c -> R a c.

Lemma respects_ret {A} (a : A) : respects R (ret a).
Proof. intros s r s' H. injection H as _ <-. apply R_refl. Qed.

Lemma respects_raise {A} e : respects R (@raise S A e).
Proof. intros s r s' H. injection H as _ <-. apply R_refl. Qed.

Lemma respects_lift {A} (x : Exn + A) : respects R (lift x).
Proof. intros s r s' H. injection H as _ <-. apply R_refl. Qed.

Lemma respects_gets {A} (f : S -> A) : respects R (gets f).
Proof. intros s r s' H. injection H as _ <-. apply R_refl. Qed.

Lemma respects_bind {A B} (c : M S A) (k : A -> M S B) :
  respects R c -> (forall a, respects R (k a)) -> respects R (bind c k).
Proof.
  intros Hc Hk s r s' H. unfold bind in H.
  destruct (c s) as [[e|a] s1] eqn:E.
  - injection H as _ <-. exact (Hc _ _ _ E).
  - exact (R_trans _ _ _ (Hc _ _ _ E) (Hk a _ _ _ H)).
Qed.

Lemma respects_try_except {A} (body : M S A) handler :
  respects R body -> (forall e, respects R (handler e)) ->
  respects R (try_except body handler).
Proof.
  intros Hb Hh s r s' H. unfold try_except in H.
  destruct (body s) as [[e|a] s1] eqn:E.
  - exact (R_trans _ _ _ (Hb _ _ _ E) (Hh e _ _ _ H)).
  - injection H as _ <-. exact (Hb _ _ _ E).
Qed.

Lemma respects_attempt {A} (c : M S A) : respects R c -> respects R (attempt c).
Proof.
  intros Hc s r s' H. unfold attempt in H.
  destruct (c s) as [x s1] eqn:E. injection H as _ <-. exact (Hc _ _ _ E).
Qed.

Lemma respects_for_each {A} (xs : list A) (body : A -> M S unit) :
  (forall x, respects R (body x)) -> respects R (for_each xs body).
Proof.
  intros Hb. induction xs as [|x xs IH]; cbn [for_each].
  - apply respects_ret.
  - apply respects_bind; [apply Hb|intros _; exact IH].
Qed.

End Preorder.

End RespectFacts.

(* ================================================================== *)
(** ** ImprovedVersionFinal.py: the clock and the number of operations *)
(* ================================================================== *)

Module ClockFacts.
Import Py Eff Improved Spec Further RespectFacts.

Lemma clock_refl s : clock_advances s s.
Proof. unfold clock_advances. lia. Qed.

Lemma clock_trans a b c :
  clock_advances a b -> clock_advances b c -> clock_advances a c.
Proof. unfold clock_advances. lia. Qed.

Lemma wait_nonneg k : (0 <= wait k)%Z.
Proof. unfold wait, wait_exponential, min_wait. lia. Qed.

Lemma steady_log r : respects clock_advances (log r).
Proof.
  intros s x s' H. injection H as _ <-. unfold clock_advances. simpl. lia.
Qed.

Lemma steady_sleep w : (0 <= w)%Z -> respects clock_advances (sleep w).
Proof.
  intros Hw s x s' H. unfold sleep, modify in H.
  apply (f_equal snd) in H. cbn [snd] in H. subst s'.
  unfold clock_advances. cbn [now]. lia.
Qed.

Lemma steady_interact env {A} (f : nat -> Exn + A) :
  nonneg_latency env -> respects clock_advances (interact env f).
Proof.
  intros Hl s x s' H. unfold interact in H.
  apply (f_equal snd) in H. cbn [snd] in H. subst s'.
  unfold clock_advances. cbn [now]. specialize (Hl (tick s)). lia.
Qed.

Lemma steady_retry_from {A} (op : M State A) n :
  respects clock_advances op ->
  forall k, respects clock_advances (retry_from n k op).
Proof.
  intros Hop. induction n as [|n IH]; intros k s r s' H; simpl in H.
  - destruct (op s) as [[e|a] s1] eqn:E; injection H as _ <-;
      exact (Hop _ _ _ E).
  - destruct (op s) as [[e|a] s1] eqn:E.
    + unfold bind, sleep, modify in H. apply IH in H.
      pose proof (Hop _ _ _ E) as H1. pose proof (wait_nonneg k) as Hw.
      unfold clock_advances in *. cbn [now] in H. lia.
    + injection H as _ <-. exact (Hop _ _ _ E).
Qed.

Ltac steady_steps Hl :=
  repeat match goal with
  | |- respects clock_advances (bind _ _) =>
      apply (respects_bind _ clock_trans); [|intros ?]
  | |- respects clock_advances (try_except _ _) =>
      apply (respects_try_except _ clock_trans); [|intros ?]
  | |- respects clock_advances (retry_from _ _ _) => apply steady_retry_from
  | |- respects clock_advances (match ?x with _ => _ end) => destruct x
  | |- respects clock_advances (ret _) => apply (respects_ret _ clock_refl)
  | |- respects clock_advances (raise _) => apply (respects_raise _ clock_refl)
  | |- respects clock_advances (lift _) => apply (respects_lift _ clock_refl)
  | |- respects clock_advances time_time => apply (respects_gets _ clock_refl)
  | |- respects clock_advances (log _) => apply steady_log
  | |- respects clock_advances (sleep _) => apply steady_sleep; lia
  | |- respects clock_advances (interact _ _) => apply steady_interact; exact Hl
  end.

Lemma steady_transcribe_audio env file_path :
  nonneg_latency env -> respects clock_advances (transcribe_audio env file_path).
Proof.
  intros Hl. unfold transcribe_audio, retry, transcribe_audio_body.
  steady_steps Hl.
Qed.

Lemma steady_analyze_transcript env transcript :
  nonneg_latency env ->
  respects clock_advances (analyze_transcript env transcript).
Proof.
  intros Hl. unfold analyze_transcript, retry, analyze_transcript_body.
  steady_steps Hl.
Qed.

Lemma steady_process_file env file_path :
  nonneg_latency env -> respects clock_advances (process_file env file_path).
Proof.
  intros Hl. unfold process_file, pipeline.
  steady_steps Hl.
  - apply steady_transcribe_audio. exact Hl.
  - apply steady_analyze_transcript. exact Hl.
Qed.

(** *** Operation counts *)

Lemma at_most_le {A} n m (c : M State A) : at_most n c -> n <= m -> at_most m c.
Proof. intros H Hle s r s' E. specialize (H s r s' E). lia. Qed.

Lemma at_most_ret {A} (a : A) : at_most 0 (ret a).
Proof. intros s r s' H. injection H as _ <-. lia. Qed.

Lemma at_most_raise {A} e : at_most 0 (@raise State A e).
Proof. intros s r s' H. injection H as _ <-. lia. Qed.

Lemma at_most_lift {A} (x : Exn + A) : at_most 0 (lift x).
Proof. intros s r s' H. injection H as _ <-. lia. Qed.

Lemma at_most_time_time : at_most 0 time_time.
Proof. intros s r s' H. injection H as _ <-. lia. Qed.

Lemma at_most_log r : at_most 0 (log r).
Proof. intros s x s' H. injection H as _ <-. simpl. lia. Qed.

Lemma at_most_sleep w : at_most 0 (sleep w).
Proof. intros s x s' H. injection H as _ <-. simpl. lia. Qed.

Lemma at_most_interact env {A} (f : nat -> Exn + A) : at_most 1 (interact env f).
Proof. intros s x s' H. injection H as _ <-. simpl. lia. Qed.

Lemma at_most_bind {A B} n m (c : M State A) (k : A -> M State B) :
  at_most n c -> (forall a, at_most m (k a)) -> at_most (n + m) (bind c k).
Proof.
  intros Hc Hk s r s' H. unfold bind in H.
  destruct (c s) as [[e|a] s1] eqn:E.
  - injection H as _ <-. specialize (Hc _ _ _ E). lia.
  - specialize (Hc _ _ _ E). specialize (Hk a _ _ _ H). lia.
Qed.

Lemma at_most_try_except {A} n m (body : M State A) handler :
  at_most n body -> (forall e, at_most m (handler e)) ->
  at_most (n + m) (try_except body handler).
Proof.
  intros Hb Hh s r s' H. unfold try_except in H.
  destruct (body s) as [[e|a] s1] eqn:E.
  - specialize (Hb _ _ _ E). specialize (Hh e _ _ _ H). lia.
  - injection H as _ <-. specialize (Hb _ _ _ E). lia.
Qed.

Lemma at_most_retry_from {A} c (op : M State A) n :
  at_most c op -> forall k, at_most (S n * c) (retry_from n k op).
Proof.
  intros Hop. induction n as [|n IH]; intros k s r s' H; simpl in H.
  - destruct (op s) as [[e|a] s1] eqn:E; injection H as _ <-;
      specialize (Hop _ _ _ E); lia.
  - destruct (op s) as [[e|a] s1] eqn:E.
    + unfold bind, sleep, modify in H. apply IH in H. simpl in H.
      specialize (Hop _ _ _ E). lia.
    + injection H as _ <-. specialize (Hop _ _ _ E). lia.
Qed.

Lemma at_most_transcribe_audio env file_path :
  at_most 6 (transcribe_audio env file_path).
Proof.
  unfold transcribe_audio, retry, max_attempts.
  apply (at_most_retry_from 2 _ 2). unfold transcribe_audio_body.
  apply (at_most_bind 0 2); [apply at_most_log|intros _].
  apply (at_most_try_except 2 0).
  - apply (at_most_bind 1 1); [apply at_most_interact|intros data].
    apply (at_most_bind 1 0); [apply at_most_interact|intros text].
    apply (at_most_bind 0 0); [apply at_most_log|intros _; apply at_most_ret].
  - intros e. apply (at_most_bind 0 0); [apply at_most_log|intros _].
    apply at_most_raise.
Qed.

Lemma at_most_analyze_transcript env transcript :
  at_most 3 (analyze_transcript env transcript).
Proof.
  unfold analyze_transcript, retry, max_attempts.
  apply (at_most_retry_from 1 _ 2). unfold analyze_transcript_body.
  apply (at_most_bind 0 1); [apply at_most_log|intros _].
  apply (at_most_try_except 1 0).
  - apply (at_most_bind 1 0); [apply at_most_interact|intros [|msg|v]].
    + apply at_most_raise.
    + apply at_most_raise.
    + apply (at_most_bind 0 0); [apply at_most_log|intros _; apply at_most_ret].
  - intros e. apply (at_most_bind 0 0); [apply at_most_log|intros _].
    apply at_most_raise.
Qed.

Lemma at_most_process_file env file_path :
  at_most 9 (process_file env file_path).
Proof.
  unfold process_file.
  apply (at_most_bind 0 9); [apply at_most_time_time|intros start].
  apply (at_most_bind 0 9); [apply at_most_log|intros _].
  apply (at_most_try_except 9 0).
  - unfold pipeline.
    apply (at_most_bind 6 3); [apply at_most_transcribe_audio|intros t].
    apply (at_most_bind 0 3); [apply at_most_sleep|intros _].
    apply (at_most_bind 3 0); [apply at_most_analyze_transcript|intros qa].
    apply (at_most_bind 0 0); [apply at_most_sleep|intros _].
    apply (at_most_bind 0 0); [apply at_most_time_time|intros t1].
    apply (at_most_bind 0 0); [apply at_most_lift|intros cs].
    apply (at_most_bind 0 0); [apply at_most_lift|intros ev].
    apply at_most_ret.
  - intros e.
    apply (at_most_bind 0 0); [apply at_most_time_time|intros t].
    apply (at_most_bind 0 0); [apply at_most_log|intros _; apply at_most_ret].
Qed.

End ClockFacts.

(* ================================================================== *)
(** ** The shape of the batches *)
(* ================================================================== *)

Module BatchShapeFacts.
Import Py Eff Further.

Lemma range_from_bounds fuel step stop :
  forall i x, In x (range_from fuel i stop step) -> i <= x < stop.
Proof.
  induction fuel as [|fuel IH]; intros i x; simpl; [intros []|].
  destruct (i <? stop)%nat eqn:E; [|intros []].
  apply Nat.ltb_lt in E. intros [<-|H]; [lia|].
  apply IH in H. lia.
Qed.

Lemma slice_length {A} (l : list A) i j :
  length (slice l i j) = Nat.min (j - i) (length l - i).
Proof. unfold slice. rewrite length_firstn, length_skipn. reflexivity. Qed.

Lemma range_from_length step stop :
  1 <= step ->
  forall fuel i,
    stop - i <= fuel ->
    length (range_from fuel i stop step) = (stop - i + step - 1) / step.
Proof.
  intros Hstep. induction fuel as [|fuel IH]; intros i Hfuel; simpl.
  - replace (stop - i + step - 1) with (step - 1) by lia.
    symmetry. apply Nat.div_small. lia.
  - destruct (i <? stop)%nat eqn:E.
    + apply Nat.ltb_lt in E. cbn [length]. rewrite IH by lia.
      destruct (Nat.le_gt_cases step (stop - i)) as [Hge|Hlt].
      * replace (stop - i + step - 1)
          with ((stop - (i + step) + step - 1) + 1 * step) by lia.
        rewrite Nat.div_add by lia. symmetry. apply Nat.add_1_r.
      * replace (stop - (i + step) + step - 1) with (step - 1) by lia.
        rewrite (Nat.div_small (step - 1) step) by lia.
        replace (stop - i + step - 1) with ((stop - i - 1) + 1 * step) by lia.
        rewrite Nat.div_add by lia.
        rewrite (Nat.div_small (stop - i - 1) step) by lia. reflexivity.
    + apply Nat.ltb_ge in E. cbn [length].
      replace (stop - i + step - 1) with (step - 1) by lia.
      symmetry. apply Nat.div_small. lia.
Qed.

(** the index loop of [main] is the loop over the batches, numbered from
    one *)
Lemma batch_loop_by_batches cfg env files :
  1 <= Improved.batch_size cfg ->
  forall fuel k all_results s,
    Improved.batch_loop cfg env files
      (range_from fuel (k * Improved.batch_size cfg) (length files)
                  (Improved.batch_size cfg))
      all_results s
    = announce_and_process env
        ((length files + Improved.batch_size cfg - 1)
         / Improved.batch_size cfg)
        k
        (map (fun i => slice files i (i + Improved.batch_size cfg))
             (range_from fuel (k * Improved.batch_size cfg) (length files)
                         (Improved.batch_size cfg)))
        all_results s.
Proof.
  intros Hbs. induction fuel as [|fuel IH]; intros k acc s; [reflexivity|].
  cbn [range_from].
  destruct (k * Improved.batch_size cfg <? length files)%nat; [|reflexivity].
  cbn [Improved.batch_loop map announce_and_process]. cbv zeta.
  rewrite Nat.div_mul by lia.
  unfold bind, Improved.log, Improved.emit, Improved.sleep, modify.
  match goal with
  | |- context [Improved.process_batch env ?b ?s0] =>
      destruct (Improved.process_batch env b s0) as [[e|rs] s1]
  end; [reflexivity|].
  replace (k * Improved.batch_size cfg + Improved.batch_size cfg)
    with (S k * Improved.batch_size cfg) by (cbn [Nat.mul]; lia).
  apply IH.
Qed.

End BatchShapeFacts.

(* ================================================================== *)
(** ** process-audio-transcribe.py: uploads, cleanup and [main] *)
(* ================================================================== *)

Module TranscribeFacts.
Import Py Eff Spec Further.
Import SingleFileFacts.

(** what [Transcribe.process_file] returns for [file_path] *)
Lemma process_file_for env file_path s :
  exists r s',
    Transcribe.process_file env file_path s = (inr r, s') /\
    subscript r "FilePath" = inr (VStr file_path) /\
    subscript r "Success" = inr (VBool false).
Proof.
  destruct (process_file_result env file_path s) as (e & s' & tr & E & _).
  eexists _, s'. split; [exact E|]. split; reflexivity.
Qed.

Lemma gather_process_files env files :
  forall r,
  exists results r',
    TranscribeMain.gather
      (map (fun p => TranscribeMain.in_pipeline (Transcribe.process_file env p))
           files) r
    = (inr results, r') /\
    TranscribeMain.events r' = TranscribeMain.events r /\
    paths_of results = map (fun p => inr (VStr p)) files /\
    Forall (fun x => subscript x "Success" = inr (VBool false)) results.
Proof.
  induction files as [|p files IH]; intros r.
  - exists [], r. repeat split. constructor.
  - cbn [map TranscribeMain.gather]. unfold bind, attempt.
    unfold TranscribeMain.in_pipeline at 1.
    destruct (process_file_for env p (TranscribeMain.pipeline r))
      as (x & s' & E & Hx & Hflag).
    rewrite E.
    destruct (IH (TranscribeMain.mkState s' (TranscribeMain.events r)))
      as (xs & r' & E' & Hev & Hp & Hall).
    rewrite E'. exists (x :: xs), r'. split; [reflexivity|].
    split; [exact Hev|]. split.
    + unfold paths_of in *. cbn [map]. rewrite Hx, Hp. reflexivity.
    + constructor; assumption.
Qed.

End TranscribeFacts.

(* ================================================================== *)
(** ** recentAsPerHuzaifa-upgraded.py: grouping by folder *)
(* ================================================================== *)

Module OrganizeFacts.
Import Py Eff Spec Further.
Import SharedListFacts.

(** [organize_step] files an item under [folder_of] it, or drops it *)
Lemma organize_step_folder_of folder_data item :
  Huzaifa.organize_step folder_data item
  = match folder_of item with
    | Some k => Huzaifa.add_item folder_data k item
    | None => folder_data
    end.
Proof.
  unfold Huzaifa.organize_step, folder_of, dict_has.
  destruct item as [| | | | | |d]; try reflexivity.
  destruct (dict_get d "FilePath") as [[| | | |p| |]|]; try reflexivity.
  destruct (3 <=? length (split_on "/" (normpath p)))%nat eqn:E3.
  - apply Nat.leb_le in E3.
    destruct (2 <=? length (split_on "/" (normpath p)))%nat eqn:E2;
      [reflexivity|]. apply Nat.leb_gt in E2. lia.
  - destruct (2 <=? length (split_on "/" (normpath p)))%nat; reflexivity.
Qed.

Lemma stored_add_item folder_data k item k' :
  stored (Huzaifa.add_item folder_data k item) k'
  = if k =? k' then (stored folder_data k ++ [item])%list
    else stored folder_data k'.
Proof.
  induction folder_data as [|[k0 items] rest IH]; cbn [Huzaifa.add_item stored].
  - destruct (k =? k'); reflexivity.
  - destruct (k0 =? k) eqn:E0; cbn [stored].
    + apply String.eqb_eq in E0. subst k0.
      destruct (k =? k') eqn:E; [reflexivity|reflexivity].
    + destruct (k0 =? k') eqn:E1.
      * apply String.eqb_eq in E1. subst k0. rewrite String.eqb_sym in E0.
        rewrite E0. reflexivity.
      * exact IH.
Qed.

Lemma stored_organize_step folder_data item k :
  stored (Huzaifa.organize_step folder_data item) k
  = (stored folder_data k ++ (if in_folder k item then [item] else []))%list.
Proof.
  rewrite organize_step_folder_of. unfold in_folder.
  destruct (folder_of item) as [k0|]; [|symmetry; apply app_nil_r].
  rewrite stored_add_item.
  destruct (k0 =? k) eqn:E.
  - apply String.eqb_eq in E. subst k0. reflexivity.
  - symmetry. apply app_nil_r.
Qed.

Lemma stored_fold items :
  forall folder_data k,
    stored (fold_left Huzaifa.organize_step items folder_data) k
    = (stored folder_data k ++ filter (in_folder k) items)%list.
Proof.
  induction items as [|item items IH]; intros fd k; cbn [fold_left filter].
  - symmetry. apply app_nil_r.
  - rewrite IH, stored_organize_step.
    destruct (in_folder k item); rewrite <- app_assoc; reflexivity.
Qed.

Lemma stored_of_entry folder_data k items :
  NoDup (map fst folder_data) ->
  In (k, items) folder_data -> stored folder_data k = items.
Proof.
  induction folder_data as [|[k0 items0] rest IH]; intros Hnd Hin;
    [destruct Hin|].
  cbn [map fst] in Hnd. inversion Hnd as [|? ? Hnot Hrest]; subst.
  cbn [stored]. destruct Hin as [Heq|Hin].
  - injection Heq as -> ->. rewrite String.eqb_refl. reflexivity.
  - destruct (k0 =? k) eqn:E.
    + apply String.eqb_eq in E. subst k0. exfalso. apply Hnot.
      apply (in_map fst) in Hin. exact Hin.
    + apply IH; assumption.
Qed.

Lemma entry_of_stored folder_data k :
  stored folder_data k <> [] ->
  In (k, stored folder_data k) folder_data.
Proof.
  induction folder_data as [|[k0 items0] rest IH]; cbn [stored];
    [intros H; contradiction|].
  destruct (k0 =? k) eqn:E.
  - apply String.eqb_eq in E. subst k0. intros _. left. reflexivity.
  - intros H. right. exact (IH H).
Qed.

Lemma add_item_nonempty folder_data k item :
  Forall (fun entry => snd entry <> []) folder_data ->
  Forall (fun entry => snd entry <> [])
         (Huzaifa.add_item folder_data k item).
Proof.
  induction 1 as [|[k0 items0] rest H0 Hrest IH]; cbn [Huzaifa.add_item].
  - constructor; [discriminate|constructor].
  - destruct (k0 =? k).
    + constructor; [|exact Hrest]. cbn [snd]. intros H.
      apply app_eq_nil in H. destruct H as (_ & H). discriminate.
    + constructor; [exact H0|exact IH].
Qed.

Lemma organize_nonempty items :
  Forall (fun entry => snd entry <> [])
         (Huzaifa.organize_output_by_folders items).
Proof.
  unfold Huzaifa.organize_output_by_folders.
  assert (G : forall fd,
             Forall (fun entry : string * list Value => snd entry <> []) fd ->
             Forall (fun entry => snd entry <> [])
                    (fold_left Huzaifa.organize_step items fd)).
  { induction items as [|item items IH]; intros fd H; cbn [fold_left];
      [exact H|].
    apply IH. rewrite organize_step_folder_of.
    destruct (folder_of item); [apply add_item_nonempty|]; exact H. }
  apply G. constructor.
Qed.

(** the entries of the grouping: each folder holds, in order, the items of
    the input that belong to it *)
Lemma organize_entry items k members :
  In (k, members) (Huzaifa.organize_output_by_folders items) ->
  members = filter (in_folder k) items /\ members <> [].
Proof.
  intros Hin. split.
  - rewrite <- (stored_of_entry _ k members (organize_NoDup items) Hin).
    unfold Huzaifa.organize_output_by_folders. rewrite stored_fold.
    reflexivity.
  - pose proof (organize_nonempty items) as H.
    rewrite Forall_forall in H. exact (H _ Hin).
Qed.

Lemma organize_complete items item k :
  In item items -> folder_of item = Some k ->
  In (k, filter (in_folder k) items) (Huzaifa.organize_output_by_folders items).
Proof.
  intros Hin Hk.
  assert (Hf : In item (filter (in_folder k) items)).
  { apply filter_In. split; [exact Hin|]. unfold in_folder. rewrite Hk.
    apply String.eqb_refl. }
  assert (Hs : stored (Huzaifa.organize_output_by_folders items) k
               = filter (in_folder k) items).
  { unfold Huzaifa.organize_output_by_folders. rewrite stored_fold.
    reflexivity. }
  rewrite <- Hs. apply entry_of_stored. rewrite Hs.
  intros H. rewrite H in Hf. destruct Hf.
Qed.

End OrganizeFacts.

(* ================================================================== *)
(** ** recentAsPerHuzaifa-upgraded.py: what a run does to the lists *)
(* ================================================================== *)

Module SharedRunFacts.
Import Py Eff Huzaifa Spec Further.
Import ListFacts RespectFacts SharedListFacts OrganizeFacts.

Lemma only_appends_refl s : only_appends s s.
Proof.
  split; [|reflexivity]. exists []. split; [symmetry; apply app_nil_r|constructor].
Qed.

Lemma only_appends_trans a b c :
  only_appends a b -> only_appends b c -> only_appends a c.
Proof.
  intros ((i1 & E1 & F1) & W1) ((i2 & E2 & F2) & W2). split; [|congruence].
  exists (i1 ++ i2)%list. split.
  - rewrite E2, E1, app_assoc. reflexivity.
  - apply Forall_app. split; assumption.
Qed.

(** every way [process_single_audio] can end *)
Lemma process_single_audio_cases env audio_path which s :
  exists r s',
    process_single_audio env audio_path which s = (r, s') /\
    written s' = written s /\
    (which = TheFinalFailedFiles -> failed_files s' = failed_files s) /\
    (which = TheFailedFiles -> final_failed_files s' = final_failed_files s) /\
    ((r = inr tt /\
      (exists f d,
          output_json s' = (output_json s ++ [success_item f audio_path d])%list) /\
      (failed_list which s' = failed_list which s \/
       failed_list which s' = (failed_list which s ++ [audio_path])%list))
     \/ (r = inr tt /\
         output_json s' = output_json s /\
         failed_list which s' = (failed_list which s ++ [audio_path])%list)
     \/ (exists e,
           r = inl e /\
           (e = unbound \/ e = no_display_name) /\
           output_json s' = output_json s /\
           failed_list which s' = (failed_list which s ++ [audio_path])%list)).
Proof.
  unfold process_single_audio, bind, attempt, interact.
  destruct (upload_file env (tick s) audio_path) as [e|[audio_file|]].
  - eexists _, _. split; [reflexivity|].
    destruct which; (repeat split; try reflexivity; try discriminate);
      right; right; eexists; (split; [reflexivity|]);
      (split; [left; reflexivity|]); split; reflexivity.
  - unfold process_uploaded, bind, interact.
    cbn [tick output_json failed_files final_failed_files written].
    destruct (generate_content env (S (tick s)) audio_file) as [e|[|msg|v]].
    + eexists _, _. split; [reflexivity|].
      destruct which; (repeat split; try reflexivity; try discriminate);
        right; left; repeat split.
    + eexists _, _. split; [reflexivity|].
      destruct which; (repeat split; try reflexivity; try discriminate);
        right; left; repeat split.
    + eexists _, _. split; [reflexivity|].
      destruct which; (repeat split; try reflexivity; try discriminate);
        right; left; repeat split.
    + destruct v as [| | | | |l|d];
        try (eexists _, _; split; [reflexivity|];
             destruct which;
             (repeat split; try reflexivity; try discriminate);
             right; left; repeat split).
      cbn [set_item lift]. unfold append_output, modify.
      cbn [tick output_json failed_files final_failed_files written].
      fold (success_item audio_file audio_path d).
      destruct (delete_file env (S (S (tick s))) (name audio_file)) as [e|[]].
      * eexists _, _. split; [reflexivity|].
        destruct which; (repeat split; try reflexivity; try discriminate);
          left; (split; [reflexivity|]); (split; [eexists _, _; reflexivity|]);
          right; reflexivity.
      * eexists _, _. split; [reflexivity|].
        destruct which; (repeat split; try reflexivity; try discriminate);
          left; (split; [reflexivity|]); (split; [eexists _, _; reflexivity|]);
          left; reflexivity.
  - eexists _, _. split; [reflexivity|].
    destruct which; (repeat split; try reflexivity; try discriminate);
      right; right; eexists; (split; [reflexivity|]);
      (split; [right; reflexivity|]); split; reflexivity.
Qed.

Lemma only_appends_process_single_audio env audio_path which :
  respects only_appends (process_single_audio env audio_path which).
Proof.
  intros s r s' E.
  destruct (process_single_audio_cases env audio_path which s)
    as (r0 & s0 & E0 & W & _ & _ & H).
  rewrite E in E0. injection E0 as <- <-. split; [|exact W].
  destruct H as [(_ & (f & d & Ho) & _)|[(_ & Ho & _)|(e & _ & _ & Ho & _)]].
  - eexists. split; [exact Ho|]. constructor; [|constructor].
    left. eexists _, _, _. reflexivity.
  - exists []. rewrite Ho. split; [symmetry; apply app_nil_r|constructor].
  - exists []. rewrite Ho. split; [symmetry; apply app_nil_r|constructor].
Qed.

Lemma respects_gather {R : State -> State -> Prop}
  (R_refl : forall s, R s s) (R_trans : forall a b c, R a b -> R b c -> R a c)
  (tasks : list (M State unit)) :
  Forall (respects R) tasks -> respects R (gather tasks).
Proof.
  induction 1 as [|task rest Ht _ IH]; cbn [gather].
  - apply (respects_ret R R_refl).
  - apply (respects_bind R R_trans);
      [apply respects_attempt; exact Ht|intros first].
    apply (respects_bind R R_trans);
      [apply respects_attempt; exact IH|intros others].
    destruct first;
      [apply (respects_raise R R_refl)|apply (respects_lift R R_refl)].
Qed.

Lemma retry_outcome_recorded audio_path out :
  retry_outcome audio_path out -> Forall recorded (fst out).
Proof.
  intros [(f & d & -> & _)|[(-> & _)|(e & _ & -> & _)]].
  - constructor; [left; eexists _, _, _; reflexivity|constructor].
  - constructor.
  - constructor; [right; eexists _, _; reflexivity|constructor].
Qed.

Lemma retry_outcomes_recorded paths outs :
  Forall2 retry_outcome paths outs ->
  Forall recorded (concat (map fst outs)).
Proof.
  induction 1 as [|p out ps outs Hout _ IH]; cbn [map concat].
  - constructor.
  - apply Forall_app. split; [exact (retry_outcome_recorded _ _ Hout)|exact IH].
Qed.

(** one turn of the loop of [retry_failed_files] *)
Lemma retry_step env audio_path s :
  exists s' out,
    try_except (process_single_audio env audio_path TheFinalFailedFiles)
               (fun e => append_output (retry_record audio_path e)) s
    = (inr tt, s') /\
    retry_outcome audio_path out /\
    output_json s' = (output_json s ++ fst out)%list /\
    final_failed_files s' = (final_failed_files s ++ snd out)%list /\
    failed_files s' = failed_files s /\
    written s' = written s.
Proof.
  destruct (process_single_audio_cases env audio_path TheFinalFailedFiles s)
    as (r0 & s0 & E0 & W & Hff & _ & H).
  specialize (Hff eq_refl). unfold try_except. rewrite E0.
  cbn [failed_list] in H.
  destruct H
    as [(-> & (f & d & Ho) & Hk)|[(-> & Ho & Hk)|(e & -> & He & Ho & Hk)]].
  - destruct Hk as [Hk|Hk].
    + exists s0, ([success_item f audio_path d], []). cbn [fst snd].
      rewrite app_nil_r. repeat split; auto.
      left. exists f, d. cbn [fst snd]. auto.
    + exists s0, ([success_item f audio_path d], [audio_path]). cbn [fst snd].
      repeat split; auto.
      left. exists f, d. cbn [fst snd]. auto.
  - exists s0, ([], [audio_path]). cbn [fst snd]. rewrite app_nil_r.
    repeat split; auto. right. left. cbn [fst snd]. auto.
  - eexists _, ([retry_record audio_path e], [audio_path]).
    unfold append_output, modify.
    split; [reflexivity|].
    cbn [tick output_json failed_files final_failed_files written fst snd].
    rewrite Ho. repeat split; auto.
    right. right. exists e. cbn [fst snd]. auto.
Qed.

Lemma retry_loop_spec env (to_retry : list string) :
  forall s,
  exists s' outs,
    for_each to_retry
      (fun audio_path =>
         try_except (process_single_audio env audio_path TheFinalFailedFiles)
                    (fun e => append_output (retry_record audio_path e))) s
    = (inr tt, s') /\
    Forall2 retry_outcome to_retry outs /\
    output_json s' = (output_json s ++ concat (map fst outs))%list /\
    final_failed_files s'
    = (final_failed_files s ++ concat (map snd outs))%list /\
    failed_files s' = failed_files s /\
    written s' = written s.
Proof.
  induction to_retry as [|p rest IH]; intros s.
  - exists s, []. cbn [map concat]. rewrite !app_nil_r.
    repeat split; auto.
  - destruct (retry_step env p s) as (s1 & out & E1 & H1 & O1 & K1 & Ff1 & W1).
    destruct (IH s1) as (s2 & outs & E2 & H2 & O2 & K2 & Ff2 & W2).
    exists s2, (out :: outs).
    cbn [for_each]. unfold bind. rewrite E1. cbn iota. rewrite E2.
    cbn [map concat]. rewrite O2, O1, K2, K1, !app_assoc.
    repeat split; try congruence.
    constructor; assumption.
Qed.

(** the whole of [retry_failed_files] *)
Lemma retry_failed_files_spec env s :
  exists s' outs,
    retry_failed_files env s = (inr tt, s') /\
    Forall2 retry_outcome (failed_files s) outs /\
    output_json s' = (output_json s ++ concat (map fst outs))%list /\
    failed_files s' = concat (map snd outs) /\
    written s' = written s.
Proof.
  unfold retry_failed_files, bind, modify, gets.
  cbn [tick output_json failed_files final_failed_files written].
  destruct (retry_loop_spec env (failed_files s)
              (mkState (tick s) (output_json s) (failed_files s) [] (written s)))
    as (s1 & outs & E & H & O & K & Ff & W).
  cbn [tick output_json failed_files final_failed_files written] in *.
  rewrite E. cbn iota. eexists _, outs. split; [reflexivity|].
  cbn [tick output_json failed_files final_failed_files written].
  repeat split; auto.
Qed.

Lemma only_appends_retry_failed_files env :
  respects only_appends (retry_failed_files env).
Proof.
  intros s r s' E.
  destruct (retry_failed_files_spec env s) as (s1 & outs & E1 & H & O & _ & W).
  rewrite E in E1. injection E1 as _ <-.
  split; [|exact W].
  eexists. split; [exact O|exact (retry_outcomes_recorded _ _ H)].
Qed.

Lemma only_appends_process_audio_files env audio_paths batch_size :
  respects only_appends (process_audio_files env audio_paths batch_size).
Proof.
  unfold process_audio_files. destruct batch_size as [|b].
  - apply (respects_raise _ only_appends_refl).
  - apply (respects_bind _ only_appends_trans).
    + apply (respects_for_each _ only_appends_refl only_appends_trans).
      intros i.
      apply (respects_gather only_appends_refl only_appends_trans).
      apply Forall_forall. intros task Hin.
      apply in_map_iff in Hin. destruct Hin as (p & <- & _).
      apply only_appends_process_single_audio.
    + intros _. apply (respects_bind _ only_appends_trans).
      * apply (respects_gets _ only_appends_refl).
      * intros [|p failed];
          [apply (respects_ret _ only_appends_refl)
          |apply only_appends_retry_failed_files].
Qed.

(** a record of the retry handler has no [FilePath] *)
Lemma retry_record_has_no_folder audio_path e :
  folder_of (retry_record audio_path e) = None.
Proof. reflexivity. Qed.

(** the documents [save_output] writes after a computation that only
    appends records *)
Lemma saved_after_appending env (c : M State unit) s r s' :
  respects only_appends c ->
  written s = [] -> Forall recorded (output_json s) ->
  bind c (fun _ => save_output env) s = (r, s') ->
  forall path doc,
    In (path, doc) (written s') ->
    exists k items,
      path = report_path k /\ doc = VList items /\ items <> [] /\
      Forall (fun item =>
                subscript item "Success" = inr (VBool true) /\
                folder_of item = Some k) items.
Proof.
  intros Hc Hw Hrec E path doc Hin. unfold bind in E.
  destruct (c s) as [[e|[]] s1] eqn:E1.
  - injection E as _ <-.
    destruct (Hc _ _ _ E1) as (_ & W). rewrite W, Hw in Hin. destruct Hin.
  - destruct (Hc _ _ _ E1) as ((added & O & F) & W).
    unfold save_output, bind, gets in E.
    destruct (write_each_run env _ _ _ _ E)
      as (done & rest & Hd & W' & _ & _ & _).
    rewrite W', W, Hw in Hin. cbn [app] in Hin.
    apply in_map_iff in Hin. destruct Hin as ([k members] & Heq & Hin).
    cbn [fst snd] in Heq. injection Heq as <- <-.
    assert (Hin' : In (k, members)
                      (organize_output_by_folders (output_json s1)))
      by (rewrite Hd; apply in_or_app; left; exact Hin).
    destruct (organize_entry _ _ _ Hin') as (Hm & Hne).
    exists k, members. repeat split; auto.
    rewrite Hm. apply Forall_forall. intros item Hitem.
    apply filter_In in Hitem. destruct Hitem as (Hitem & Hfolder).
    assert (Hr : recorded item).
    { rewrite O in Hitem. apply in_app_or in Hitem.
      destruct Hitem as [Hitem|Hitem];
        [exact (proj1 (Forall_forall _ _) Hrec _ Hitem)
        |exact (proj1 (Forall_forall _ _) F _ Hitem)]. }
    unfold in_folder in Hfolder.
    destruct Hr as [(f & p & d & ->)|(p & e & ->)].
    + split; [apply success_item_flag|].
      destruct (folder_of (success_item f p d)); [|discriminate].
      apply String.eqb_eq in Hfolder. congruence.
    + rewrite retry_record_has_no_folder in Hfolder. discriminate.
Qed.

(** *** When every upload fails *)

Lemma process_single_audio_outage env audio_path which s :
  uploads_fail env ->
  process_single_audio env audio_path which s
  = (inl unbound,
     match which with
     | TheFailedFiles =>
         mkState (S (tick s)) (output_json s)
                 (failed_files s ++ [audio_path]) (final_failed_files s)
                 (written s)
     | TheFinalFailedFiles =>
         mkState (S (tick s)) (output_json s) (failed_files s)
                 (final_failed_files s ++ [audio_path]) (written s)
     end).
Proof.
  intros Hfail. destruct (Hfail (tick s) audio_path) as [e He].
  unfold process_single_audio, bind, attempt, interact. rewrite He.
  destruct which; reflexivity.
Qed.

Lemma gather_outage env :
  uploads_fail env ->
  forall batch s,
    gather (map (fun audio => process_single_audio env audio TheFailedFiles)
                batch) s
    = (match batch with [] => inr tt | _ => inl unbound end,
       mkState (tick s + length batch) (output_json s)
               (failed_files s ++ batch) (final_failed_files s) (written s)).
Proof.
  intros Hfail. induction batch as [|p rest IH]; intros s.
  - cbn [map gather length]. unfold ret.
    rewrite Nat.add_0_r, app_nil_r. destruct s; reflexivity.
  - cbn [map gather]. unfold bind, attempt.
    rewrite (process_single_audio_outage env p TheFailedFiles s Hfail).
    rewrite IH.
    cbn [tick output_json failed_files final_failed_files written length].
    unfold raise. rewrite <- app_assoc, <- plus_n_Sm. reflexivity.
Qed.

Lemma process_audio_files_outage env audio_path more b s :
  uploads_fail env ->
  exists s',
    process_audio_files env (audio_path :: more) (S b) s = (inl unbound, s') /\
    output_json s' = output_json s /\
    written s' = written s /\
    failed_files s' = (failed_files s ++ firstn (S b) (audio_path :: more))%list.
Proof.
  intros Hfail. unfold process_audio_files, range.
  cbn [length Nat.sub range_from Nat.ltb Nat.leb for_each].
  unfold bind at 1. unfold bind at 1.
  rewrite (gather_outage env Hfail).
  unfold slice. cbn [Nat.add Nat.sub skipn firstn].
  eexists. split; [reflexivity|].
  cbn [tick output_json failed_files final_failed_files written].
  repeat split.
Qed.

(** *** When no reply can be used *)

Lemma process_single_audio_unusable env audio_path which s :
  uploads_succeed env -> no_usable_reply env ->
  process_single_audio env audio_path which s
  = (inr tt,
     match which with
     | TheFailedFiles =>
         mkState (S (S (tick s))) (output_json s)
                 (failed_files s ++ [audio_path]) (final_failed_files s)
                 (written s)
     | TheFinalFailedFiles =>
         mkState (S (S (tick s))) (output_json s) (failed_files s)
                 (final_failed_files s ++ [audio_path]) (written s)
     end).
Proof.
  intros Hup Hno. destruct (Hup (tick s) audio_path) as [f Hf].
  unfold process_single_audio, bind, attempt, interact. rewrite Hf.
  unfold process_uploaded, bind, interact.
  cbn [tick output_json failed_files final_failed_files written].
  pose proof (Hno (S (tick s)) f) as Hn.
  destruct (generate_content env (S (tick s)) f) as [e|[|msg|v]];
    try (destruct which; reflexivity).
  destruct v; try (destruct which; reflexivity).
  exfalso. exact (Hn _ eq_refl).
Qed.

Lemma gather_unusable env :
  uploads_succeed env -> no_usable_reply env ->
  forall batch s,
    gather (map (fun audio => process_single_audio env audio TheFailedFiles)
                batch) s
    = (inr tt,
       mkState (tick s + 2 * length batch) (output_json s)
               (failed_files s ++ batch) (final_failed_files s) (written s)).
Proof.
  intros Hup Hno. induction batch as [|p rest IH]; intros s.
  - cbn [map gather length]. unfold ret.
    rewrite Nat.mul_0_r, Nat.add_0_r, app_nil_r. destruct s; reflexivity.
  - cbn [map gather]. unfold bind, attempt.
    rewrite (process_single_audio_unusable env p TheFailedFiles s Hup Hno).
    rewrite IH.
    cbn [tick output_json failed_files final_failed_files written length].
    unfold lift. rewrite <- app_assoc. cbn [app].
    replace (S (S (tick s)) + 2 * length rest)
      with (tick s + 2 * S (length rest)) by lia.
    reflexivity.
Qed.

Lemma first_pass_unusable env (audio_paths : list string) batch_size :
  uploads_succeed env -> no_usable_reply env ->
  forall starts s,
    for_each starts
      (fun i =>
         gather (map (fun audio =>
                        process_single_audio env audio TheFailedFiles)
                     (slice audio_paths i (i + batch_size)))) s
    = (inr tt,
       let seen :=
         concat (map (fun i => slice audio_paths i (i + batch_size)) starts) in
       mkState (tick s + 2 * length seen) (output_json s)
               (failed_files s ++ seen) (final_failed_files s) (written s)).
Proof.
  intros Hup Hno. induction starts as [|i rest IH]; intros s.
  - cbn [for_each map concat length]. unfold ret.
    rewrite Nat.mul_0_r, Nat.add_0_r, app_nil_r. destruct s; reflexivity.
  - cbn [for_each map concat]. unfold bind.
    rewrite (gather_unusable env Hup Hno). rewrite IH.
    cbn [tick output_json failed_files final_failed_files written].
    rewrite <- app_assoc, length_app.
    match goal with
    | |- (_, mkState ?a _ _ _ _) = (_, mkState ?b _ _ _ _) =>
        replace a with b by lia
    end.
    reflexivity.
Qed.

Lemma retry_loop_unusable env :
  uploads_succeed env -> no_usable_reply env ->
  forall to_retry s,
    for_each to_retry
      (fun audio_path =>
         try_except (process_single_audio env audio_path TheFinalFailedFiles)
                    (fun e => append_output (retry_record audio_path e))) s
    = (inr tt,
       mkState (tick s + 2 * length to_retry) (output_json s) (failed_files s)
               (final_failed_files s ++ to_retry) (written s)).
Proof.
  intros Hup Hno. induction to_retry as [|p rest IH]; intros s.
  - cbn [for_each length]. unfold ret.
    rewrite Nat.mul_0_r, Nat.add_0_r, app_nil_r. destruct s; reflexivity.
  - cbn [for_each]. unfold bind, try_except.
    rewrite (process_single_audio_unusable env p TheFinalFailedFiles s Hup Hno).
    rewrite IH.
    cbn [tick output_json failed_files final_failed_files written length].
    rewrite <- app_assoc. cbn [app].
    replace (S (S (tick s)) + 2 * length rest)
      with (tick s + 2 * S (length rest)) by lia.
    reflexivity.
Qed.

Lemma retry_failed_files_unusable env s :
  uploads_succeed env -> no_usable_reply env ->
  retry_failed_files env s
  = (inr tt,
     mkState (tick s + 2 * length (failed_files s)) (output_json s)
             (failed_files s) (failed_files s) (written s)).
Proof.
  intros Hup Hno. unfold retry_failed_files, bind, modify, gets.
  cbn [tick output_json failed_files final_failed_files written].
  rewrite (retry_loop_unusable env Hup Hno).
  cbn [tick output_json failed_files final_failed_files written app].
  reflexivity.
Qed.

Lemma process_audio_files_unusable env audio_paths b s :
  uploads_succeed env -> no_usable_reply env ->
  failed_files s = [] -> audio_paths <> [] ->
  process_audio_files env audio_paths (S b) s
  = (inr tt,
     mkState (tick s + 4 * length audio_paths) (output_json s)
             audio_paths audio_paths (written s)).
Proof.
  intros Hup Hno Hnone Hsome. unfold process_audio_files.
  unfold bind at 1. rewrite (first_pass_unusable env _ _ Hup Hno).
  cbv zeta. rewrite batches_cover by lia. rewrite Hnone. cbn [app].
  unfold bind, gets. cbn [failed_files].
  destruct audio_paths as [|p rest]; [contradiction Hsome; reflexivity|].
  rewrite (retry_failed_files_unusable env _ Hup Hno).
  cbn [tick output_json failed_files final_failed_files written].
  match goal with
  | |- (_, mkState ?a _ _ _ _) = (_, mkState ?b _ _ _ _) =>
      replace a with b by lia
  end.
  reflexivity.
Qed.

End SharedRunFacts.

(* ================================================================== *)
(** ** Further properties *)
(* ================================================================== *)

Module Extras.
Import Py Eff Spec Further Scenarios MoreScenarios.
Import ListFacts DictFacts RetryFacts ItemFacts BatchFacts ReportFacts
  SharedListFacts SingleFileFacts.
Import PathFacts RespectFacts ClockFacts BatchShapeFacts TranscribeFacts
  OrganizeFacts SharedRunFacts.

(** X1.  A reply of the analysis model that parses to a JSON object without
    [call_summary] fails the item and is not asked for again: after the
    transcription, [process_file] makes a single operation, the one
    analysis call, and returns a [Success = False] result whose [Error] is
    the text of the [KeyError], ['call_summary']. *)
Theorem reply_without_summary_is_not_retried (env : Improved.Env)
  file_path s transcript s1 d :
  Improved.transcribe_audio env file_path (entered file_path s)
  = (inr transcript, s1) ->
  Improved.analysis_reply env (Improved.tick s1) transcript
  = inr (Improved.Json (VDict d)) ->
  dict_get d "call_summary" = None ->
  exists elapsed s',
    Improved.process_file env file_path s
    = (inr (Improved.failure_result file_path (KeyError "call_summary")
              elapsed), s') /\
    Improved.tick s' = S (Improved.tick s1) /\
    subscript (Improved.failure_result file_path (KeyError "call_summary")
                 elapsed) "Error"
    = inr (VStr "'call_summary'").
Proof.
  intros Ht Hreply Hmiss.
  assert (Ha : exists s2,
             Improved.analyze_transcript env transcript (after_sleep 2 s1)
             = (inr (VDict d), s2) /\
             Improved.tick s2 = S (Improved.tick s1)).
  { eexists. split.
    - unfold Improved.analyze_transcript, Improved.retry.
      apply retry_from_success.
      unfold Improved.analyze_transcript_body, bind, try_except, Improved.log,
        Improved.emit, modify, Improved.interact, ret.
      cbn [Improved.tick Improved.now Improved.trace after_sleep].
      rewrite Hreply. reflexivity.
    - reflexivity. }
  destruct Ha as (s2 & Ha & Htick).
  rewrite process_file_run.
  unfold Improved.pipeline, bind. rewrite Ht.
  unfold Improved.sleep at 1, modify. fold (after_sleep 2 s1). rewrite Ha.
  unfold Improved.sleep, modify, Improved.time_time, gets, lift.
  cbn [subscript]. rewrite Hmiss.
  eexists _, _. split; [reflexivity|]. split; [exact Htick|reflexivity].
Qed.

Lemma reply_without_summary_is_not_retried_witness :
  exists elapsed s',
    Improved.process_file summary_missing "AudioFiles/a/x.wav" fresh
    = (inr (Improved.failure_result "AudioFiles/a/x.wav"
              (KeyError "call_summary") elapsed), s') /\
    Improved.tick s' = 3.
Proof.
  destruct (reply_without_summary_is_not_retried summary_missing
              "AudioFiles/a/x.wav" fresh "Hello."
              (snd (Improved.transcribe_audio summary_missing
                      "AudioFiles/a/x.wav"
                      (entered "AudioFiles/a/x.wav" fresh)))
              [ ("qa_evaluation", VList []) ])
    as (elapsed & s' & H1 & H2 & _).
  - vm_compute. reflexivity.
  - vm_compute. reflexivity.
  - vm_compute. reflexivity.
  - exists elapsed, s'. split; [exact H1|]. rewrite H2. vm_compute. reflexivity.
Defined.

(** X2.  For an entry name as [os.listdir] yields it (no slash), the result
    of [process_file] on the joined path carries the entry name as
    [FileName] and the joined path as [FilePath]: joining and taking the
    basename is a round trip. *)
Theorem file_name_is_the_directory_entry (env : Improved.Env) subdir f s :
  no_slash f = true ->
  exists d s',
    Improved.process_file env (path_join subdir f) s = (inr (VDict d), s') /\
    dict_get d "FileName" = Some (VStr f) /\
    dict_get d "FilePath" = Some (VStr (path_join subdir f)).
Proof.
  intros Hf.
  destruct (process_file_returns env (path_join subdir f) s)
    as (r & s' & E & [(t & cs & ev & ->)|(e & el & ->)]);
    eexists _, s'; (split; [exact E|]); cbn [dict_get String.eqb Ascii.eqb Bool.eqb];
    rewrite (basename_path_join subdir f Hf); split; reflexivity.
Qed.

Lemma file_name_is_the_directory_entry_witness :
  exists d s',
    Improved.process_file healthy (path_join "AudioFiles/a" "x.wav") fresh
    = (inr (VDict d), s') /\
    dict_get d "FileName" = Some (VStr "x.wav") /\
    dict_get d "FilePath" = Some (VStr (path_join "AudioFiles/a" "x.wav")).
Proof.
  apply (file_name_is_the_directory_entry healthy "AudioFiles/a" "x.wav" fresh).
  vm_compute. reflexivity.
Defined.

(** X3.  For a batch size of at least one, the batch loop of [main] is the
    loop over the batches cut from the folder's files: it announces,
    processes and pauses after each batch in turn, numbering them from one
    and giving their number as the total.  The batches are contiguous and
    cover the files in order, each holds between one and [batch_size]
    files, and their number is
    [(len(audio_files) + batch_size - 1) // batch_size]. *)
Theorem batches_are_bounded cfg (env : Improved.Env) (files : list string) s :
  1 <= Improved.batch_size cfg ->
  Improved.run_batches cfg env files s
  = announce_and_process env
      (length (batches_of (Improved.batch_size cfg) files)) 0
      (batches_of (Improved.batch_size cfg) files) [] s /\
  concat (batches_of (Improved.batch_size cfg) files) = files /\
  Forall (fun batch => 1 <= length batch <= Improved.batch_size cfg)
         (batches_of (Improved.batch_size cfg) files) /\
  length (batches_of (Improved.batch_size cfg) files)
  = (length files + Improved.batch_size cfg - 1) / Improved.batch_size cfg.
Proof.
  intros Hbs.
  assert (Hlen : length (batches_of (Improved.batch_size cfg) files)
                 = (length files + Improved.batch_size cfg - 1)
                   / Improved.batch_size cfg).
  { unfold batches_of. rewrite length_map. unfold range.
    rewrite range_from_length by lia.
    replace (length files - 0) with (length files) by lia. reflexivity. }
  split; [|split; [|split]].
  - rewrite Hlen. unfold Improved.run_batches, batches_of, range.
    destruct (Improved.batch_size cfg) as [|b] eqn:Eb; [lia|].
    rewrite <- Eb.
    exact (batch_loop_by_batches cfg env files ltac:(lia)
             (length files - 0) 0 [] s).
  - apply batches_cover. exact Hbs.
  - apply Forall_forall. intros batch Hin. unfold batches_of in Hin.
    apply in_map_iff in Hin.
    destruct Hin as (i & <- & Hi). unfold range in Hi.
    apply range_from_bounds in Hi. rewrite slice_length. lia.
  - exact Hlen.
Qed.

Lemma batches_are_bounded_witness :
  Improved.run_batches (Improved.mkConfig 3 2) healthy
    ["a.wav"; "b.wav"; "c.wav"] fresh
  = announce_and_process healthy
      (length (batches_of 2 ["a.wav"; "b.wav"; "c.wav"])) 0
      (batches_of 2 ["a.wav"; "b.wav"; "c.wav"]) [] fresh /\
  concat (batches_of 2 ["a.wav"; "b.wav"; "c.wav"])
  = ["a.wav"; "b.wav"; "c.wav"] /\
  Forall (fun batch => 1 <= length batch <= 2)
         (batches_of 2 ["a.wav"; "b.wav"; "c.wav"]) /\
  length (batches_of 2 ["a.wav"; "b.wav"; "c.wav"]) = (3 + 2 - 1) / 2.
Proof.
  apply (batches_are_bounded (Improved.mkConfig 3 2) healthy
           ["a.wav"; "b.wav"; "c.wav"] fresh).
  simpl. lia.
Defined.

(** X4.  When no operation takes a negative time, [process_batch] spends at
    least two seconds per file, whatever happens to the files: the clock
    advances by at least [2 * len(files)] seconds. *)
Theorem batch_takes_two_seconds_per_file (env : Improved.Env) files s :
  nonneg_latency env ->
  exists results s',
    Improved.process_batch env files s = (inr results, s') /\
    (Improved.now s + 200 * Z.of_nat (length files) <= Improved.now s')%Z.
Proof.
  intros Hl. unfold Improved.process_batch. generalize (@nil Value).
  revert s. induction files as [|file rest IH]; intros s acc.
  - exists acc, s. split; [reflexivity|]. simpl. lia.
  - cbn [Improved.process_batch_loop]. unfold bind.
    destruct (process_file_returns env file s) as (r & s1 & E & _).
    rewrite E. pose proof (steady_process_file env file Hl _ _ _ E) as H1.
    unfold Improved.sleep at 1, modify. fold (after_sleep 2 s1).
    destruct (IH (after_sleep 2 s1) (acc ++ [r])%list) as (rs & s' & E' & H').
    exists rs, s'. split; [exact E'|].
    unfold clock_advances in H1. cbn [after_sleep Improved.now] in H'.
    rewrite length_cons. lia.
Qed.

Lemma healthy_latency : nonneg_latency healthy.
Proof. intros n. simpl. lia. Defined.

Lemma batch_takes_two_seconds_per_file_witness :
  exists results s',
    Improved.process_batch healthy ["AudioFiles/a/x.wav"; "AudioFiles/a/y.MP3"]
      fresh = (inr results, s') /\
    (Improved.now fresh + 200 * 2 <= Improved.now s')%Z.
Proof.
  exact (batch_takes_two_seconds_per_file healthy
           ["AudioFiles/a/x.wav"; "AudioFiles/a/y.MP3"] fresh healthy_latency).
Defined.

(** X5.  [process_file] makes at most nine file and remote operations per
    item, whatever the answers: at most three attempts of the transcription
    (a read and a call each) and of the analysis (a call each), under the
    retry wrapper as modelled. *)
Theorem item_operations_are_bounded (env : Improved.Env) file_path s :
  exists result s',
    Improved.process_file env file_path s = (inr result, s') /\
    Improved.tick s <= Improved.tick s' <= Improved.tick s + 9.
Proof.
  destruct (process_file_returns env file_path s) as (r & s' & E & _).
  exists r, s'. split; [exact E|].
  exact (at_most_process_file env file_path s _ s' E).
Qed.

(** X6.  When no folder of the walk holds an audio file, [main] only logs
    the error line: it makes no file or remote operation and writes no
    report. *)
Theorem nothing_to_do_without_audio cfg (env : Improved.Env) directory s :
  no_audio env directory ->
  Improved.main cfg env directory s
  = (inr tt,
     Improved.mkState (Improved.tick s) (Improved.now s)
       (Improved.trace s
        ++ [Improved.EvLog (Improved.NoAudioFilesFound directory)])).
Proof.
  intros Hno.
  assert (Hs : Improved.subdirs_of env directory = []).
  { unfold Improved.subdirs_of. unfold no_audio in Hno. revert Hno.
    generalize (Improved.os_walk env directory).
    induction l as [|entry rest IH]; intros Hno; [reflexivity|].
    cbn [filter]. rewrite (Hno entry (or_introl eq_refl)).
    apply IH. intros e He. apply Hno. right. exact He. }
  unfold Improved.main, bind, Improved.time_time, gets. rewrite Hs.
  reflexivity.
Qed.

Lemma nothing_to_do_without_audio_witness :
  Improved.main Improved.load_config silent_tree "AudioFiles" fresh
  = (inr tt,
     Improved.mkState 0 0
       [Improved.EvLog (Improved.NoAudioFilesFound "AudioFiles")]).
Proof.
  apply (nothing_to_do_without_audio Improved.load_config silent_tree
           "AudioFiles" fresh).
  intros entry Hin. simpl in Hin.
  destruct Hin as [<-|[<-|[]]]; vm_compute; reflexivity.
Defined.

(** X7.  When no operation takes a negative time, an item that succeeds has
    taken at least four seconds: the two throttle pauses of
    [process_file]. *)
Theorem success_takes_four_seconds (env : Improved.Env) file_path s result s' :
  nonneg_latency env ->
  Improved.process_file env file_path s = (inr result, s') ->
  subscript result "Success" = inr (VBool true) ->
  (Improved.now s + 400 <= Improved.now s')%Z.
Proof.
  intros Hl. rewrite process_file_run.
  destruct (Improved.pipeline env file_path (entered file_path s))
    as [[e|d] s1] eqn:E.
  - intros H. injection H as <- _. discriminate.
  - intros H _. injection H as _ <-.
    apply pipeline_returns_inv in E.
    destruct E as (t & qa & cs & ev & s2 & s3 & Ht & Ha & _ & _ & _ & ->).
    pose proof (steady_transcribe_audio env file_path Hl _ _ _ Ht) as H1.
    pose proof (steady_analyze_transcript env t Hl _ _ _ Ha) as H2.
    unfold clock_advances in *.
    cbn [after_sleep entered Improved.now] in *. lia.
Qed.

Lemma success_takes_four_seconds_witness :
  (Improved.now fresh + 400
   <= Improved.now
        (snd (Improved.process_file healthy "AudioFiles/a/x.wav" fresh)))%Z.
Proof.
  apply (success_takes_four_seconds healthy "AudioFiles/a/x.wav" fresh
           (Improved.success_result "AudioFiles/a/x.wav"
              "Hello, this is the front desk."
              (VStr "Caller asked about an open claim.")
              (VList [ VDict [ ("criterion", VStr "Friendly opening?");
                               ("score", VStr "Yes");
                               ("justification", VStr "Greeted by name.") ] ]))).
  - exact healthy_latency.
  - vm_compute. reflexivity.
  - vm_compute. reflexivity.
Defined.

(** X8.  In process-audio-transcribe.py, once the upload has returned a
    handle, [transcribe_audio] makes exactly three operations, the upload,
    the model call and one deletion of the upload, whatever the model call
    does; whether the deletion works or fails does not change the outcome,
    which is the model's exception, an [AttributeError] for a reply without
    text, or the stripped text. *)
Theorem cleanup_never_changes_the_outcome (env : Transcribe.Env)
  file_path s audio :
  Transcribe.upload_file env (Transcribe.tick s) file_path
  = inr (Some audio) ->
  exists s',
    Transcribe.transcribe_audio env file_path s
    = (match Transcribe.transcription_reply env (S (Transcribe.tick s)) audio
       with
       | inl e => inl e
       | inr None =>
           inl (AttributeError "'NoneType' object has no attribute 'strip'")
       | inr (Some t) => inr (strip t)
       end, s') /\
    Transcribe.tick s' = 3 + Transcribe.tick s /\
    exists tr,
      Transcribe.trace s' = (tr ++ [Transcribe.CleanedUp (Transcribe.name audio)])%list
      \/ exists msg,
           Transcribe.trace s'
           = (tr ++ [Transcribe.CleanupFailed (Transcribe.name audio) msg])%list.
Proof.
  intros Hup.
  unfold Transcribe.transcribe_audio, bind, attempt, Transcribe.log, modify,
    Transcribe.interact.
  cbn [Transcribe.tick Transcribe.now Transcribe.trace]. rewrite Hup.
  unfold Transcribe.transcribe_uploaded, Transcribe.cleanup, try_except, bind,
    Transcribe.interact, Transcribe.log, modify, raise, ret, lift.
  cbn [Transcribe.tick Transcribe.now Transcribe.trace].
  destruct (Transcribe.transcription_reply env (S (Transcribe.tick s)) audio)
    as [e|[t|]];
    cbn [Transcribe.tick Transcribe.now Transcribe.trace];
    destruct (Transcribe.delete_file env (S (S (Transcribe.tick s)))
                (Transcribe.name audio)) as [e'|[]];
    (eexists; split; [reflexivity|]; split; [reflexivity|]);
    cbn [Transcribe.trace]; eexists;
    first [ left; reflexivity | right; eexists; reflexivity ].
Qed.

Lemma cleanup_never_changes_the_outcome_witness :
  exists s',
    Transcribe.transcribe_audio plain "calls/x.wav" fresh_plain
    = (inr "Hello.", s') /\
    Transcribe.tick s' = 3.
Proof.
  destruct (cleanup_never_changes_the_outcome plain "calls/x.wav" fresh_plain
              (Transcribe.mkFile "files/1" "x.wav") eq_refl)
    as (s' & H1 & H2 & _).
  exists s'. split; [exact H1|exact H2].
Defined.

(** X9.  In process-audio-transcribe.py an upload that returns no handle
    fails the item at once: [process_file] makes that one operation only
    (no model call, no deletion) and returns a [Success = False] result
    whose [Error] is [Upload failed for <path>]. *)
Theorem upload_without_handle_fails_the_item (env : Transcribe.Env)
  file_path s :
  Transcribe.upload_file env (Transcribe.tick s) file_path = inr None ->
  exists s',
    Transcribe.process_file env file_path s
    = (inr (Transcribe.failure_result file_path
              (RuntimeError ("Upload failed for " ++ file_path))), s') /\
    Transcribe.tick s' = S (Transcribe.tick s).
Proof.
  intros Hup.
  unfold Transcribe.process_file, bind, try_except, Transcribe.time_time, gets,
    Transcribe.log, modify.
  cbn [Transcribe.tick Transcribe.now Transcribe.trace].
  unfold Transcribe.transcribe_audio, bind, attempt, Transcribe.log, modify,
    Transcribe.interact, raise, ret.
  cbn [Transcribe.tick Transcribe.now Transcribe.trace]. rewrite Hup.
  cbn [Transcribe.tick Transcribe.now Transcribe.trace].
  eexists. split; reflexivity.
Qed.

Lemma upload_without_handle_fails_the_item_witness :
  exists s',
    Transcribe.process_file no_handle "calls/x.wav" fresh_plain
    = (inr (Transcribe.failure_result "calls/x.wav"
              (RuntimeError ("Upload failed for " ++ "calls/x.wav"))), s') /\
    Transcribe.tick s' = 1.
Proof.
  exact (upload_without_handle_fails_the_item no_handle "calls/x.wav"
           fresh_plain eq_refl).
Defined.

(** X10.  When the directory can be listed and the document can be
    written, [main] of process-audio-transcribe.py runs to its end without
    raising and writes one document, to [output/all_calls.json]: the list
    of the results of the audio files of the listing, one per file and in
    listing order.  Every one of them has [Success = False], whatever the
    remote service answers, since the analysis stage cannot build its
    prompt; for a directory without audio files the list is empty. *)
Theorem main_saves_one_result_per_file (env : Transcribe.Env) os_listdir
  json_dump directory listing r :
  os_listdir directory = inr listing ->
  (forall n doc, json_dump n "output/all_calls.json" doc = inr tt) ->
  exists results r',
    TranscribeMain.main env os_listdir json_dump directory r = (inr tt, r') /\
    TranscribeMain.events r'
    = (TranscribeMain.events r
       ++ [ TranscribeMain.FoundAudioFiles
              (length (filter is_audio listing)) directory;
            TranscribeMain.Wrote "output/all_calls.json" (VList results);
            TranscribeMain.AllResultsSaved "output/all_calls.json" ])%list /\
    paths_of results
    = map (fun f => inr (VStr (path_join directory f)))
          (filter is_audio listing) /\
    Forall (fun x => subscript x "Success" = inr (VBool false)) results.
Proof.
  intros Hlist Hdump.
  unfold TranscribeMain.main, bind at 1, lift. rewrite Hlist.
  unfold bind at 1, TranscribeMain.record at 1, modify.
  unfold bind at 1.
  match goal with
  | |- context [TranscribeMain.gather _ ?r0] =>
      destruct (gather_process_files env
                  (map (path_join directory) (filter is_audio listing)) r0)
        as (results & r1 & E & Hev & Hp & Hall)
  end.
  rewrite E.
  unfold bind, attempt, TranscribeMain.in_pipeline, Transcribe.interact,
    TranscribeMain.output_path.
  rewrite Hdump. unfold TranscribeMain.record, modify.
  exists results. eexists. split; [reflexivity|]. split; [|split].
  - cbn [TranscribeMain.events]. rewrite Hev. cbn [TranscribeMain.events].
    rewrite length_map. rewrite <- !app_assoc. reflexivity.
  - rewrite Hp, map_map. reflexivity.
  - exact Hall.
Qed.

Lemma main_saves_one_result_per_file_witness :
  exists results r',
    TranscribeMain.main plain two_calls writable "calls" fresh_run
    = (inr tt, r') /\
    TranscribeMain.events r'
    = (TranscribeMain.events fresh_run
       ++ [ TranscribeMain.FoundAudioFiles
              (length (filter is_audio ["x.wav"; "notes.txt"; "y.mp3"]))
              "calls";
            TranscribeMain.Wrote "output/all_calls.json" (VList results);
            TranscribeMain.AllResultsSaved "output/all_calls.json" ])%list /\
    paths_of results
    = map (fun f => inr (VStr (path_join "calls" f)))
          (filter is_audio ["x.wav"; "notes.txt"; "y.mp3"]) /\
    Forall (fun x => subscript x "Success" = inr (VBool false)) results.
Proof.
  exact (main_saves_one_result_per_file plain two_calls writable "calls"
           ["x.wav"; "notes.txt"; "y.mp3"] fresh_run eq_refl
           (fun _ _ => eq_refl)).
Defined.

(** X11.  Every folder entry [organize_output_by_folders] builds holds, in
    the order of [output_json], exactly the records filed under that
    folder, that is those whose normalised [FilePath] has at least three
    components with the folder as the second; no entry is empty. *)
Theorem reports_group_records_by_folder (items : list Value) k members :
  In (k, members) (Huzaifa.organize_output_by_folders items) ->
  members = filter (in_folder k) items /\ members <> [].
Proof. apply organize_entry. Qed.

Lemma reports_group_records_by_folder_witness :
  [ VDict [ ("FilePath", VStr "test/f1/a.wav") ];
    VDict [ ("FilePath", VStr "test/f1/b.wav") ] ]
  = filter (in_folder "f1")
      [ VDict [ ("FilePath", VStr "test/f1/a.wav") ];
        VDict [ ("FilePath", VStr "test/f2/c.wav") ];
        VDict [ ("FileName", VStr "test/f1/d.wav") ];
        VDict [ ("FilePath", VStr "test/f1/b.wav") ] ]
  /\ [ VDict [ ("FilePath", VStr "test/f1/a.wav") ];
       VDict [ ("FilePath", VStr "test/f1/b.wav") ] ] <> [].
Proof.
  apply (reports_group_records_by_folder
           [ VDict [ ("FilePath", VStr "test/f1/a.wav") ];
             VDict [ ("FilePath", VStr "test/f2/c.wav") ];
             VDict [ ("FileName", VStr "test/f1/d.wav") ];
             VDict [ ("FilePath", VStr "test/f1/b.wav") ] ]
           "f1").
  vm_compute. left. reflexivity.
Defined.

(** X12.  No record that has a folder is dropped by
    [organize_output_by_folders]: a record of [output_json] filed under a
    folder appears in that folder's entry, together with every other record
    of the folder. *)
Theorem every_filed_record_is_grouped (items : list Value) item k :
  In item items -> folder_of item = Some k ->
  In (k, filter (in_folder k) items)
     (Huzaifa.organize_output_by_folders items)
  /\ In item (filter (in_folder k) items).
Proof.
  intros Hin Hk. split; [exact (organize_complete items item k Hin Hk)|].
  apply filter_In. split; [exact Hin|].
  unfold in_folder. rewrite Hk. apply String.eqb_refl.
Qed.

Lemma every_filed_record_is_grouped_witness :
  In ("f2", filter (in_folder "f2")
              [ VDict [ ("FilePath", VStr "test/f1/a.wav") ];
                VDict [ ("FilePath", VStr "test/f2/c.wav") ] ])
     (Huzaifa.organize_output_by_folders
        [ VDict [ ("FilePath", VStr "test/f1/a.wav") ];
          VDict [ ("FilePath", VStr "test/f2/c.wav") ] ])
  /\ In (VDict [ ("FilePath", VStr "test/f2/c.wav") ])
        (filter (in_folder "f2")
           [ VDict [ ("FilePath", VStr "test/f1/a.wav") ];
             VDict [ ("FilePath", VStr "test/f2/c.wav") ] ]).
Proof.
  apply (every_filed_record_is_grouped
           [ VDict [ ("FilePath", VStr "test/f1/a.wav") ];
             VDict [ ("FilePath", VStr "test/f2/c.wav") ] ]
           (VDict [ ("FilePath", VStr "test/f2/c.wav") ]) "f2").
  - right. left. reflexivity.
  - vm_compute. reflexivity.
Defined.


(** X14.  When every upload raises and there is at least one audio file,
    the [__main__] block of recentAsPerHuzaifa-upgraded.py ends with the
    [UnboundLocalError] of line 137, raised out of the first batch: only
    the files of that batch were tried, no retry takes place and no report
    is written. *)
Theorem upload_outage_aborts_the_run (env : Huzaifa.Env) :
  uploads_fail env ->
  Huzaifa.fetch_audio_files env "test" <> [] ->
  exists s',
    Huzaifa.script env Huzaifa.initial = (inl unbound, s') /\
    Huzaifa.output_json s' = [] /\
    Huzaifa.written s' = [] /\
    Huzaifa.failed_files s'
    = firstn 10 (Huzaifa.fetch_audio_files env "test").
Proof.
  intros Hfail Hsome. unfold Huzaifa.script.
  destruct (Huzaifa.fetch_audio_files env "test") as [|p more];
    [contradiction Hsome; reflexivity|].
  destruct (process_audio_files_outage env p more 9 Huzaifa.initial Hfail)
    as (s' & E & O & W & F).
  exists s'. unfold bind at 1. rewrite E. repeat split; assumption.
Qed.

Lemma upload_outage_aborts_the_run_witness :
  exists s',
    Huzaifa.script upload_outage Huzaifa.initial = (inl unbound, s') /\
    Huzaifa.output_json s' = [] /\
    Huzaifa.written s' = [] /\
    Huzaifa.failed_files s'
    = firstn 10 (Huzaifa.fetch_audio_files upload_outage "test").
Proof.
  apply (upload_outage_aborts_the_run upload_outage).
  - intros n p. eexists. reflexivity.
  - vm_compute. discriminate.
Defined.

(** X15.  Whatever the remote service does and however the run ends, every
    file the [__main__] block of recentAsPerHuzaifa-upgraded.py has written
    is [output/<folder>.json] for some folder and holds a non-empty list of
    records that all have [Success = True] and are filed under that folder:
    the [Success = False] records of the retry pass have no [FilePath] and
    reach no report. *)
Theorem reports_hold_only_successes (env : Huzaifa.Env) r s' path doc :
  Huzaifa.script env Huzaifa.initial = (r, s') ->
  In (path, doc) (Huzaifa.written s') ->
  exists k items,
    path = Huzaifa.report_path k /\ doc = VList items /\ items <> [] /\
    Forall (fun item =>
              subscript item "Success" = inr (VBool true) /\
              folder_of item = Some k) items.
Proof.
  unfold Huzaifa.script.
  destruct (Huzaifa.fetch_audio_files env "test") as [|p more].
  - intros E. injection E as _ <-. intros [].
  - intros E.
    assert (Hassoc :
              (Huzaifa.process_audio_files env (p :: more) 10 ;;;
               failed <- gets Huzaifa.failed_files ;;
               match failed with
               | [] => ret tt
               | _ :: _ => Huzaifa.retry_failed_files env
               end ;;;
               Huzaifa.save_output env) Huzaifa.initial
              = bind (Huzaifa.process_audio_files env (p :: more) 10 ;;;
                      failed <- gets Huzaifa.failed_files ;;
                      match failed with
                      | [] => ret tt
                      | _ :: _ => Huzaifa.retry_failed_files env
                      end)
                     (fun _ => Huzaifa.save_output env) Huzaifa.initial).
    { unfold bind, gets.
      destruct (Huzaifa.process_audio_files env (p :: more) 10
                  Huzaifa.initial) as [[e|[]] s1]; reflexivity. }
    rewrite Hassoc in E.
    intros Hin.
    refine (saved_after_appending env _ Huzaifa.initial r s' _ eq_refl
              (Forall_nil _) E path doc Hin).
    apply (respects_bind _ only_appends_trans);
      [apply only_appends_process_audio_files|intros _].
    apply (respects_bind _ only_appends_trans);
      [apply (respects_gets _ only_appends_refl)|].
    intros [|q failed];
      [apply (respects_ret _ only_appends_refl)
      |apply only_appends_retry_failed_files].
Qed.

Lemma reports_hold_only_successes_witness :
  exists k items,
    fst (nth 0 (Huzaifa.written (snd (Huzaifa.script one_bad_reply
                                        Huzaifa.initial)))
             ("", VNone))
    = Huzaifa.report_path k /\
    snd (nth 0 (Huzaifa.written (snd (Huzaifa.script one_bad_reply
                                        Huzaifa.initial)))
             ("", VNone))
    = VList items /\
    items <> [] /\
    Forall (fun item =>
              subscript item "Success" = inr (VBool true) /\
              folder_of item = Some k) items.
Proof.
  apply (reports_hold_only_successes one_bad_reply
           (fst (Huzaifa.script one_bad_reply Huzaifa.initial))
           (snd (Huzaifa.script one_bad_reply Huzaifa.initial))).
  - apply surjective_pairing.
  - vm_compute. left. reflexivity.
Defined.

(** X16.  When every upload yields a handle and the model never replies
    with a JSON object, the [__main__] block of
    recentAsPerHuzaifa-upgraded.py ends without raising, having processed
    every audio file three times (the first pass, the retry inside
    [process_audio_files] and the retry of [__main__]), with two remote
    operations each time; [output_json] stays empty, every path stays in
    [failed_files] and no report is written. *)
Theorem persistent_failures_are_tried_three_times (env : Huzaifa.Env) :
  uploads_succeed env -> no_usable_reply env ->
  exists s',
    Huzaifa.script env Huzaifa.initial = (inr tt, s') /\
    Huzaifa.tick s' = 6 * length (Huzaifa.fetch_audio_files env "test") /\
    Huzaifa.output_json s' = [] /\
    Huzaifa.failed_files s' = Huzaifa.fetch_audio_files env "test" /\
    Huzaifa.written s' = [].
Proof.
  intros Hup Hno. unfold Huzaifa.script.
  destruct (Huzaifa.fetch_audio_files env "test") as [|p more] eqn:Ef.
  - exists Huzaifa.initial. repeat split.
  - unfold bind at 1.
    rewrite (process_audio_files_unusable env (p :: more) 9 Huzaifa.initial
               Hup Hno eq_refl ltac:(discriminate)).
    unfold bind at 1, gets. cbn [Huzaifa.failed_files].
    unfold bind at 1.
    rewrite (retry_failed_files_unusable env _ Hup Hno).
    unfold Huzaifa.save_output, bind, gets.
    cbn [Huzaifa.tick Huzaifa.output_json Huzaifa.failed_files
         Huzaifa.final_failed_files Huzaifa.written Huzaifa.initial].
    cbn [Huzaifa.organize_output_by_folders fold_left for_each].
    eexists. split; [reflexivity|].
    cbn [Huzaifa.tick Huzaifa.output_json Huzaifa.failed_files
         Huzaifa.final_failed_files Huzaifa.written].
    repeat split. lia.
Qed.

Lemma persistent_failures_are_tried_three_times_witness :
  exists s',
    Huzaifa.script only_bad_replies Huzaifa.initial = (inr tt, s') /\
    Huzaifa.tick s'
    = 6 * length (Huzaifa.fetch_audio_files only_bad_replies "test") /\
    Huzaifa.output_json s' = [] /\
    Huzaifa.failed_files s' = Huzaifa.fetch_audio_files only_bad_replies "test" /\
    Huzaifa.written s' = [].
Proof.
  apply (persistent_failures_are_tried_three_times only_bad_replies).
  - intros n p. eexists. reflexivity.
  - intros n f d. discriminate.
Defined.

End Extras.
